(** * Verification of the block shipper (pkg/shipper/shipper.go)

    The shipper scans a local directory for TSDB blocks, uploads the ones a
    remote bucket does not hold yet, and keeps a bookkeeping file
    [thanos.shipper.json] listing the blocks it has shipped.

    The development is a shallow embedding: the Go functions of the package
    become functions of a state-and-error monad over a [World] that holds
    the local file system, the remote bucket, the trace of observable
    events and the schedule of I/O failures still to come.

    - The file system is a tree; a path is its list of components. A hard
      link is a second entry with the same bytes: nothing in the package
      writes through an existing file.
    - Every call that returns an [error] in Go may fail here, either for a
      reason the tree gives (no such file, is a directory, ...) or because
      the failure schedule of the world says so.
    - One shipper runs alone: nothing else changes the directory or the
      bucket during a call, as the package asks of its callers ("It is not
      concurrency-safe"). What has reached the disk and what has not when
      the machine stops is not modelled.
    - [encoding/json] is a parameter (class [JSON]); package [block], which
      is not among the sources, is modelled from the specification where
      the shipper calls it, and its file names are parameters. *)

From stdpp Require Import gmap strings list.
From Stdlib Require Import ZArith Lia BinaryString.

Set Warnings "-register-all".

Open Scope string_scope.
Open Scope Z_scope.
Open Scope list_scope.

(** ** Paths, errors, results *)

(** A path is the list of its components: [filepath.Join] is append and
    [filepath.Dir] drops the last component. *)
Definition path := list string.

Definition filepath_Dir (p : path) : path := removelast p.

(** [ulid.ULID] is represented by its canonical text form, which is what the
    package uses it for: map key, path component, JSON text. *)
Definition ULID := string.

Definition ULID_String (id : ULID) : string := id.

Inductive error :=
  | ENOENT                        (* no such file or directory *)
  | ENOTDIR                       (* a path component is not a directory *)
  | EISDIR                        (* is a directory *)
  | EEXIST                        (* file exists *)
  | ENOTEMPTY                     (* directory not empty *)
  | EIO (op : string)             (* the environment failed the call *)
  | ESyntax                       (* json.Unmarshal rejected the bytes *)
  | EVersion (v : Z)              (* unexpected meta file version *)
  | Wrap (msg : string) (e : error).  (* errors.Wrap *)

(** [os.IsNotExist]: true of the bare system error only. *)
Definition os_IsNotExist (e : error) : bool :=
  match e with ENOENT => true | _ => false end.

Inductive result (A : Type) :=
  | Ok (a : A)
  | Err (e : error).
Arguments Ok {A} a.
Arguments Err {A} e.

Definition is_Ok {A} (r : result A) : bool :=
  match r with Ok _ => true | Err _ => false end.

(** ** The local file system: a tree of directories and files *)

Inductive node :=
  | File (data : string)
  | Dir (entries : list (string * node)).

Definition is_Dir (n : node) : bool :=
  match n with Dir _ => true | File _ => false end.

Section Entries.

(** Directory entries are kept in name order; a lookup takes the first
    entry of that name. *)
Fixpoint assoc (k : string) (es : list (string * node)) : option node :=
  match es with
  | [] => None
  | (k', v) :: es' => if String.eqb k k' then Some v else assoc k es'
  end.

Fixpoint entry_del (k : string) (es : list (string * node)) : list (string * node) :=
  match es with
  | [] => []
  | (k', v) :: es' =>
      if String.eqb k k' then entry_del k es' else (k', v) :: entry_del k es'
  end.

Fixpoint entry_put (k : string) (v : node) (es : list (string * node)) : list (string * node) :=
  match es with
  | [] => [(k, v)]
  | (k', v') :: es' =>
      if String.eqb k k' then (k, v) :: entry_del k es'
      else if String.ltb k k' then (k, v) :: (k', v') :: entry_del k es'
      else (k', v') :: entry_put k v es'
  end.

Definition entry_set (k : string) (x : option node) (es : list (string * node)) :=
  match x with
  | Some v => entry_put k v es
  | None => entry_del k es
  end.

End Entries.

Fixpoint lookup_path (p : path) (n : node) : option node :=
  match p with
  | [] => Some n
  | c :: p' =>
      match n with
      | Dir es => match assoc c es with
                  | Some ch => lookup_path p' ch
                  | None => None
                  end
      | File _ => None
      end
  end.

(** What an operation does when a directory on the way to its target is
    missing: fail, create it, or leave the tree alone. *)
Inductive missing := MFail | MCreate | MSkip.

(** [modify pol f p n] rewrites the entry at [p]: [f] receives the entry now
    there ([None] if absent) and answers with the new entry ([Ok None]
    removes it) or with the error of the operation. *)
Fixpoint modify (pol : missing) (f : option node -> result (option node))
    (p : path) (n : node) {struct p} : result node :=
  match p with
  | [] => Err EEXIST
  | c :: p' =>
      match n with
      | File _ => match pol with MSkip => Ok n | _ => Err ENOTDIR end
      | Dir es =>
          match p' with
          | [] =>
              match f (assoc c es) with
              | Ok x => Ok (Dir (entry_set c x es))
              | Err e => Err e
              end
          | _ :: _ =>
              match assoc c es with
              | Some ch =>
                  match modify pol f p' ch with
                  | Ok ch' => Ok (Dir (entry_put c ch' es))
                  | Err e => Err e
                  end
              | None =>
                  match pol with
                  | MFail => Err ENOENT
                  | MSkip => Ok n
                  | MCreate =>
                      match modify pol f p' (Dir []) with
                      | Ok ch' => Ok (Dir (entry_put c ch' es))
                      | Err e => Err e
                      end
                  end
              end
          end
      end
  end.

(** Creating an entry where there was none. *)
Definition create (x : node) (cur : option node) : result (option node) :=
  match cur with
  | None => Ok (Some x)
  | Some _ => Err EEXIST
  end.

(** ** The world the shipper runs in *)

Inductive Level := LvInfo | LvWarn | LvError.

(** What an observer of one run sees, in order: the calls made on the
    bucket and the lines handed to the logger. *)
Inductive Event :=
  | EvExists (name : path)
  | EvUpload (name : path) (data : string) (ok : bool)
  | EvLog (lvl : Level) (msg : string) (block : option ULID) (err : option error).


(** [faults] schedules the outcome of the fallible calls still to come, one
    entry per call: [None] lets the call through, [Some k] fails it (a write
    fails after [k] bytes). Once the schedule is used up, calls fail only
    for a reason the file system itself gives. *)
Record World := mkWorld {
  root : node;
  bucket : gmap path string;
  events : list Event;
  faults : list (option nat);
}.

Definition set_root (n : node) (w : World) : World :=
  mkWorld n (bucket w) (events w) (faults w).
Definition set_bucket (b : gmap path string) (w : World) : World :=
  mkWorld (root w) b (events w) (faults w).
Definition set_events (l : list Event) (w : World) : World :=
  mkWorld (root w) (bucket w) l (faults w).
Definition set_faults (l : list (option nat)) (w : World) : World :=
  mkWorld (root w) (bucket w) (events w) l.

(** ** The monad: state, and an error or a value *)

Definition M (A : Type) : Type := World -> result A * World.

Global Instance M_ret : MRet M := fun A a w => (Ok a, w).

Global Instance M_bind : MBind M := fun A B k c w =>
  match c w with
  | (Ok a, w') => k a w'
  | (Err e, w') => (Err e, w')
  end.

Definition throw {A} (e : error) : M A := fun w => (Err e, w).

(** [try c] hands the caller the error of [c], as [err != nil] does. *)
Definition try {A} (c : M A) : M (result A) := fun w =>
  let (r, w') := c w in (Ok r, w').

(** [errors.Wrap(err, msg)] on the way out. *)
Definition wrap {A} (msg : string) (c : M A) : M A := fun w =>
  match c w with
  | (Ok a, w') => (Ok a, w')
  | (Err e, w') => (Err (Wrap msg e), w')
  end.

(** [defer]: [cleanup] runs when [body] is left, whatever its result. *)
Definition defer {A} (cleanup : M unit) (body : M A) : M A := fun w =>
  let (r, w') := body w in
  let (_, w'') := cleanup w' in (r, w'').

Definition emit (e : Event) : M unit := fun w =>
  (Ok tt, set_events (events w ++ [e]) w).

Definition log (lvl : Level) (msg : string) (block : option ULID)
    (err : option error) : M unit :=
  emit (EvLog lvl msg block err).

(** The next entry of the failure schedule. *)
Definition draw : M (option nat) := fun w =>
  match faults w with
  | [] => (Ok None, w)
  | f :: fs => (Ok f, set_faults fs w)
  end.

Definition fallible {A} (op : string) (c : M A) : M A :=
  f ← draw;
  match f with
  | Some _ => throw (EIO op)
  | None => c
  end.

Definition get_root : M node := fun w => (Ok (root w), w).

Definition fs_update (g : node -> result node) : M unit := fun w =>
  match g (root w) with
  | Ok n => (Ok tt, set_root n w)
  | Err e => (Err e, w)
  end.

Definition bucket_update (g : gmap path string -> gmap path string) : M unit :=
  fun w => (Ok tt, set_bucket (g (bucket w)) w).

(** ** The calls the package makes on the operating system *)

Module os.

Definition ReadFile (p : path) : M string :=
  fallible "read" (fun w =>
    match lookup_path p (root w) with
    | Some (File d) => (Ok d, w)
    | Some (Dir _) => (Err EISDIR, w)
    | None => (Err ENOENT, w)
    end).

(** [os.Stat]: the answer kept is [fi.IsDir()]. *)
Definition Stat (p : path) : M bool :=
  fallible "stat" (fun w =>
    match lookup_path p (root w) with
    | Some n => (Ok (is_Dir n), w)
    | None => (Err ENOENT, w)
    end).

(** [os.Create]: an empty file, truncated if it was there. *)
Definition Create (p : path) : M path :=
  fallible "create"
    (fs_update (modify MFail (fun cur =>
       match cur with
       | Some (Dir _) => Err EISDIR
       | _ => Ok (Some (File ""))
       end) p);;
     mret p).

(** Writing [data] through an open file: a failed write leaves the bytes
    that made it to the file. *)
Definition Write (f : path) (data : string) : M unit :=
  k ← draw;
  match k with
  | Some n =>
      fs_update (modify MFail (fun _ => Ok (Some (File (String.substring 0 n data)))) f);;
      throw (EIO "write")
  | None =>
      fs_update (modify MFail (fun _ => Ok (Some (File data))) f)
  end.

Definition Close (f : path) : M unit :=
  fallible "close" (mret tt).

(** [os.RemoveAll]: no error when there is nothing to remove. *)
Definition RemoveAll (p : path) : M unit :=
  fallible "removeall" (fs_update (modify MSkip (fun _ => Ok None) p)).

Definition MkdirAll (p : path) : M unit :=
  fallible "mkdirall"
    (match p with
     | [] => mret tt
     | _ :: _ =>
         fs_update (modify MCreate (fun cur =>
           match cur with
           | None => Ok (Some (Dir []))
           | Some (Dir es) => Ok (Some (Dir es))
           | Some (File _) => Err ENOTDIR
           end) p)
     end).

(** [os.Link]: a second name for the file at [src]; [dst] must be free. *)
Definition Link (src dst : path) : M unit :=
  fallible "link"
    (r ← get_root;
     match lookup_path src r with
     | Some (File d) =>
         fs_update (modify MFail (fun cur =>
           match cur with
           | None => Ok (Some (File d))
           | Some _ => Err EEXIST
           end) dst)
     | Some (Dir _) => throw EISDIR
     | None => throw ENOENT
     end).

(** [os.Rename]: the entry at [from] replaces what is at [to]; a file
    does not replace a directory, nor a directory a file or a directory
    that has entries. *)
Definition Rename (from to : path) : M unit :=
  fallible "rename"
    (r ← get_root;
     match lookup_path from r with
     | None => throw ENOENT
     | Some x =>
         fs_update (fun r =>
           match modify MFail (fun _ => Ok None) from r with
           | Err e => Err e
           | Ok r' =>
               modify MFail (fun cur =>
                 match x, cur with
                 | File _, Some (Dir _) => Err EISDIR
                 | Dir _, Some (File _) => Err ENOTDIR
                 | Dir _, Some (Dir (_ :: _)) => Err ENOTEMPTY
                 | _, _ => Ok (Some x)
                 end) to r'
           end)
     end).

End os.

(** github.com/prometheus/tsdb/fileutil *)
Module fileutil.

(** [fileutil.ReadDir]: the names in the directory, in name order. *)
Definition ReadDir (p : path) : M (list string) :=
  fallible "readdir" (fun w =>
    match lookup_path p (root w) with
    | Some (Dir es) => (Ok (map fst es), w)
    | Some (File _) => (Err ENOTDIR, w)
    | None => (Err ENOENT, w)
    end).

Definition OpenDir (p : path) : M path :=
  fallible "opendir" (fun w =>
    match lookup_path p (root w) with
    | Some (Dir _) => (Ok p, w)
    | Some (File _) => (Err ENOTDIR, w)
    | None => (Err ENOENT, w)
    end).

Definition Fsync (d : path) : M unit :=
  fallible "fsync" (mret tt).

End fileutil.

(** [runutil.CloseWithLogOnErr] *)
Definition CloseWithLogOnErr (f : path) (msg : string) : M unit :=
  r ← try (os.Close f);
  match r with
  | Ok _ => mret tt
  | Err e => log LvWarn msg None (Some e)
  end.

(** ** The remote bucket ([objstore.Bucket]) *)

Module objstore.

Definition Exists (name : path) : M bool :=
  emit (EvExists name);;
  fallible "exists" (fun w =>
    (Ok (bool_decide (is_Some (bucket w !! name))), w)).

Definition Upload (name : path) (data : string) : M unit :=
  f ← draw;
  match f with
  | Some _ => emit (EvUpload name data false);; throw (EIO "upload")
  | None =>
      emit (EvUpload name data true);;
      bucket_update (fun b => <[name := data]> b)
  end.

(** [objstore.UploadFile]: the bytes of the local file [src] become the
    object [dst]. *)
Definition UploadFile (src dst : path) : M unit :=
  data ← os.ReadFile src;
  Upload dst data.

End objstore.

(** ** Data of the package *)

(** [encoding/json] for a Go type: all the development needs is that
    decoding gives back what was encoded. *)
Class JSON (A : Type) := {
  marshal : A -> string;
  unmarshal : string -> option A;
  unmarshal_marshal : forall a, unmarshal (marshal a) = Some a
}.

(** [Meta]: the thanos.shipper.json file. *)
Record Meta := mkMeta {
  Version : Z;
  Uploaded : list ULID
}.

(** [block.Meta], the fields the shipper reads or writes. *)
Record BlockMeta := mkBlockMeta {
  BlockULID : ULID;
  MinTime : Z;
  MaxTime : Z;
  Compaction_Level : Z;
  Thanos_Labels : gmap string string;
  Thanos_Source : string
}.

Record Shipper := mkShipper {
  dir : path;
  labels : unit -> option (list (string * string));
  source : string
}.

Definition MaxInt64 : Z := 9223372036854775807.
Definition MinInt64 : Z := -9223372036854775808.


(** [MetaFilename] *)
Definition MetaFilename : string := "thanos.shipper.json".

(** [for _, x := range l { if err := f(x); err != nil { return err } }] *)
Fixpoint forM_ {A} (l : list A) (f : A -> M unit) : M unit :=
  match l with
  | [] => mret tt
  | x :: l' => f x;; forM_ l' f
  end.

Section Shipper.

Context `{!JSON Meta, !JSON BlockMeta}.

(** Package [block] is not part of the sources at hand: its name test and
    its three file names are parameters of the development. *)
Variable IsBlockDir : string -> bool.
Variable block_MetaFilename : string.
Variable block_ChunksDirname : string.
Variable block_IndexFilename : string.

(** *** The bookkeeping file *)

Definition renameFile (from to : path) : M unit :=
  os.RemoveAll to;;
  os.Rename from to;;
  (* Directory was renamed; sync parent dir to persist rename. *)
  pdir ← fileutil.OpenDir (filepath_Dir to);
  r ← try (fileutil.Fsync pdir);
  match r with
  | Err e => CloseWithLogOnErr pdir "rename file dir close";; throw e
  | Ok _ => os.Close pdir
  end.

(** [WriteMetaFile] writes the given meta into <dir>/thanos.shipper.json. *)
Definition WriteMetaFile (d : path) (meta : Meta) : M unit :=
  let path := d ++ [MetaFilename] in
  let tmp := d ++ [MetaFilename +:+ ".tmp"] in
  f ← os.Create tmp;
  r ← try (os.Write f (marshal meta));
  match r with
  | Err e => CloseWithLogOnErr f "write meta file close";; throw e
  | Ok _ =>
      os.Close f;;
      renameFile tmp path
  end.

(** [ReadMetaFile] reads the given meta from <dir>/thanos.shipper.json. *)
Definition ReadMetaFile (d : path) : M Meta :=
  b ← os.ReadFile (d ++ [MetaFilename]);
  match unmarshal b with
  | None => throw ESyntax
  | Some m =>
      if bool_decide (Version m ≠ 1) then throw (EVersion (Version m))
      else mret m
  end.

(** *** Package [block] *)

(** Modelled from the spec: [block.ReadMetaFile], which loads the manifest
    of the block directory [d] and fails when it is missing or corrupt
    (spec 4.3). *)
Definition block_ReadMetaFile (d : path) : M BlockMeta :=
  b ← os.ReadFile (d ++ [block_MetaFilename]);
  match unmarshal b with
  | None => throw ESyntax
  | Some m => mret m
  end.

(** Modelled from the spec: [block.WriteMetaFile], which overwrites the
    manifest in directory [d] with the atomic writer (spec 4.4 step 5,
    spec 4.1). *)
Definition block_WriteMetaFile (d : path) (meta : BlockMeta) : M unit :=
  let path := d ++ [block_MetaFilename] in
  let tmp := d ++ [block_MetaFilename +:+ ".tmp"] in
  f ← os.Create tmp;
  r ← try (os.Write f (marshal meta));
  match r with
  | Err e => CloseWithLogOnErr f "write meta file close";; throw e
  | Ok _ =>
      os.Close f;;
      renameFile tmp path
  end.

(** Modelled from the spec: [block.Upload], which transfers every file of
    the staged block directory [bdir] to the bucket under the block ID,
    the manifest last (spec 4.4 step 6). The directory has the layout of
    spec 6: segment files in the data subdirectory, an index file, a
    manifest; its name is the block ID. *)
Definition block_Upload (bdir : path) : M unit :=
  let id := List.last bdir "" in
  chunks ← wrap "read chunks" (fileutil.ReadDir (bdir ++ [block_ChunksDirname]));
  wrap "upload chunks"
    (forM_ chunks (fun fn =>
       objstore.UploadFile (bdir ++ [block_ChunksDirname; fn])
                           [id; block_ChunksDirname; fn]));;
  wrap "upload index"
    (objstore.UploadFile (bdir ++ [block_IndexFilename]) [id; block_IndexFilename]);;
  wrap "upload meta file"
    (objstore.UploadFile (bdir ++ [block_MetaFilename]) [id; block_MetaFilename]).

(** *** Scanning the local blocks *)

(** The body of the loop of [iterBlockMetas] up to the call of [f]:
    [None] stands for [continue]. *)
Definition loadBlock (d : path) (n : string) : M (option BlockMeta) :=
  if negb (IsBlockDir n) then mret None
  else
    let bdir := d ++ [n] in
    fi ← try (os.Stat bdir);
    match fi with
    | Err e => log LvWarn "open file failed" None (Some e);; mret None
    | Ok isdir =>
        if negb isdir then mret None
        else
          m ← try (block_ReadMetaFile bdir);
          match m with
          | Err e => log LvWarn "reading meta file failed" None (Some e);; mret None
          | Ok m => mret (Some m)
          end
    end.

(** The loop of [iterBlockMetas]; [st] holds the variables the closure [f]
    captures and assigns. *)
Fixpoint iterNames {S} (d : path) (f : BlockMeta -> S -> M S)
    (names : list string) (st : S) : M S :=
  match names with
  | [] => mret st
  | n :: names' =>
      m ← loadBlock d n;
      match m with
      | None => iterNames d f names' st
      | Some m => st' ← f m st; iterNames d f names' st'
      end
  end.

(** [iterBlockMetas] calls f with the block meta for each block found in
    dir. It logs an error and continues if it cannot access a meta.json
    file. If f returns an error, the function returns with the same
    error. *)
Definition iterBlockMetas {S} (s : Shipper) (f : BlockMeta -> S -> M S)
    (st : S) : M S :=
  names ← wrap "read dir" (fileutil.ReadDir (dir s));
  iterNames (dir s) f names st.

(** *** Shipping one block *)

Definition hardlinkBlock (src dst : path) : M unit :=
  let chunkDir := dst ++ [block_ChunksDirname] in
  wrap "create chunks dir" (os.MkdirAll chunkDir);;
  files ← wrap "read chunk dir" (fileutil.ReadDir (src ++ [block_ChunksDirname]));
  let files := map (fun fn => [block_ChunksDirname; fn]) files in
  let files := files ++ [[block_MetaFilename]; [block_IndexFilename]] in
  forM_ files (fun fn =>
    wrap "hard link file" (os.Link (src ++ fn) (dst ++ fn))).

Definition updir_of (s : Shipper) (meta : BlockMeta) : path :=
  dir s ++ ["thanos"; "upload"; ULID_String (BlockULID meta)].

Definition sync (s : Shipper) (meta : BlockMeta) : M unit :=
  let bdir := dir s ++ [ULID_String (BlockULID meta)] in
  (* We only ship of the first compacted block level. *)
  if 1 <? Compaction_Level meta then mret tt
  else
    (* Check against bucket if the meta file for this block exists. *)
    ok ← wrap "check exists"
           (objstore.Exists [ULID_String (BlockULID meta); block_MetaFilename]);
    if (ok : bool) then mret tt
    else
      log LvInfo "upload new block" (Some (BlockULID meta)) None;;
      let updir := updir_of s meta in
      (* Remove updir just in case. *)
      wrap "clean upload directory" (os.RemoveAll updir);;
      wrap "create upload dir" (os.MkdirAll updir);;
      defer
        (r ← try (os.RemoveAll updir);
         match r with
         | Err e => log LvError "failed to clean upload directory" None (Some e)
         | Ok _ => mret tt
         end)
        (wrap "hard link block" (hardlinkBlock bdir updir);;
         (* Attach current labels and write a new meta file with Thanos extensions. *)
         let lbls := match labels s tt with
                     | Some lset => list_to_map lset
                     | None => Thanos_Labels meta
                     end in
         let meta' := mkBlockMeta (BlockULID meta) (MinTime meta) (MaxTime meta)
                        (Compaction_Level meta) lbls (source s) in
         wrap "write meta file" (block_WriteMetaFile updir meta');;
         block_Upload updir).

(** *** One synchronisation pass *)

(** The closure [Sync] hands to [iterBlockMetas]; [uploaded] is
    [meta.Uploaded], which it appends to. *)
Definition Sync_visit (s : Shipper) (hasUploaded : gset ULID)
    (m : BlockMeta) (uploaded : list ULID) : M (list ULID) :=
  (* Do not sync a block if we already uploaded it. *)
  if bool_decide (BlockULID m ∈ hasUploaded) then
    mret (uploaded ++ [BlockULID m])
  else
    r ← try (sync s m);
    match r with
    | Err e =>
        log LvError "shipping failed" (Some (BlockULID m)) (Some e);;
        (* No error returned, just log line. *)
        mret uploaded
    | Ok _ => mret (uploaded ++ [BlockULID m])
    end.

(** [Sync] from the point where [meta] is settled. *)
Definition Sync_pass (s : Shipper) (meta : Meta) : M unit :=
  (* Build a map of blocks we already uploaded. *)
  let hasUploaded : gset ULID := list_to_set (Uploaded meta) in
  (* Reset the uploaded slice so we can rebuild it only with blocks that
     still exist locally. *)
  r ← try (iterBlockMetas s (Sync_visit s hasUploaded) []);
  match r with
  | Err e => log LvError "iter block metas failed" None (Some e)
  | Ok uploaded =>
      r ← try (WriteMetaFile (dir s) (mkMeta (Version meta) uploaded));
      match r with
      | Err e => log LvWarn "updating meta file failed" None (Some e)
      | Ok _ => mret tt
      end
  end.

(** [Sync] performs a single synchronization, which ensures all local
    blocks have been uploaded to the object bucket once. *)
Definition Sync (s : Shipper) : M unit :=
  r ← try (ReadMetaFile (dir s));
  match r with
  | Err e =>
      (* If we encounter any error, proceed with an empty meta file and
         overwrite it later. *)
      (if negb (os_IsNotExist e)
       then log LvWarn "reading meta file failed, removing it" None (Some e)
       else mret tt);;
      Sync_pass s (mkMeta 1 [])
  | Ok meta => Sync_pass s meta
  end.

(** *** Timestamps *)

(** The closure [Timestamps] hands to [iterBlockMetas]; the state is
    [(minTime, maxSyncTime)]. *)
Definition Timestamps_visit (hasUploaded : gset ULID) (m : BlockMeta)
    (st : Z * Z) : M (Z * Z) :=
  let '(minTime, maxSyncTime) := st in
  let minTime := if MinTime m <? minTime then MinTime m else minTime in
  let maxSyncTime :=
    if bool_decide (BlockULID m ∈ hasUploaded) && (maxSyncTime <? MaxTime m)
    then MaxTime m else maxSyncTime in
  mret (minTime, maxSyncTime).

(** [Timestamps] returns the minimum timestamp for which data is available
    and the highest timestamp of blocks that were successfully uploaded.
    The result is the Go triple [(minTime, maxSyncTime, err)]. *)
Definition Timestamps (s : Shipper) : World -> (Z * Z * option error) * World :=
  fun w =>
  match ReadMetaFile (dir s) w with
  | (Err e, w1) => ((0, 0, Some (Wrap "read shipper meta file" e)), w1)
  | (Ok meta, w1) =>
      (* Build a map of blocks we already uploaded. *)
      let hasUploaded : gset ULID := list_to_set (Uploaded meta) in
      match iterBlockMetas s (Timestamps_visit hasUploaded) (MaxInt64, MinInt64) w1 with
      | (Err e, w2) => ((0, 0, Some (Wrap "iter Block metas for timestamp" e)), w2)
      | (Ok (minTime, maxSyncTime), w2) =>
          (* No block yet found. We cannot assume any min block size so
             propagate 0 minTime. *)
          let minTime := if minTime =? MaxInt64 then 0 else minTime in
          ((minTime, maxSyncTime, None), w2)
      end
  end.

End Shipper.

(** * Properties of the file-system model *)

Section EntryFacts.

Implicit Types (k c : string) (v : node) (es : list (string * node)).

Lemma assoc_entry_del k c es :
  assoc c (entry_del k es) = if String.eqb c k then None else assoc c es.
Proof.
  induction es as [|[k' v'] es IH]; simpl.
  - by destruct (String.eqb c k).
  - destruct (String.eqb k k') eqn:Ek.
    + apply String.eqb_eq in Ek. subst k'. rewrite IH.
      by destruct (String.eqb c k).
    + simpl. rewrite IH. destruct (String.eqb c k') eqn:Ec; [|done].
      apply String.eqb_eq in Ec. subst k'.
      by rewrite String.eqb_sym, Ek.
Qed.

Lemma assoc_entry_put k v c es :
  assoc c (entry_put k v es) = if String.eqb c k then Some v else assoc c es.
Proof.
  induction es as [|[k' v'] es IH]; simpl.
  - done.
  - destruct (String.eqb k k') eqn:Ek.
    + apply String.eqb_eq in Ek. subst k'. simpl.
      destruct (String.eqb c k) eqn:Ec; [done|].
      by rewrite assoc_entry_del, Ec.
    + destruct (String.ltb k k'); simpl.
      * destruct (String.eqb c k) eqn:Ec; [done|].
        by rewrite assoc_entry_del, Ec.
      * rewrite IH. destruct (String.eqb c k') eqn:Ec; [|done].
        apply String.eqb_eq in Ec. subst k'.
        by rewrite String.eqb_sym, Ek.
Qed.

Lemma assoc_entry_set k x c es :
  assoc c (entry_set k x es) = if String.eqb c k then x else assoc c es.
Proof. destruct x; simpl; [apply assoc_entry_put | apply assoc_entry_del]. Qed.

Lemma assoc_Some_names c es v : assoc c es = Some v -> c ∈ map fst es.
Proof.
  induction es as [|[k' v'] es IH]; simpl; [done|].
  destruct (String.eqb c k') eqn:Ec.
  - apply String.eqb_eq in Ec. subst. intros _. apply list_elem_of_here.
  - intros H. apply list_elem_of_further. auto.
Qed.

(** Entries under other names keep their place in the listing. *)
Lemma names_entry_del (keep : string -> bool) k es :
  keep k = false ->
  filter (fun c => keep c = true) (map fst (entry_del k es))
  = filter (fun c => keep c = true) (map fst es).
Proof.
  intros Hk. induction es as [|[k' v'] es IH]; simpl; [done|].
  destruct (String.eqb k k') eqn:Ek.
  - apply String.eqb_eq in Ek. subst k'.
    rewrite filter_cons_False by (rewrite Hk; discriminate). done.
  - simpl. rewrite !filter_cons. rewrite IH. done.
Qed.

Lemma names_entry_put (keep : string -> bool) k v es :
  keep k = false ->
  filter (fun c => keep c = true) (map fst (entry_put k v es))
  = filter (fun c => keep c = true) (map fst es).
Proof.
  intros Hk. induction es as [|[k' v'] es IH]; simpl.
  - rewrite filter_cons_False by (rewrite Hk; discriminate). done.
  - destruct (String.eqb k k') eqn:Ek.
    + apply String.eqb_eq in Ek. subst k'. simpl.
      rewrite !filter_cons_False by (rewrite Hk; discriminate).
      by apply names_entry_del.
    + destruct (String.ltb k k'); simpl.
      * rewrite filter_cons_False by (rewrite Hk; discriminate).
        rewrite !filter_cons. by rewrite names_entry_del.
      * rewrite !filter_cons. by rewrite IH.
Qed.

Lemma names_entry_set (keep : string -> bool) k x es :
  keep k = false ->
  filter (fun c => keep c = true) (map fst (entry_set k x es))
  = filter (fun c => keep c = true) (map fst es).
Proof. destruct x; simpl; [apply names_entry_put | apply names_entry_del]. Qed.

End EntryFacts.

Section TreeFacts.

Implicit Types (p q d : path) (n : node).

Lemma lookup_path_app p q n :
  lookup_path (p ++ q) n =
  match lookup_path p n with
  | Some n' => lookup_path q n'
  | None => None
  end.
Proof.
  revert n. induction p as [|c p IH]; intros n; simpl; [done|].
  destruct n as [|es]; [done|]. destruct (assoc c es); [apply IH | done].
Qed.

Lemma lookup_path_snoc d c n :
  lookup_path (d ++ [c]) n =
  match lookup_path d n with
  | Some (Dir es) => assoc c es
  | _ => None
  end.
Proof.
  rewrite lookup_path_app. destruct (lookup_path d n) as [[|es]|]; simpl; try done.
  by destruct (assoc c es).
Qed.

Lemma modify_last pol f c n :
  modify pol f [c] n =
  match n with
  | File _ => match pol with MSkip => Ok n | _ => Err ENOTDIR end
  | Dir es =>
      match f (assoc c es) with
      | Ok x => Ok (Dir (entry_set c x es))
      | Err e => Err e
      end
  end.
Proof. done. Qed.

Lemma modify_cons pol f c p n :
  p <> [] ->
  modify pol f (c :: p) n =
  match n with
  | File _ => match pol with MSkip => Ok n | _ => Err ENOTDIR end
  | Dir es =>
      match assoc c es with
      | Some ch =>
          match modify pol f p ch with
          | Ok ch' => Ok (Dir (entry_put c ch' es))
          | Err e => Err e
          end
      | None =>
          match pol with
          | MFail => Err ENOENT
          | MSkip => Ok n
          | MCreate =>
              match modify pol f p (Dir []) with
              | Ok ch' => Ok (Dir (entry_put c ch' es))
              | Err e => Err e
              end
          end
      end
  end.
Proof. destruct p; [done|]. intros _. done. Qed.

(** The exact effect of an operation whose parent directory exists. *)
Lemma modify_at pol f d c n es :
  lookup_path d n = Some (Dir es) ->
  match f (assoc c es) with
  | Err e => modify pol f (d ++ [c]) n = Err e
  | Ok x => exists n', modify pol f (d ++ [c]) n = Ok n'
                       /\ lookup_path d n' = Some (Dir (entry_set c x es))
  end.
Proof.
  revert n. induction d as [|a d IH]; intros n Hd; simpl in Hd.
  - inversion Hd; subst. simpl. destruct (f (assoc c es)); eauto.
  - destruct n as [|es0]; [done|].
    destruct (assoc a es0) as [ch|] eqn:Ea; [|done].
    specialize (IH ch Hd).
    change ((a :: d) ++ [c]) with (a :: (d ++ [c])).
    rewrite modify_cons by (by destruct d). rewrite Ea.
    destruct (f (assoc c es)) as [x|e].
    + destruct IH as (ch' & -> & Hl). eexists; split; [done|].
      simpl. by rewrite assoc_entry_put, String.eqb_refl.
    + by rewrite IH.
Qed.

(** An operation that does not create directories succeeds only below an
    existing directory. *)
Lemma modify_MFail_parent f d c n n' :
  modify MFail f (d ++ [c]) n = Ok n' ->
  exists es, lookup_path d n = Some (Dir es).
Proof.
  revert n n'. induction d as [|a d IH]; intros n n'.
  - simpl. destruct n; [done|]. eauto.
  - change ((a :: d) ++ [c]) with (a :: (d ++ [c])).
    rewrite modify_cons by (by destruct d).
    destruct n as [|es0]; [done|]. simpl.
    destruct (assoc a es0) as [ch|]; [|done].
    destruct (modify MFail f (d ++ [c]) ch) eqn:E; [|done]. eauto.
Qed.

(** What lies in directory [d] under the names [keep] holds is out of
    reach of an operation on a path that leaves [d] by another name. *)
Definition same_under (d : path) (keep : string -> bool) (n n' : node) : Prop :=
  forall es, lookup_path d n = Some (Dir es) ->
    exists es', lookup_path d n' = Some (Dir es')
      /\ filter (fun c => keep c = true) (map fst es')
         = filter (fun c => keep c = true) (map fst es)
      /\ forall c, keep c = true -> assoc c es' = assoc c es.

Lemma same_under_refl d keep n : same_under d keep n n.
Proof. intros es H. eauto. Qed.

Lemma same_under_trans d keep n1 n2 n3 :
  same_under d keep n1 n2 -> same_under d keep n2 n3 -> same_under d keep n1 n3.
Proof.
  intros H12 H23 es H1.
  destruct (H12 _ H1) as (es2 & H2 & Hn2 & Ha2).
  destruct (H23 _ H2) as (es3 & H3 & Hn3 & Ha3).
  exists es3. split; [done|]. split; [congruence|].
  intros c Hc. rewrite Ha3, Ha2; done.
Qed.

Lemma modify_same_under pol f d c rest keep n n' :
  keep c = false ->
  modify pol f (d ++ c :: rest) n = Ok n' ->
  same_under d keep n n'.
Proof.
  intros Hk. revert n n'. induction d as [|a d IH]; intros n n' Hm es Hd.
  - simpl in Hd. inversion Hd; subst n. clear Hd. simpl app in Hm.
    assert (Hput : forall v, exists es',
               lookup_path [] (Dir (entry_put c v es)) = Some (Dir es')
               /\ filter (fun c => keep c = true) (map fst es')
                  = filter (fun c => keep c = true) (map fst es)
               /\ forall c', keep c' = true -> assoc c' es' = assoc c' es).
    { intros v. eexists. split; [done|]. split; [by apply names_entry_put|].
      intros c' Hc'. rewrite assoc_entry_put.
      destruct (String.eqb c' c) eqn:E; [|done].
      apply String.eqb_eq in E. congruence. }
    destruct rest as [|b rest].
    + rewrite modify_last in Hm.
      destruct (f (assoc c es)) as [x|]; [|done]. inversion Hm; subst n'.
      eexists. split; [done|]. split; [by apply names_entry_set|].
      intros c' Hc'. rewrite assoc_entry_set.
      destruct (String.eqb c' c) eqn:E; [|done].
      apply String.eqb_eq in E. congruence.
    + rewrite modify_cons in Hm by done.
      destruct (assoc c es) as [ch|].
      * destruct (modify pol f (b :: rest) ch); [|done].
        inversion Hm; subst n'. apply Hput.
      * destruct pol; [done| |].
        -- destruct (modify MCreate f (b :: rest) (Dir [])); [|done].
           inversion Hm; subst n'. apply Hput.
        -- inversion Hm; subst n'. eauto.
  - simpl in Hd. destruct n as [|es0]; [done|].
    destruct (assoc a es0) as [ch|] eqn:Ea; [|done].
    change ((a :: d) ++ c :: rest) with (a :: (d ++ c :: rest)) in Hm.
    rewrite modify_cons in Hm by (by destruct d). rewrite Ea in Hm.
    destruct (modify pol f (d ++ c :: rest) ch) as [ch'|] eqn:Em; [|done].
    inversion Hm; subst n'.
    destruct (IH _ _ Em _ Hd) as (es' & Hl & Hn & Ha).
    exists es'. split; [|done].
    simpl. by rewrite assoc_entry_put, String.eqb_refl.
Qed.

Lemma modify_create_lookup x p n n' :
  modify MFail (create x) p n = Ok n' -> lookup_path p n' = Some x.
Proof.
  revert n n'. induction p as [|c p IH]; intros n n' Hm; [done|].
  destruct p as [|c2 p].
  - rewrite modify_last in Hm. destruct n as [|es]; [done|].
    destruct (assoc c es); simpl in Hm; [done|]. inversion Hm; subst.
    simpl. by rewrite assoc_entry_put, String.eqb_refl.
  - rewrite modify_cons in Hm by done. destruct n as [|es]; [done|].
    destruct (assoc c es) as [ch|]; [|done].
    destruct (modify MFail (create x) (c2 :: p) ch) as [ch'|] eqn:E; [|done].
    inversion Hm; subst. simpl lookup_path at 1.
    rewrite assoc_entry_put, String.eqb_refl. by apply IH in E.
Qed.

Lemma modify_create_preserves x p n n' q :
  modify MFail (create x) p n = Ok n' ->
  is_Some (lookup_path q n) -> is_Some (lookup_path q n').
Proof.
  revert n n' q. induction p as [|c p IH]; intros n n' q Hm Hq; [done|].
  destruct q as [|c' q]; [by eexists|].
  destruct n as [|es]; [by destruct Hq|]. simpl in Hq.
  destruct p as [|c2 p].
  - rewrite modify_last in Hm.
    destruct (assoc c es) eqn:Ec; simpl in Hm; [done|]. inversion Hm; subst.
    simpl. rewrite assoc_entry_put.
    destruct (String.eqb c' c) eqn:E; [|done].
    apply String.eqb_eq in E. subst c'. rewrite Ec in Hq. by destruct Hq.
  - rewrite modify_cons in Hm by done.
    destruct (assoc c es) as [ch|] eqn:Ec; [|done].
    destruct (modify MFail (create x) (c2 :: p) ch) as [ch'|] eqn:E; [|done].
    inversion Hm; subst. simpl. rewrite assoc_entry_put.
    destruct (String.eqb c' c) eqn:E'; [|done].
    apply String.eqb_eq in E'. subst c'. rewrite Ec in Hq. by eapply IH.
Qed.

Lemma same_under_lookup d keep n n' c q x :
  same_under d keep n n' -> keep c = true ->
  lookup_path (d ++ c :: q) n = Some x ->
  lookup_path (d ++ c :: q) n' = Some x.
Proof.
  intros Hs Hk. rewrite !lookup_path_app.
  destruct (lookup_path d n) as [[|es]|] eqn:E; try done.
  destruct (Hs es E) as (es' & -> & _ & Ha). simpl. by rewrite Ha.
Qed.

End TreeFacts.

(** * Footprints

    [run R c]: every run of [c] takes a world to one that [R] relates to
    it. For a reflexive and transitive [R] this follows from what [R] has
    to say about the four ways a world changes. *)

Section Run.

Variable R : World -> World -> Prop.
Context `{!PreOrder R}.

Definition run {A} (c : M A) : Prop := forall w, R w (c w).2.

Definition ok_faults : Prop :=
  forall w f fs, faults w = f :: fs -> R w (set_faults fs w).
Definition ok_event (e : Event) : Prop :=
  forall w, R w (set_events (events w ++ [e]) w).
Definition ok_path (p : path) : Prop :=
  forall w pol f n, modify pol f p (root w) = Ok n -> R w (set_root n w).
Definition ok_bucket : Prop :=
  forall w b, R w (set_bucket b w).

Lemma run_ret {A} (a : A) : run (mret a).
Proof. intros w. simpl. reflexivity. Qed.

Lemma run_throw {A} e : run (@throw A e).
Proof. intros w. simpl. reflexivity. Qed.

Lemma run_bind {A B} (c : M A) (k : A -> M B) :
  run c -> (forall a, run (k a)) -> run (c ≫= k).
Proof.
  intros Hc Hk w. unfold mbind, M_bind. specialize (Hc w).
  destruct (c w) as [[a|e] w']; simpl in *; [|done].
  etransitivity; [done|]. apply Hk.
Qed.

Lemma run_try {A} (c : M A) : run c -> run (try c).
Proof. intros Hc w. unfold try. specialize (Hc w). by destruct (c w). Qed.

Lemma run_wrap {A} msg (c : M A) : run c -> run (wrap msg c).
Proof.
  intros Hc w. unfold wrap. specialize (Hc w). by destruct (c w) as [[|] ?].
Qed.

Lemma run_defer {A} (cl : M unit) (c : M A) : run cl -> run c -> run (defer cl c).
Proof.
  intros Hcl Hc w. unfold defer. specialize (Hc w).
  destruct (c w) as [r w']. specialize (Hcl w'). destruct (cl w') as [? w''].
  simpl in *. by etransitivity.
Qed.

Lemma run_emit e : ok_event e -> run (emit e).
Proof. intros He w. apply He. Qed.

Lemma run_log lvl msg b e : ok_event (EvLog lvl msg b e) -> run (log lvl msg b e).
Proof. apply run_emit. Qed.

Lemma run_draw : ok_faults -> run draw.
Proof.
  intros Hf w. unfold draw. destruct (faults w) eqn:E; simpl; [reflexivity|].
  by eapply Hf.
Qed.

Lemma run_fallible {A} op (c : M A) : ok_faults -> run c -> run (fallible op c).
Proof.
  intros Hf Hc. unfold fallible. apply run_bind; [by apply run_draw|].
  intros [k|]; [apply run_throw | done].
Qed.

Lemma run_pure {A} (g : World -> result A) : run (fun w => (g w, w)).
Proof. intros w. simpl. reflexivity. Qed.

Lemma run_modify pol f p : ok_path p -> run (fs_update (modify pol f p)).
Proof.
  intros Hp w. unfold fs_update.
  destruct (modify pol f p (root w)) eqn:E; simpl; [by eapply Hp | reflexivity].
Qed.

Lemma run_forM_ {A} (l : list A) (f : A -> M unit) :
  (forall x, x ∈ l -> run (f x)) -> run (forM_ l f).
Proof.
  induction l as [|x l IH]; intros H; simpl; [apply run_ret|].
  apply run_bind; [apply H, list_elem_of_here|].
  intros _. apply IH. intros y Hy. apply H. by apply list_elem_of_further.
Qed.

(** The calls on the operating system. *)

Hypothesis Hf : ok_faults.

Lemma run_ReadFile p : run (os.ReadFile p).
Proof.
  apply run_fallible; [done|]. intros w. simpl.
  destruct (lookup_path p (root w)) as [[|]|]; reflexivity.
Qed.

Lemma run_Stat p : run (os.Stat p).
Proof.
  apply run_fallible; [done|]. intros w. simpl.
  destruct (lookup_path p (root w)); reflexivity.
Qed.

Lemma run_ReadDir p : run (fileutil.ReadDir p).
Proof.
  apply run_fallible; [done|]. intros w. simpl.
  destruct (lookup_path p (root w)) as [[|]|]; reflexivity.
Qed.

Lemma run_OpenDir p : run (fileutil.OpenDir p).
Proof.
  apply run_fallible; [done|]. intros w. simpl.
  destruct (lookup_path p (root w)) as [[|]|]; reflexivity.
Qed.

Lemma run_Fsync p : run (fileutil.Fsync p).
Proof. apply run_fallible; [done|]. apply run_ret. Qed.

Lemma run_Close p : run (os.Close p).
Proof. apply run_fallible; [done|]. apply run_ret. Qed.

Lemma run_Create p : ok_path p -> run (os.Create p).
Proof.
  intros Hp. apply run_fallible; [done|].
  apply run_bind; [by apply run_modify | intros; apply run_ret].
Qed.

Lemma run_Write p data : ok_path p -> run (os.Write p data).
Proof.
  intros Hp. unfold os.Write. apply run_bind; [by apply run_draw|].
  intros [k|]; [|by apply run_modify].
  apply run_bind; [by apply run_modify | intros; apply run_throw].
Qed.

Lemma run_RemoveAll p : ok_path p -> run (os.RemoveAll p).
Proof. intros Hp. apply run_fallible; [done|]. by apply run_modify. Qed.

Lemma run_MkdirAll p : ok_path p -> run (os.MkdirAll p).
Proof.
  intros Hp. apply run_fallible; [done|].
  destruct p; [apply run_ret | by apply run_modify].
Qed.

Lemma run_Link src dst : ok_path dst -> run (os.Link src dst).
Proof.
  intros Hp. apply run_fallible; [done|].
  apply run_bind; [apply (run_pure (fun w => Ok (root w)))|].
  intros r. destruct (lookup_path src r) as [[|]|]; try apply run_throw.
  by apply run_modify.
Qed.

Lemma run_Rename from to : ok_path from -> ok_path to -> run (os.Rename from to).
Proof.
  intros Hfrom Hto. apply run_fallible; [done|].
  apply run_bind; [apply (run_pure (fun w => Ok (root w)))|].
  intros r. destruct (lookup_path from r) as [x|]; [|apply run_throw].
  intros w. unfold fs_update.
  destruct (modify MFail _ from (root w)) as [r'|] eqn:E1; simpl; [|reflexivity].
  match goal with |- context [modify MFail ?g to r'] =>
    destruct (modify MFail g to r') as [r''|] eqn:E2 end; simpl; [|reflexivity].
  transitivity (set_root r' w); [by eapply Hfrom|].
  apply (Hto (set_root r' w) _ _ _ E2).
Qed.

Hypothesis Hlog : forall lvl msg b e, ok_event (EvLog lvl msg b e).

Lemma run_CloseWithLogOnErr f msg : run (CloseWithLogOnErr f msg).
Proof.
  unfold CloseWithLogOnErr. apply run_bind; [apply run_try, run_Close|].
  intros [|]; [apply run_ret | by apply run_log].
Qed.

(** The calls on the bucket. *)

Lemma run_Exists name : ok_event (EvExists name) -> run (objstore.Exists name).
Proof.
  intros He. unfold objstore.Exists.
  apply run_bind; [by apply run_emit|]. intros _.
  apply run_fallible; [done|]. apply (run_pure (fun w => Ok _)).
Qed.

Lemma run_Upload name data :
  (forall ok, ok_event (EvUpload name data ok)) -> ok_bucket ->
  run (objstore.Upload name data).
Proof.
  intros He Hb. unfold objstore.Upload.
  apply run_bind; [by apply run_draw|].
  intros [k|].
  - apply run_bind; [by apply run_emit | intros; apply run_throw].
  - apply run_bind; [by apply run_emit|]. intros _ w. apply Hb.
Qed.

Lemma run_UploadFile src name :
  (forall data ok, ok_event (EvUpload name data ok)) -> ok_bucket ->
  run (objstore.UploadFile src name).
Proof.
  intros He Hb. unfold objstore.UploadFile.
  apply run_bind; [apply run_ReadFile|]. intros data. by apply run_Upload.
Qed.

End Run.

Section RunShipper.

Context `{!JSON Meta, !JSON BlockMeta}.
Variable IsBlockDir : string -> bool.
Variables block_MetaFilename block_ChunksDirname block_IndexFilename : string.

Variable R : World -> World -> Prop.
Context `{!PreOrder R}.
Hypothesis Hf : ok_faults R.
Hypothesis Hlog : forall lvl msg b e, ok_event R (EvLog lvl msg b e).

Lemma run_renameFile from to :
  ok_path R from -> ok_path R to -> run R (renameFile from to).
Proof.
  intros Hfrom Hto. unfold renameFile.
  apply run_bind; [done | by apply run_RemoveAll | intros _].
  apply run_bind; [done | by apply run_Rename | intros _].
  apply run_bind; [done | by apply run_OpenDir | intros pdir].
  apply run_bind; [done | by apply run_try, run_Fsync | intros [|e]].
  - by apply run_Close.
  - apply run_bind; [done | by apply run_CloseWithLogOnErr | intros _].
    by apply run_throw.
Qed.

Lemma run_write_atomic {A} `{!JSON A} (d : path) (name : string) (a : A) :
  ok_path R (d ++ [name]) -> ok_path R (d ++ [name +:+ ".tmp"]) ->
  run R (f ← os.Create (d ++ [name +:+ ".tmp"]);
         r ← try (os.Write f (marshal a));
         match r with
         | Err e => CloseWithLogOnErr f "write meta file close";; throw e
         | Ok _ => os.Close f;; renameFile (d ++ [name +:+ ".tmp"]) (d ++ [name])
         end).
Proof.
  intros Hp Ht.
  intros w. unfold mbind at 1, M_bind at 1.
  pose proof (run_Create R Hf _ Ht w) as HC.
  destruct (os.Create _ w) as [[f|e] w1] eqn:EC; simpl in HC; [|done].
  assert (f = d ++ [name +:+ ".tmp"]) as ->.
  { unfold os.Create, fallible, mbind, M_bind, draw in EC.
    destruct (faults w) as [|[k|] fs]; simpl in EC;
      try (unfold throw in EC; congruence);
      destruct (fs_update _ _) as [[|] ?]; simpl in EC;
      unfold mret, M_ret in EC; congruence. }
  etransitivity; [exact HC|]. revert w1 HC EC. intros w1 _ _. revert w1.
  change (run R (r ← try (os.Write (d ++ [name +:+ ".tmp"]) (marshal a));
         match r with
         | Err e => CloseWithLogOnErr (d ++ [name +:+ ".tmp"]) "write meta file close";; throw e
         | Ok _ => os.Close (d ++ [name +:+ ".tmp"]);;
                   renameFile (d ++ [name +:+ ".tmp"]) (d ++ [name])
         end)).
  apply run_bind; [done | by apply run_try, run_Write | intros [|e]].
  - apply run_bind; [done | by apply run_Close | intros _].
    by apply run_renameFile.
  - apply run_bind; [done | by apply run_CloseWithLogOnErr | intros _].
    by apply run_throw.
Qed.

Lemma run_WriteMetaFile d meta :
  ok_path R (d ++ [MetaFilename]) -> ok_path R (d ++ [MetaFilename +:+ ".tmp"]) ->
  run R (WriteMetaFile d meta).
Proof. apply run_write_atomic. Qed.

Lemma run_block_WriteMetaFile d meta :
  ok_path R (d ++ [block_MetaFilename]) ->
  ok_path R (d ++ [block_MetaFilename +:+ ".tmp"]) ->
  run R (block_WriteMetaFile block_MetaFilename d meta).
Proof. apply run_write_atomic. Qed.

Lemma run_ReadMetaFile d : run R (ReadMetaFile d).
Proof.
  unfold ReadMetaFile. apply run_bind; [done | by apply run_ReadFile | intros b].
  destruct (unmarshal b); [|by apply run_throw].
  destruct (bool_decide _); [by apply run_throw | by apply run_ret].
Qed.

Lemma run_block_ReadMetaFile d : run R (block_ReadMetaFile block_MetaFilename d).
Proof.
  unfold block_ReadMetaFile. apply run_bind; [done | by apply run_ReadFile | intros b].
  destruct (unmarshal b); [by apply run_ret | by apply run_throw].
Qed.

Lemma run_loadBlock d n : run R (loadBlock IsBlockDir block_MetaFilename d n).
Proof.
  unfold loadBlock. destruct (negb (IsBlockDir n)); [by apply run_ret|].
  apply run_bind; [done | by apply run_try, run_Stat | intros [isdir|e]].
  - destruct (negb isdir); [by apply run_ret|].
    apply run_bind; [done | by apply run_try, run_block_ReadMetaFile | intros [m|e]].
    + by apply run_ret.
    + apply run_bind; [done | by apply run_log | intros _]. by apply run_ret.
  - apply run_bind; [done | by apply run_log | intros _]. by apply run_ret.
Qed.

Lemma run_iterNames {S} d (f : BlockMeta -> S -> M S) names st :
  (forall m st, run R (f m st)) ->
  run R (iterNames IsBlockDir block_MetaFilename d f names st).
Proof.
  intros Hfn. revert st. induction names as [|n names IH]; intros st; simpl.
  - by apply run_ret.
  - apply run_bind; [done | by apply run_loadBlock | intros [m|]]; [|apply IH].
    apply run_bind; [done | apply Hfn | intros st']. apply IH.
Qed.

Lemma run_iterBlockMetas {S} s (f : BlockMeta -> S -> M S) st :
  (forall m st, run R (f m st)) ->
  run R (iterBlockMetas IsBlockDir block_MetaFilename s f st).
Proof.
  intros Hfn. unfold iterBlockMetas.
  apply run_bind; [done | by apply run_wrap, run_ReadDir | intros names].
  by apply run_iterNames.
Qed.

Lemma run_hardlinkBlock src dst :
  (forall c rest, ok_path R (dst ++ c :: rest)) ->
  run R (hardlinkBlock block_MetaFilename block_ChunksDirname block_IndexFilename src dst).
Proof.
  intros Hp. unfold hardlinkBlock.
  apply run_bind; [done | by apply run_wrap, run_MkdirAll | intros _].
  apply run_bind; [done | by apply run_wrap, run_ReadDir | intros files].
  apply run_forM_; [done|]. intros fn Hfn. apply run_wrap. apply run_Link; [done|done|].
  apply elem_of_app in Hfn as [Hfn|Hfn].
  - apply list_elem_of_fmap in Hfn as (x & -> & _). apply Hp.
  - apply elem_of_cons in Hfn as [->|Hfn]; [apply Hp|].
    apply list_elem_of_singleton in Hfn as ->. apply Hp.
Qed.

Hypothesis Hev : forall e, ok_event R e.
Hypothesis Hb : ok_bucket R.

Lemma run_block_Upload bdir :
  run R (block_Upload block_MetaFilename block_ChunksDirname block_IndexFilename bdir).
Proof.
  unfold block_Upload.
  apply run_bind; [done | by apply run_wrap, run_ReadDir | intros chunks].
  apply run_bind; [done | | intros _].
  { apply run_wrap, run_forM_; [done|]. intros fn _. by apply run_UploadFile. }
  apply run_bind; [done | by apply run_wrap, run_UploadFile | intros _].
  by apply run_wrap, run_UploadFile.
Qed.

Lemma run_sync s m :
  (forall rest, ok_path R (dir s ++ "thanos" :: rest)) ->
  run R (sync block_MetaFilename block_ChunksDirname block_IndexFilename s m).
Proof.
  intros Hp.
  assert (Hup : forall rest, ok_path R (updir_of s m ++ rest)).
  { intros rest. unfold updir_of. rewrite <- app_assoc. apply Hp. }
  unfold sync. destruct (1 <? Compaction_Level m); [by apply run_ret|].
  apply run_bind; [done | by apply run_wrap, run_Exists | intros [|]];
    [by apply run_ret|].
  apply run_bind; [done | by apply run_log | intros _].
  apply run_bind; [done | | intros _].
  { apply run_wrap, run_RemoveAll; [done|done|]. apply Hp. }
  apply run_bind; [done | | intros _].
  { apply run_wrap, run_MkdirAll; [done|done|]. apply Hp. }
  apply run_defer; [done | |].
  { apply run_bind; [done | | intros [|e]];
      [| by apply run_ret | by apply run_log].
    apply run_try, run_RemoveAll; [done|done|]. apply Hp. }
  apply run_bind; [done | | intros _].
  { apply run_wrap, run_hardlinkBlock. intros c rest. apply Hup. }
  apply run_bind; [done | | intros _].
  { apply run_wrap, run_block_WriteMetaFile; apply Hup. }
  apply run_block_Upload.
Qed.

Lemma run_Sync_visit s hasUploaded m uploaded :
  (forall rest, ok_path R (dir s ++ "thanos" :: rest)) ->
  run R (Sync_visit block_MetaFilename block_ChunksDirname block_IndexFilename
           s hasUploaded m uploaded).
Proof.
  intros Hp. unfold Sync_visit. destruct (bool_decide _); [by apply run_ret|].
  apply run_bind; [done | by apply run_try, run_sync | intros [|e]].
  - by apply run_ret.
  - apply run_bind; [done | by apply run_log | intros _]. by apply run_ret.
Qed.

Lemma run_Sync_pass s meta :
  (forall rest, ok_path R (dir s ++ "thanos" :: rest)) ->
  ok_path R (dir s ++ [MetaFilename]) ->
  ok_path R (dir s ++ [MetaFilename +:+ ".tmp"]) ->
  run R (Sync_pass IsBlockDir block_MetaFilename block_ChunksDirname
           block_IndexFilename s meta).
Proof.
  intros Hp Hm Ht. unfold Sync_pass.
  apply run_bind; [done | | intros [ups|e]].
  - apply run_try, run_iterBlockMetas. intros m st. by apply run_Sync_visit.
  - apply run_bind; [done | by apply run_try, run_WriteMetaFile | intros [|e]].
    + by apply run_ret.
    + by apply run_log.
  - by apply run_log.
Qed.

Lemma run_Sync s :
  (forall rest, ok_path R (dir s ++ "thanos" :: rest)) ->
  ok_path R (dir s ++ [MetaFilename]) ->
  ok_path R (dir s ++ [MetaFilename +:+ ".tmp"]) ->
  run R (Sync IsBlockDir block_MetaFilename block_ChunksDirname
           block_IndexFilename s).
Proof.
  intros Hp Hm Ht. unfold Sync.
  apply run_bind; [done | by apply run_try, run_ReadMetaFile | intros [meta|e]].
  - by apply run_Sync_pass.
  - apply run_bind; [done | | intros _; by apply run_Sync_pass].
    destruct (negb (os_IsNotExist e)); [by apply run_log | by apply run_ret].
Qed.

End RunShipper.

(** ** The footprints used below *)

(** What lies in [d] under the names of [keep] is as before. *)
Definition R_frame (d : path) (keep : string -> bool) (w w' : World) : Prop :=
  same_under d keep (root w) (root w').

(** No failure is scheduled afterwards if none was before. *)
Definition R_quiet (w w' : World) : Prop :=
  faults w = [] -> faults w' = [].

(** The trace grows, by events of kind [Q] only. *)
Definition R_events (Q : Event -> Prop) (w w' : World) : Prop :=
  exists E, events w' = events w ++ E /\ Forall Q E.

Definition R_bucket (w w' : World) : Prop := bucket w' = bucket w.

Definition R_root (w w' : World) : Prop := root w' = root w.

Definition is_log (e : Event) : Prop :=
  match e with EvLog _ _ _ _ => True | _ => False end.

Global Instance R_frame_preorder d keep : PreOrder (R_frame d keep).
Proof.
  split.
  - intros w. apply same_under_refl.
  - intros w1 w2 w3. apply same_under_trans.
Qed.

Global Instance R_quiet_preorder : PreOrder R_quiet.
Proof. split; unfold R_quiet; [by intros w | intros w1 w2 w3; auto]. Qed.

Global Instance R_events_preorder Q : PreOrder (R_events Q).
Proof.
  split.
  - intros w. exists []. by rewrite app_nil_r.
  - intros w1 w2 w3 (E1 & H1 & F1) (E2 & H2 & F2). exists (E1 ++ E2).
    rewrite H2, H1, app_assoc. split; [done|]. by apply Forall_app.
Qed.

Global Instance R_bucket_preorder : PreOrder R_bucket.
Proof. split; unfold R_bucket; [by intros w | intros w1 w2 w3; congruence]. Qed.

Global Instance R_root_preorder : PreOrder R_root.
Proof. split; unfold R_root; [by intros w | intros w1 w2 w3; congruence]. Qed.

Definition R_and (R1 R2 : World -> World -> Prop) (w w' : World) : Prop :=
  R1 w w' /\ R2 w w'.

Global Instance R_and_preorder R1 R2 `{!PreOrder R1, !PreOrder R2} :
  PreOrder (R_and R1 R2).
Proof.
  split.
  - intros w. split; reflexivity.
  - intros w1 w2 w3 [? ?] [? ?]. split; etransitivity; eauto.
Qed.

Lemma and_faults R1 R2 : ok_faults R1 -> ok_faults R2 -> ok_faults (R_and R1 R2).
Proof. intros H1 H2 w f fs E. split; eauto. Qed.
Lemma and_event R1 R2 e : ok_event R1 e -> ok_event R2 e -> ok_event (R_and R1 R2) e.
Proof. intros H1 H2 w. split; eauto. Qed.
Lemma and_path R1 R2 p : ok_path R1 p -> ok_path R2 p -> ok_path (R_and R1 R2) p.
Proof. intros H1 H2 w pol f n E. split; eauto. Qed.

(** Chaining footprints along a program. *)
Lemma step_bind {A B} R `{!PreOrder R} (c : M A) (k : A -> M B) w0 w :
  R w0 w -> R w (c w).2 ->
  (forall a w1, c w = (Ok a, w1) -> R w0 w1 -> R w0 (k a w1).2) ->
  R w0 ((c ≫= k) w).2.
Proof.
  intros H0 Hc Hk. unfold mbind, M_bind.
  destruct (c w) as [[a|e] w1]; simpl in *.
  - apply Hk; [done|]. by etransitivity.
  - by etransitivity.
Qed.

Lemma step_defer {A} R `{!PreOrder R} (cl : M unit) (body : M A) w0 w :
  run R cl -> R w0 (body w).2 -> R w0 (defer cl body w).2.
Proof.
  intros Hcl Hb. unfold defer. destruct (body w) as [r w1].
  specialize (Hcl w1). destruct (cl w1) as [? w2]. simpl in *. by etransitivity.
Qed.

Section FootprintFacts.

Lemma frame_faults d keep : ok_faults (R_frame d keep).
Proof. intros w f fs _. apply same_under_refl. Qed.
Lemma frame_event d keep e : ok_event (R_frame d keep) e.
Proof. intros w. apply same_under_refl. Qed.
Lemma frame_bucket d keep : ok_bucket (R_frame d keep).
Proof. intros w b. apply same_under_refl. Qed.
Lemma frame_path d keep c rest :
  keep c = false -> ok_path (R_frame d keep) (d ++ c :: rest).
Proof. intros Hk w pol f n Hm. by eapply modify_same_under. Qed.

Lemma quiet_faults : ok_faults R_quiet.
Proof. intros w f fs E1 E2. congruence. Qed.
Lemma quiet_event e : ok_event R_quiet e.
Proof. intros w H. exact H. Qed.
Lemma quiet_bucket : ok_bucket R_quiet.
Proof. intros w b H. exact H. Qed.
Lemma quiet_path p : ok_path R_quiet p.
Proof. intros w pol f n _ H. exact H. Qed.

Lemma events_faults Q : ok_faults (R_events Q).
Proof. intros w f fs _. exists []. by rewrite app_nil_r. Qed.
Lemma events_event (Q : Event -> Prop) e : Q e -> ok_event (R_events Q) e.
Proof. intros Hq w. exists [e]. split; [done|]. by constructor. Qed.
Lemma events_bucket Q : ok_bucket (R_events Q).
Proof. intros w b. exists []. by rewrite app_nil_r. Qed.
Lemma events_path Q p : ok_path (R_events Q) p.
Proof. intros w pol f n _. exists []. by rewrite app_nil_r. Qed.

Lemma bucket_faults : ok_faults R_bucket.
Proof. by intros w f fs _. Qed.
Lemma bucket_event e : ok_event R_bucket e.
Proof. by intros w. Qed.
Lemma root_faults : ok_faults R_root.
Proof. by intros w f fs _. Qed.
Lemma root_event e : ok_event R_root e.
Proof. by intros w. Qed.
End FootprintFacts.

(** * The bucket along a trace *)

Section Trace.

(** The bucket after the events [E]: a successful upload writes its object. *)
Definition replay_event (b : gmap path string) (e : Event) : gmap path string :=
  match e with
  | EvUpload name data true => <[name := data]> b
  | _ => b
  end.

Definition replay (E : list Event) (b : gmap path string) : gmap path string :=
  fold_left replay_event E b.

Definition is_upload_of (M : path) (e : Event) : Prop :=
  match e with
  | EvUpload name _ _ => name = M
  | _ => False
  end.

Definition uploaded_ok (o : path) (E : list Event) : Prop :=
  exists data, EvUpload o data true ∈ E.

(** In [E] every upload of the object [M], successful or not, comes after a
    successful upload of each object of [D]. *)
Definition ordered (D : list path) (M : path) (E : list Event) : Prop :=
  forall E1 e E2, E = E1 ++ e :: E2 -> is_upload_of M e ->
    forall o, o ∈ D -> uploaded_ok o E1.

(** The bucket has not [M] without all of [D]. *)
Definition complete (D : list path) (M : path) (b : gmap path string) : Prop :=
  is_Some (b !! M) -> forall o, o ∈ D -> is_Some (b !! o).

Lemma replay_app E1 E2 b : replay (E1 ++ E2) b = replay E2 (replay E1 b).
Proof. apply fold_left_app. Qed.

Lemma replay_mono E b o : is_Some (b !! o) -> is_Some (replay E b !! o).
Proof.
  revert b. induction E as [|e E IH]; intros b H; simpl; [done|].
  apply IH. destruct e as [|name data [|]|]; simpl; try done.
  destruct (decide (name = o)) as [->|Hne].
  - rewrite lookup_insert_eq. eauto.
  - by rewrite lookup_insert_ne.
Qed.

Lemma replay_uploaded_ok E b o : uploaded_ok o E -> is_Some (replay E b !! o).
Proof.
  intros [data Hin]. apply list_elem_of_split in Hin as (E1 & E2 & ->).
  rewrite replay_app. simpl. apply replay_mono. rewrite lookup_insert_eq. eauto.
Qed.

Lemma replay_new E b M :
  is_Some (replay E b !! M) ->
  is_Some (b !! M)
  \/ exists E1 data E2, E = E1 ++ EvUpload M data true :: E2.
Proof.
  revert b. induction E as [|e E IH]; intros b H; simpl in H; [by left|].
  apply IH in H as [H|(E1 & data & E2 & ->)].
  - destruct e as [|name data [|]|]; simpl in H; try (by left).
    destruct (decide (name = M)) as [->|Hne].
    + right. by exists [], data, E.
    + rewrite lookup_insert_ne in H by done. by left.
  - right. by exists (e :: E1), data, E2.
Qed.

Lemma uploaded_ok_app_l o E1 E2 : uploaded_ok o E1 -> uploaded_ok o (E1 ++ E2).
Proof. intros [data H]. exists data. apply elem_of_app. by left. Qed.

Lemma uploaded_ok_app_r o E1 E2 : uploaded_ok o E2 -> uploaded_ok o (E1 ++ E2).
Proof. intros [data H]. exists data. apply elem_of_app. by right. Qed.

Lemma ordered_nil D M : ordered D M [].
Proof. intros E1 e E2 H. by destruct E1. Qed.

Lemma ordered_app D M Ea Eb :
  ordered D M Ea -> ordered D M Eb -> ordered D M (Ea ++ Eb).
Proof.
  intros Ha Hb E1 e E2 Heq He o Ho.
  apply app_eq_inv in Heq as [(k & HEa & Hk)|(k & HE1 & HEb)].
  - destruct k as [|e' k].
    + simpl in Hk. destruct (Hb [] e E2 (eq_sym Hk) He o Ho) as [data Hin].
      by apply elem_of_nil in Hin.
    + inversion Hk; subst. by eapply (Ha E1 e' k).
  - subst E1. apply uploaded_ok_app_r. by eapply (Hb k e E2).
Qed.

Lemma ordered_free D M E :
  (forall e, e ∈ E -> ~ is_upload_of M e) -> ordered D M E.
Proof.
  intros H E1 e E2 -> He. exfalso. apply (H e); [|done].
  apply elem_of_app. right. apply list_elem_of_here.
Qed.

(** The step no footprint covers: once all of [D] is there, anything may
    follow. *)
Lemma ordered_after D M E E' :
  ordered D M E -> (forall o, o ∈ D -> uploaded_ok o E) -> ordered D M (E ++ E').
Proof.
  intros Ho Hall E1 e1 E2 Heq He o Hin.
  apply app_eq_inv in Heq as [(k & HE & Hk)|(k & HE1 & Hk)].
  - destruct k as [|e' k].
    + rewrite app_nil_r in HE. subst E1. auto.
    + inversion Hk; subst. by eapply (Ho E1 e' k).
  - subst E1. apply uploaded_ok_app_l. auto.
Qed.

(** The point of the order: along an ordered trace the bucket stays
    complete. *)
Lemma ordered_complete D M E b :
  ordered D M E -> complete D M b ->
  forall E1 E2, E = E1 ++ E2 -> complete D M (replay E1 b).
Proof.
  intros Ho Hc E1 E2 -> HM o Hin.
  apply replay_new in HM as [HM|(Ea & data & Eb & ->)].
  - apply replay_mono. by apply Hc.
  - rewrite replay_app. apply replay_mono. apply replay_uploaded_ok.
    eapply (Ho Ea (EvUpload M data true) (Eb ++ E2)); [|done|done].
    by rewrite <- app_assoc.
Qed.

End Trace.

(** The trace grows by [E], the bucket is the old one after [E], and [E] is
    ordered. *)
Definition R_ord (D : list path) (M : path) (w w' : World) : Prop :=
  exists E, events w' = events w ++ E
    /\ bucket w' = replay E (bucket w)
    /\ ordered D M E.

Global Instance R_ord_preorder D M : PreOrder (R_ord D M).
Proof.
  split.
  - intros w. exists []. rewrite app_nil_r. split; [done|]. split; [done|].
    apply ordered_nil.
  - intros w1 w2 w3 (E1 & H1 & B1 & O1) (E2 & H2 & B2 & O2). exists (E1 ++ E2).
    rewrite H2, H1, app_assoc. split; [done|].
    rewrite B2, B1, replay_app. split; [done|]. by apply ordered_app.
Qed.

Lemma ord_same D M w w' :
  events w' = events w -> bucket w' = bucket w -> R_ord D M w w'.
Proof.
  intros He Hb. exists []. rewrite app_nil_r. split; [done|]. split; [done|].
  apply ordered_nil.
Qed.

Lemma ord_faults D M : ok_faults (R_ord D M).
Proof. intros w f fs _. by apply ord_same. Qed.
Lemma ord_path D M p : ok_path (R_ord D M) p.
Proof. intros w pol f n _. by apply ord_same. Qed.
Lemma ord_event D M e :
  match e with EvUpload _ _ _ => False | _ => True end -> ok_event (R_ord D M) e.
Proof.
  intros He w. exists [e]. split; [done|]. split; [by destruct e|].
  apply ordered_free. intros e' Hin. apply list_elem_of_singleton in Hin as ->.
  intros Hu. destruct e; simpl in *; done.
Qed.

(** Only the failure schedule moves. *)
Definition R_still (w w' : World) : Prop :=
  events w' = events w /\ bucket w' = bucket w /\ root w' = root w.

Global Instance R_still_preorder : PreOrder R_still.
Proof.
  split; unfold R_still; [by intros w|].
  intros w1 w2 w3 (? & ? & ?) (? & ? & ?). repeat split; congruence.
Qed.

Lemma still_faults : ok_faults R_still.
Proof. by intros w f fs _. Qed.

(** * Running the monad *)

Lemma bind_Ok {A B} (c : M A) (k : A -> M B) w a w' :
  c w = (Ok a, w') -> (c ≫= k) w = k a w'.
Proof. intros H. unfold mbind, M_bind. by rewrite H. Qed.

Lemma bind_Err {A B} (c : M A) (k : A -> M B) w e w' :
  c w = (Err e, w') -> (c ≫= k) w = (Err e, w').
Proof. intros H. unfold mbind, M_bind. by rewrite H. Qed.

Lemma try_run {A} (c : M A) w r w' : c w = (r, w') -> try c w = (Ok r, w').
Proof. intros H. unfold try. by rewrite H. Qed.

Lemma wrap_Ok {A} msg (c : M A) w a w' :
  c w = (Ok a, w') -> wrap msg c w = (Ok a, w').
Proof. intros H. unfold wrap. by rewrite H. Qed.

Lemma wrap_Err {A} msg (c : M A) w e w' :
  c w = (Err e, w') -> wrap msg c w = (Err (Wrap msg e), w').
Proof. intros H. unfold wrap. by rewrite H. Qed.

(** A fallible call with no failure scheduled for it. *)
Definition passes (w : World) : Prop := hd None (faults w) = None.

Definition after_draw (w : World) : World := set_faults (tl (faults w)) w.

Lemma draw_passes w : passes w -> draw w = (Ok None, after_draw w).
Proof.
  unfold passes, draw, after_draw. destruct w as [r b ev [|f fs]]; simpl; [done|].
  by intros ->.
Qed.

Lemma fallible_passes {A} op (c : M A) w :
  passes w -> fallible op c w = c (after_draw w).
Proof. intros H. unfold fallible. by rewrite (bind_Ok _ _ _ _ _ (draw_passes w H)). Qed.

Lemma fallible_fails {A} op (c : M A) w k fs :
  faults w = Some k :: fs -> fallible op c w = (Err (EIO op), set_faults fs w).
Proof.
  intros H. unfold fallible, mbind, M_bind, draw. by rewrite H.
Qed.

(** Reading a successful run backwards. *)

Lemma bind_Ok_inv {A B} (c : M A) (k : A -> M B) w b w' :
  (c ≫= k) w = (Ok b, w') ->
  exists a w1, c w = (Ok a, w1) /\ k a w1 = (Ok b, w').
Proof.
  unfold mbind, M_bind. destruct (c w) as [[a|e] w1]; [eauto | done].
Qed.

Lemma wrap_Ok_inv {A} msg (c : M A) w a w' :
  wrap msg c w = (Ok a, w') -> c w = (Ok a, w').
Proof. unfold wrap. destruct (c w) as [[|] ?]; congruence. Qed.

Lemma fallible_Ok_inv {A} op (c : M A) w a w' :
  fallible op c w = (Ok a, w') -> passes w /\ c (after_draw w) = (Ok a, w').
Proof.
  unfold fallible, mbind, M_bind, draw, passes, after_draw.
  destruct w as [r b ev [|[k|] fs]]; simpl; done.
Qed.

Lemma fs_update_Ok_inv g w u w' :
  fs_update g w = (Ok u, w') -> exists n, g (root w) = Ok n /\ w' = set_root n w.
Proof.
  unfold fs_update. destruct (g (root w)) as [n|]; [|done].
  intros H. inversion H. eauto.
Qed.

(** ** The exact effect of the calls inside one directory

    [w] is a world whose next fallible call goes through and in which the
    directory [d] has the entries [es]. *)

Section CallsAt.

Variables (d : path) (w : World) (es : list (string * node)).
Hypothesis Hpass : passes w.
Hypothesis Hdir : lookup_path d (root w) = Some (Dir es).

Lemma Create_at c :
  match assoc c es with
  | Some (Dir _) => os.Create (d ++ [c]) w = (Err EISDIR, after_draw w)
  | _ => exists n, os.Create (d ++ [c]) w = (Ok (d ++ [c]), set_root n (after_draw w))
                   /\ lookup_path d n = Some (Dir (entry_put c (File "") es))
  end.
Proof.
  unfold os.Create. rewrite fallible_passes by done.
  unfold mbind, M_bind, fs_update. simpl.
  match goal with |- context [modify MFail ?g _ _] =>
    pose proof (modify_at MFail g d c (root w) es Hdir) as H end.
  destruct (assoc c es) as [[|]|]; simpl in H.
  - destruct H as (n & -> & Hl). eauto.
  - by rewrite H.
  - destruct H as (n & -> & Hl). eauto.
Qed.

Lemma Write_at c data :
  exists n, os.Write (d ++ [c]) data w = (Ok tt, set_root n (after_draw w))
            /\ lookup_path d n = Some (Dir (entry_put c (File data) es)).
Proof.
  unfold os.Write. rewrite (bind_Ok _ _ _ _ _ (draw_passes w Hpass)).
  unfold fs_update. simpl.
  match goal with |- context [modify MFail ?g _ _] =>
    pose proof (modify_at MFail g d c (root w) es Hdir) as H end.
  simpl in H. destruct H as (n & -> & Hl). eauto.
Qed.

Lemma RemoveAll_at c :
  exists n, os.RemoveAll (d ++ [c]) w = (Ok tt, set_root n (after_draw w))
            /\ lookup_path d n = Some (Dir (entry_del c es)).
Proof.
  unfold os.RemoveAll. rewrite fallible_passes by done.
  unfold fs_update. simpl.
  match goal with |- context [modify MSkip ?g _ _] =>
    pose proof (modify_at MSkip g d c (root w) es Hdir) as H end.
  simpl in H. destruct H as (n & -> & Hl). eauto.
Qed.

(** A file renamed inside [d], onto a name that is free or a file. *)
Lemma Rename_at a b data :
  assoc a es = Some (File data) ->
  match assoc b (entry_del a es) with Some (Dir _) => False | _ => True end ->
  exists n, os.Rename (d ++ [a]) (d ++ [b]) w = (Ok tt, set_root n (after_draw w))
            /\ lookup_path d n
               = Some (Dir (entry_put b (File data) (entry_del a es))).
Proof.
  intros Ha Hb. unfold os.Rename. rewrite fallible_passes by done.
  unfold mbind, M_bind, get_root. simpl.
  rewrite lookup_path_snoc, Hdir, Ha. unfold fs_update. simpl.
  pose proof (modify_at MFail (fun _ => Ok None) d a (root w) es Hdir) as H1.
  simpl in H1. destruct H1 as (n1 & -> & Hl1).
  match goal with |- context [modify MFail ?g (d ++ [b]) n1] =>
    pose proof (modify_at MFail g d b n1 _ Hl1) as H2 end.
  simpl in H2. destruct (assoc b (entry_del a es)) as [[|]|]; try done;
    destruct H2 as (n2 & -> & Hl2); eauto.
Qed.

Lemma OpenDir_at :
  fileutil.OpenDir d w = (Ok d, after_draw w).
Proof.
  unfold fileutil.OpenDir. rewrite fallible_passes by done. simpl. by rewrite Hdir.
Qed.

Lemma ReadDir_at :
  fileutil.ReadDir d w = (Ok (map fst es), after_draw w).
Proof.
  unfold fileutil.ReadDir. rewrite fallible_passes by done. simpl. by rewrite Hdir.
Qed.

End CallsAt.

Lemma Close_passes f w : passes w -> os.Close f w = (Ok tt, after_draw w).
Proof. intros H. unfold os.Close. by rewrite fallible_passes. Qed.

Lemma Fsync_passes f w : passes w -> fileutil.Fsync f w = (Ok tt, after_draw w).
Proof. intros H. unfold fileutil.Fsync. by rewrite fallible_passes. Qed.

Lemma string_length_app (a b : string) :
  String.length (a +:+ b) = (String.length a + String.length b)%nat.
Proof. induction a as [|c a IH]; simpl; [done | by rewrite IH]. Qed.

Lemma tmp_name_ne (name : string) : String.eqb (name +:+ ".tmp") name = false.
Proof.
  apply String.eqb_neq. intros H. apply (f_equal String.length) in H.
  rewrite string_length_app in H. simpl in H. lia.
Qed.

Lemma name_tmp_ne (name : string) : String.eqb name (name +:+ ".tmp") = false.
Proof. rewrite String.eqb_sym. apply tmp_name_ne. Qed.

Lemma filepath_Dir_snoc (d : path) (c : string) : filepath_Dir (d ++ [c]) = d.
Proof. unfold filepath_Dir. apply removelast_last. Qed.

(** ** The atomic writer

    [WriteMetaFile] and [block.WriteMetaFile] are the same program up to the
    file name and the bytes. *)

Definition write_atomic (d : path) (name data : string) : M unit :=
  f ← os.Create (d ++ [name +:+ ".tmp"]);
  r ← try (os.Write f data);
  match r with
  | Err e => CloseWithLogOnErr f "write meta file close";; throw e
  | Ok _ => os.Close f;; renameFile (d ++ [name +:+ ".tmp"]) (d ++ [name])
  end.

(** The entries of the directory after a successful atomic write. *)
Definition atomic_entries (name data : string) (es : list (string * node)) :=
  let tmp := name +:+ ".tmp" in
  entry_put name (File data)
    (entry_del tmp (entry_del name
       (entry_put tmp (File data) (entry_put tmp (File "") es)))).

Lemma assoc_atomic_entries name data es c :
  assoc c (atomic_entries name data es) =
  if String.eqb c name then Some (File data)
  else if String.eqb c (name +:+ ".tmp") then None
  else assoc c es.
Proof.
  unfold atomic_entries. rewrite assoc_entry_put.
  destruct (String.eqb c name) eqn:E1; [done|].
  rewrite assoc_entry_del. destruct (String.eqb c (name +:+ ".tmp")) eqn:E2; [done|].
  by rewrite assoc_entry_del, E1, !assoc_entry_put, E2.
Qed.

Lemma Create_Ok_inv d c w f w1 :
  os.Create (d ++ [c]) w = (Ok f, w1) ->
  passes w /\ exists es, lookup_path d (root w) = Some (Dir es).
Proof.
  unfold os.Create. intros H. apply fallible_Ok_inv in H as [Hp H].
  split; [done|]. apply bind_Ok_inv in H as (u & w2 & H & _).
  apply fs_update_Ok_inv in H as (n & H & _). by eapply modify_MFail_parent.
Qed.

Lemma Write_Ok_inv p data w u w1 : os.Write p data w = (Ok u, w1) -> passes w.
Proof.
  unfold os.Write, mbind, M_bind, draw, passes.
  destruct (faults w) as [|[k|] fs]; simpl; try done.
  by destruct (fs_update _ _) as [[|] ?].
Qed.

Lemma passes_quiet w : faults w = [] -> passes w.
Proof. unfold passes. by intros ->. Qed.

Lemma after_draw_quiet w : faults w = [] -> after_draw w = w.
Proof. unfold after_draw. destruct w as [r b ev fs]. simpl. by intros ->. Qed.

Lemma write_atomic_Ok_inv d name data w w' :
  write_atomic d name data w = (Ok tt, w') ->
  exists es, lookup_path d (root w) = Some (Dir es)
    /\ lookup_path d (root w') = Some (Dir (atomic_entries name data es)).
Proof.
  intros H. unfold write_atomic in H.
  apply bind_Ok_inv in H as (f & w1 & HC & H).
  destruct (Create_Ok_inv _ _ _ _ _ HC) as (Hp & es & Hd). exists es. split; [done|].
  pose proof (Create_at d w es Hp Hd (name +:+ ".tmp")) as HCa.
  destruct (assoc (name +:+ ".tmp") es) as [[|]|] eqn:Ea;
    try (rewrite HCa in HC; discriminate);
    destruct HCa as (n1 & HCa & Hl1); rewrite HCa in HC; inversion HC; subst f w1;
    clear HC HCa.
  all: apply bind_Ok_inv in H as (r & w2 & HW & H); unfold try in HW;
    destruct (os.Write _ data _) as [rw ww] eqn:EW; inversion HW; subst r w2; clear HW;
    destruct rw as [[]|e];
    [| apply bind_Ok_inv in H as (? & ? & _ & H); discriminate].
  all: pose proof (Write_Ok_inv _ _ _ _ _ EW) as Hp2;
    destruct (Write_at d _ _ Hp2 Hl1 (name +:+ ".tmp") data) as (n2 & HWa & Hl2);
    rewrite HWa in EW; inversion EW; subst ww; clear EW HWa.
  all: apply bind_Ok_inv in H as ([] & w3 & HCl & H);
    pose proof (proj1 (fallible_Ok_inv _ _ _ _ _ HCl)) as Hp3;
    rewrite Close_passes in HCl by done; inversion HCl; subst w3; clear HCl.
  all: unfold renameFile in H; apply bind_Ok_inv in H as ([] & w4 & HR & H);
    pose proof (proj1 (fallible_Ok_inv _ _ _ _ _ HR)) as Hp4;
    destruct (RemoveAll_at d _ _ Hp4 Hl2 name) as (n4 & HRa & Hl4);
    rewrite HRa in HR; inversion HR; subst w4; clear HR HRa.
  all: apply bind_Ok_inv in H as ([] & w5 & HN & H);
    pose proof (proj1 (fallible_Ok_inv _ _ _ _ _ HN)) as Hp5;
    edestruct (Rename_at d _ _ Hp5 Hl4 (name +:+ ".tmp") name data) as (n5 & HNa & Hl5);
    [ by rewrite assoc_entry_del, tmp_name_ne, assoc_entry_put, String.eqb_refl
    | by rewrite !assoc_entry_del, String.eqb_refl, name_tmp_ne
    | ];
    rewrite HNa in HN; inversion HN; subst w5; clear HN HNa.
  all: rewrite filepath_Dir_snoc in H; apply bind_Ok_inv in H as (pd & w6 & HO & H);
    pose proof (proj1 (fallible_Ok_inv _ _ _ _ _ HO)) as Hp6;
    rewrite (OpenDir_at d _ _ Hp6 Hl5) in HO; inversion HO; subst pd w6; clear HO.
  all: apply bind_Ok_inv in H as (r & w7 & HF & H); unfold try in HF;
    destruct (fileutil.Fsync d _) as [rf wf] eqn:EF; inversion HF; subst r w7; clear HF;
    destruct rf as [[]|e];
    [| apply bind_Ok_inv in H as (? & ? & _ & H); discriminate].
  all: pose proof (proj1 (fallible_Ok_inv _ _ _ _ _ EF)) as Hp7;
    rewrite Fsync_passes in EF by done; inversion EF; subst wf; clear EF.
  all: pose proof (proj1 (fallible_Ok_inv _ _ _ _ _ H)) as Hp8;
    rewrite Close_passes in H by done; inversion H; subst w'; simpl; exact Hl5.
Qed.

Ltac passes_by Hq :=
  unfold passes, after_draw; simpl; rewrite ?Hq; simpl; done.

(** With no failure scheduled the atomic writer succeeds, provided the
    directory exists and the temporary name is not taken by a directory. *)
Lemma write_atomic_quiet d name data w es :
  faults w = [] ->
  lookup_path d (root w) = Some (Dir es) ->
  match assoc (name +:+ ".tmp") es with Some (Dir _) => False | _ => True end ->
  exists n, write_atomic d name data w = (Ok tt, set_root n w)
    /\ lookup_path d n = Some (Dir (atomic_entries name data es)).
Proof.
  intros Hq Hd Ht. unfold write_atomic.
  assert (Hw : forall n, after_draw (set_root n w) = set_root n w).
  { intros n. apply after_draw_quiet. done. }
  assert (Hp : forall n, passes (set_root n w)) by (intros n; by apply passes_quiet).
  assert (Hn : forall n n', set_root n (set_root n' w) = set_root n w) by done.
  pose proof (Create_at d w es (passes_quiet _ Hq) Hd (name +:+ ".tmp")) as HC.
  destruct (assoc (name +:+ ".tmp") es) as [[|]|] eqn:Ea; [|done|];
    destruct HC as (n1 & HC & Hl1); rewrite (after_draw_quiet _ Hq) in HC;
    rewrite (bind_Ok _ _ _ _ _ HC); clear HC.
  all: destruct (Write_at d _ _ (Hp n1) Hl1 (name +:+ ".tmp") data) as (n2 & HW & Hl2);
    rewrite Hw, Hn in HW; rewrite (bind_Ok _ _ _ _ _ (try_run _ _ _ _ HW)); clear HW.
  all: erewrite bind_Ok by (rewrite Close_passes by apply Hp; by rewrite Hw).
  all: unfold renameFile.
  all: destruct (RemoveAll_at d _ _ (Hp n2) Hl2 name) as (n4 & HR & Hl4);
    rewrite Hw, Hn in HR; rewrite (bind_Ok _ _ _ _ _ HR); clear HR.
  all: edestruct (Rename_at d _ _ (Hp n4) Hl4 (name +:+ ".tmp") name data)
      as (n5 & HN & Hl5);
    [ by rewrite assoc_entry_del, tmp_name_ne, assoc_entry_put, String.eqb_refl
    | by rewrite !assoc_entry_del, String.eqb_refl, name_tmp_ne
    | ];
    rewrite Hw, Hn in HN; rewrite (bind_Ok _ _ _ _ _ HN); clear HN.
  all: rewrite filepath_Dir_snoc.
  all: erewrite bind_Ok by (rewrite (OpenDir_at d _ _ (Hp n5) Hl5); by rewrite Hw).
  all: erewrite bind_Ok
    by (apply try_run; rewrite Fsync_passes by apply Hp; by rewrite Hw).
  all: cbv beta iota; rewrite Close_passes by apply Hp; rewrite Hw.
  all: exists n5; split; [done | exact Hl5].
Qed.

Section Claims.

Context `{!JSON Meta, !JSON BlockMeta}.
Variable IsBlockDir : string -> bool.
Variables block_MetaFilename block_ChunksDirname block_IndexFilename : string.

Local Abbreviation sync := (sync block_MetaFilename block_ChunksDirname block_IndexFilename).
Local Abbreviation Sync_visit :=
  (Sync_visit block_MetaFilename block_ChunksDirname block_IndexFilename).
Local Abbreviation Sync_pass :=
  (Sync_pass IsBlockDir block_MetaFilename block_ChunksDirname block_IndexFilename).
Local Abbreviation Sync := (Sync IsBlockDir block_MetaFilename block_ChunksDirname block_IndexFilename).
Local Abbreviation Timestamps := (Timestamps IsBlockDir block_MetaFilename).
Local Abbreviation loadBlock := (loadBlock IsBlockDir block_MetaFilename).
Local Abbreviation iterNames := (iterNames IsBlockDir block_MetaFilename).
Local Abbreviation iterBlockMetas := (iterBlockMetas IsBlockDir block_MetaFilename).

(** The object whose presence in the bucket marks a block as shipped. *)
Definition manifest_object (m : BlockMeta) : path :=
  [ULID_String (BlockULID m); block_MetaFilename].

(** *** The per-block procedure: the two early returns *)

Lemma Exists_result name w r w1 :
  objstore.Exists name w = (r, w1) ->
  root w1 = root w /\ bucket w1 = bucket w /\ events w1 = events w ++ [EvExists name].
Proof.
  unfold objstore.Exists, emit, fallible, draw, mbind, M_bind. simpl.
  destruct (faults w) as [|[k|] fs]; simpl; intros [= _ <-]; done.
Qed.

(** C2. A block whose compaction level exceeds 1 is left alone: [sync]
    returns nil in the world it was called in, so that no existence check
    is on the trace, the file system has no staging directory more and
    the bucket no object more, whatever the bucket holds and whatever the
    caller knows about the block. *)
Theorem sync_compacted_block_skipped (s : Shipper) (m : BlockMeta) (w : World) :
  1 < Compaction_Level m ->
  sync s m w = (Ok tt, w).
Proof.
  intros H. unfold sync. apply Z.ltb_lt in H. by rewrite H.
Qed.

(** C1. For a block of compaction level at most 1, when the bucket
    answers that the manifest object <blockID>/<manifestFilename> exists,
    [sync] returns nil; the existence check is the only event of the
    call, the file system (hence no staging directory) and the bucket
    (hence no upload) are as before. *)
Theorem sync_remote_manifest_exists (s : Shipper) (m : BlockMeta) (w w1 : World) :
  Compaction_Level m <= 1 ->
  objstore.Exists (manifest_object m) w = (Ok true, w1) ->
  sync s m w = (Ok tt, w1)
  /\ root w1 = root w
  /\ bucket w1 = bucket w
  /\ events w1 = events w ++ [EvExists (manifest_object m)].
Proof.
  intros Hl Hex. split; [|by eapply Exists_result].
  unfold sync. apply Z.ltb_ge in Hl. rewrite Hl.
  by rewrite (bind_Ok _ _ _ _ _ (wrap_Ok _ _ _ _ _ Hex)).
Qed.

(** *** Loading the bookkeeping file *)

Lemma ReadFile_passes p w :
  passes w ->
  os.ReadFile p w =
  (match lookup_path p (root w) with
   | Some (File d) => Ok d
   | Some (Dir _) => Err EISDIR
   | None => Err ENOENT
   end, after_draw w).
Proof.
  intros H. unfold os.ReadFile. rewrite fallible_passes by done. simpl.
  by destruct (lookup_path p (root w)) as [[|]|].
Qed.

(** The three ways the file itself makes the load fail. *)
Lemma ReadMetaFile_missing d w :
  passes w -> lookup_path (d ++ [MetaFilename]) (root w) = None ->
  ReadMetaFile d w = (Err ENOENT, after_draw w).
Proof.
  intros Hp Hl. unfold ReadMetaFile. eapply bind_Err.
  by rewrite ReadFile_passes, Hl.
Qed.


Lemma ReadMetaFile_version d w b m :
  passes w -> lookup_path (d ++ [MetaFilename]) (root w) = Some (File b) ->
  unmarshal b = Some m -> Version m <> 1 ->
  ReadMetaFile d w = (Err (EVersion (Version m)), after_draw w).
Proof.
  intros Hp Hl Hu Hv. unfold ReadMetaFile.
  erewrite bind_Ok by (by rewrite ReadFile_passes, Hl). rewrite Hu.
  by rewrite bool_decide_true.
Qed.

Lemma ReadMetaFile_good d w b m :
  passes w -> lookup_path (d ++ [MetaFilename]) (root w) = Some (File b) ->
  unmarshal b = Some m -> Version m = 1 ->
  ReadMetaFile d w = (Ok m, after_draw w).
Proof.
  intros Hp Hl Hu Hv. unfold ReadMetaFile.
  erewrite bind_Ok by (by rewrite ReadFile_passes, Hl). rewrite Hu.
  rewrite bool_decide_false; [done|]. by intros ?.
Qed.

(** A record that was read has version 1. *)
Lemma ReadMetaFile_Ok_version d w m w1 :
  ReadMetaFile d w = (Ok m, w1) -> Version m = 1.
Proof.
  unfold ReadMetaFile, mbind, M_bind.
  destruct (os.ReadFile _ w) as [[b|e] w']; [|done].
  destruct (unmarshal b) as [m'|]; [|done].
  destruct (bool_decide (Version m' ≠ 1)) eqn:E; [done|].
  intros [= <- _]. apply bool_decide_eq_false in E.
  destruct (decide (Version m' = 1)); [done|]. by destruct E.
Qed.

(** The world in which [Sync] starts its pass after a failed load. *)
Definition after_load_error (e : error) (w1 : World) : World :=
  if os_IsNotExist e then w1
  else (log LvWarn "reading meta file failed, removing it" None (Some e) w1).2.

Lemma Sync_after_load s w r w1 :
  ReadMetaFile (dir s) w = (r, w1) ->
  Sync s w =
  match r with
  | Ok meta => Sync_pass s meta w1
  | Err e => Sync_pass s (mkMeta 1 []) (after_load_error e w1)
  end.
Proof.
  intros H. unfold Sync, after_load_error.
  rewrite (bind_Ok _ _ _ _ _ (try_run _ _ _ _ H)). destruct r as [meta|e]; [done|].
  destruct (os_IsNotExist e); simpl; [done|].
  unfold mbind at 1, M_bind at 1. done.
Qed.


(** C10. When the load of the bookkeeping file fails, [Timestamps] returns
    [(0, 0, err)] in the world the load left: the directory is not
    scanned and no empty record stands in. Before the first pass the
    file is missing and the load does fail. *)
Theorem Timestamps_load_error (s : Shipper) (w : World) :
  (forall e w1, ReadMetaFile (dir s) w = (Err e, w1) ->
     Timestamps s w = ((0, 0, Some (Wrap "read shipper meta file" e)), w1))
  /\ (lookup_path (dir s ++ [MetaFilename]) (root w) = None ->
      exists e w1, ReadMetaFile (dir s) w = (Err e, w1)
        /\ Timestamps s w = ((0, 0, Some (Wrap "read shipper meta file" e)), w1)
        /\ root w1 = root w /\ events w1 = events w).
Proof.
  assert (H1 : forall e w1, ReadMetaFile (dir s) w = (Err e, w1) ->
     Timestamps s w = ((0, 0, Some (Wrap "read shipper meta file" e)), w1)).
  { intros e w1 H. unfold Timestamps. by rewrite H. }
  split; [done|]. intros Hl.
  destruct (faults w) as [|[k|] fs] eqn:Ef.
  - exists ENOENT, (after_draw w).
    assert (Hr : ReadMetaFile (dir s) w = (Err ENOENT, after_draw w)).
    { apply ReadMetaFile_missing; [|done]. unfold passes. by rewrite Ef. }
    auto.
  - exists (EIO "read"), (set_faults fs w).
    assert (Hr : ReadMetaFile (dir s) w = (Err (EIO "read"), set_faults fs w)).
    { unfold ReadMetaFile. eapply bind_Err. by eapply fallible_fails. }
    auto.
  - exists ENOENT, (after_draw w).
    assert (Hr : ReadMetaFile (dir s) w = (Err ENOENT, after_draw w)).
    { apply ReadMetaFile_missing; [|done]. unfold passes. by rewrite Ef. }
    auto.
Qed.

(** *** Failure of one block *)

Lemma loadBlock_total d n w : exists r w', loadBlock d n w = (Ok r, w').
Proof.
  unfold loadBlock. destruct (negb (IsBlockDir n)); [by eexists _, _|].
  unfold mbind, M_bind, try.
  destruct (os.Stat (d ++ [n]) w) as [[isdir|e] w1].
  - destruct (negb isdir); [by eexists _, _|].
    destruct (block_ReadMetaFile _ _ w1) as [[m|e] w2]; by eexists _, _.
  - by eexists _, _.
Qed.

Lemma Sync_visit_total s prev m ups w :
  exists ups' w', Sync_visit s prev m ups w = (Ok ups', w').
Proof.
  unfold Sync_visit. destruct (bool_decide _); [by eexists _, _|].
  unfold mbind, M_bind, try. destruct (sync s m w) as [[|e] w1]; by eexists _, _.
Qed.

Lemma iterNames_Sync_visit_total s prev d names ups w :
  exists ups' w', iterNames d (Sync_visit s prev) names ups w = (Ok ups', w').
Proof.
  revert ups w. induction names as [|n names IH]; intros ups w; simpl.
  - by eexists _, _.
  - destruct (loadBlock_total d n w) as (r & w1 & Hl).
    rewrite (bind_Ok _ _ _ _ _ Hl). destruct r as [m|]; [|apply IH].
    destruct (Sync_visit_total s prev m ups w1) as (ups1 & w2 & Hv).
    rewrite (bind_Ok _ _ _ _ _ Hv). apply IH.
Qed.

(** C4. When [sync] fails on a block that is not in the record, the closure
    of [Sync] logs "shipping failed" with the block and the error, returns
    nil to the scanner and leaves the list of uploaded IDs as it was; the
    scanner goes on with the names that remain. Hence the loop over the
    directory never returns an error, and the scan of [Sync] fails only when
    the directory itself cannot be listed. *)
Theorem Sync_visit_failure_isolated (s : Shipper) (prev : gset ULID)
    (m : BlockMeta) (ups : list ULID) (w w1 : World) (e : error) :
  BlockULID m ∉ prev ->
  sync s m w = (Err e, w1) ->
  let line := EvLog LvError "shipping failed" (Some (BlockULID m)) (Some e) in
  let w2 := set_events (events w1 ++ [line]) w1 in
  Sync_visit s prev m ups w = (Ok ups, w2)
  /\ (forall d n names w0,
        loadBlock d n w0 = (Ok (Some m), w) ->
        iterNames d (Sync_visit s prev) (n :: names) ups w0
        = iterNames d (Sync_visit s prev) names ups w2)
  /\ (forall d names ups0 w0,
        is_Ok (iterNames d (Sync_visit s prev) names ups0 w0).1 = true)
  /\ (forall w0 e0,
        (iterBlockMetas s (Sync_visit s prev) [] w0).1 = Err e0 ->
        exists e1, (fileutil.ReadDir (dir s) w0).1 = Err e1).
Proof.
  intros Hn Hs line w2.
  assert (Hv : Sync_visit s prev m ups w = (Ok ups, w2)).
  { unfold Sync_visit. rewrite bool_decide_false by done.
    rewrite (bind_Ok _ _ _ _ _ (try_run _ _ _ _ Hs)). done. }
  split; [done|]. split; [|split].
  - intros d n names w0 Hl. simpl.
    rewrite (bind_Ok _ _ _ _ _ Hl). by rewrite (bind_Ok _ _ _ _ _ Hv).
  - intros d names ups0 w0.
    destruct (iterNames_Sync_visit_total s prev d names ups0 w0) as (? & ? & ->).
    done.
  - intros w0 e0. unfold iterBlockMetas, mbind, M_bind, wrap.
    destruct (fileutil.ReadDir (dir s) w0) as [[names|e1] w'] eqn:E; [|eauto].
    destruct (iterNames_Sync_visit_total s prev (dir s) names [] w') as (? & ? & ->).
    done.
Qed.

(** *** Timestamps *)

(** The blocks the scanner hands to a callback that leaves the world alone,
    in the order of the scan, and the world the scan ends in. *)
Fixpoint scanNames (d : path) (names : list string) (w : World)
    : list BlockMeta * World :=
  match names with
  | [] => ([], w)
  | n :: names' =>
      match loadBlock d n w with
      | (Ok (Some m), w1) =>
          let (l, w2) := scanNames d names' w1 in (m :: l, w2)
      | (_, w1) => scanNames d names' w1
      end
  end.

Lemma iterNames_pure {S} (g : S -> BlockMeta -> S) (f : BlockMeta -> S -> M S)
    d names st w :
  (forall m st w, f m st w = (Ok (g st m), w)) ->
  iterNames d f names st w
  = (Ok (fold_left g (scanNames d names w).1 st), (scanNames d names w).2).
Proof.
  intros Hf. revert st w. induction names as [|n names IH]; intros st w; simpl.
  - done.
  - destruct (loadBlock_total d n w) as (r & w1 & Hl).
    rewrite (bind_Ok _ _ _ _ _ Hl), Hl. destruct r as [m|]; [|apply IH].
    rewrite (bind_Ok _ _ _ _ _ (Hf m st w1)), IH.
    by destruct (scanNames d names w1).
Qed.



(** One step of the closure of [Timestamps] on its two variables. *)
Definition Timestamps_step (hasUploaded : gset ULID) (st : Z * Z) (m : BlockMeta)
    : Z * Z :=
  (if MinTime m <? st.1 then MinTime m else st.1,
   if bool_decide (BlockULID m ∈ hasUploaded) && (st.2 <? MaxTime m)
   then MaxTime m else st.2).

Lemma Timestamps_visit_step hasUploaded m st w :
  Timestamps_visit hasUploaded m st w = (Ok (Timestamps_step hasUploaded st m), w).
Proof. by destruct st. Qed.

Lemma Timestamps_fold (prev : list ULID) (bs : list BlockMeta) (a b : Z) :
  fold_left (Timestamps_step (list_to_set prev)) bs (a, b)
  = (fold_left Z.min (map MinTime bs) a,
     fold_left Z.max (map MaxTime (filter (fun m => BlockULID m ∈ prev) bs)) b).
Proof.
  revert a b. induction bs as [|m bs IH]; intros a b; simpl; [done|].
  unfold Timestamps_step at 2. simpl. rewrite IH. f_equal.
  - f_equal. destruct (Z.ltb_spec (MinTime m) a); lia.
  - rewrite filter_cons. destruct (decide (BlockULID m ∈ prev)) as [Hin|Hin].
    + rewrite bool_decide_true by (by apply elem_of_list_to_set). simpl.
      f_equal. destruct (Z.ltb_spec b (MaxTime m)); lia.
    + rewrite bool_decide_false by (by rewrite elem_of_list_to_set). done.
Qed.




(** *** The record one pass writes *)

(** The record [Sync] works from: the one it loaded or, when the load
    failed, the empty one; and the world in which its pass starts. *)
Definition Sync_loaded (s : Shipper) (w : World) : Meta * World :=
  match ReadMetaFile (dir s) w with
  | (Ok meta, w1) => (meta, w1)
  | (Err e, w1) => (mkMeta 1 [], after_load_error e w1)
  end.

Lemma Sync_from_loaded s w :
  Sync s w = Sync_pass s (Sync_loaded s w).1 (Sync_loaded s w).2.
Proof.
  unfold Sync_loaded. destruct (ReadMetaFile (dir s) w) as [r w1] eqn:E.
  rewrite (Sync_after_load s w r w1 E). by destruct r.
Qed.

Lemma Sync_loaded_version s w : Version (Sync_loaded s w).1 = 1.
Proof.
  unfold Sync_loaded. destruct (ReadMetaFile (dir s) w) as [[meta|e] w1] eqn:E.
  - simpl. by eapply ReadMetaFile_Ok_version.
  - done.
Qed.

(** The world in which the closure of [Sync] leaves the scanner. *)
Definition visit_world (s : Shipper) (prev : gset ULID) (m : BlockMeta)
    (w : World) : World :=
  (Sync_visit s prev m [] w).2.

(** The blocks one pass visits, each with the world it is visited in. *)
Fixpoint visits (s : Shipper) (prev : gset ULID) (d : path)
    (names : list string) (w : World) : list (BlockMeta * World) :=
  match names with
  | [] => []
  | n :: names' =>
      match loadBlock d n w with
      | (Ok (Some m), w1) => (m, w1) :: visits s prev d names' (visit_world s prev m w1)
      | (_, w1) => visits s prev d names' w1
      end
  end.

(** A visited block is kept on the list when it was on the loaded record
    or [sync] returns nil on it. *)
Definition kept (s : Shipper) (prev : gset ULID) (v : BlockMeta * World) : bool :=
  bool_decide (BlockULID v.1 ∈ prev) || is_Ok (sync s v.1 v.2).1.

Definition recorded_ids (s : Shipper) (prev : gset ULID)
    (vs : list (BlockMeta * World)) : list ULID :=
  map (fun v => BlockULID v.1) (filter (fun v => kept s prev v = true) vs).

(** The record the bookkeeping file of [d] holds. *)
Definition persisted (d : path) (w : World) : option Meta :=
  match lookup_path (d ++ [MetaFilename]) (root w) with
  | Some (File b) => unmarshal b
  | _ => None
  end.

Lemma Sync_visit_result s prev m ups w :
  Sync_visit s prev m ups w
  = (Ok (ups ++ if kept s prev (m, w) then [BlockULID m] else []),
     visit_world s prev m w).
Proof.
  unfold visit_world, kept, Sync_visit. simpl.
  destruct (bool_decide (BlockULID m ∈ prev)); simpl; [done|].
  unfold mbind, M_bind, try. destruct (sync s m w) as [[[]|e] w1]; simpl; [done|].
  by rewrite app_nil_r.
Qed.

Lemma iterNames_Sync_visit s prev d names ups w :
  iterNames d (Sync_visit s prev) names ups w
  = (Ok (ups ++ recorded_ids s prev (visits s prev d names w)),
     (iterNames d (Sync_visit s prev) names [] w).2).
Proof.
  revert ups w. induction names as [|n names IH]; intros ups w; simpl.
  - unfold recorded_ids. simpl. by rewrite app_nil_r.
  - destruct (loadBlock_total d n w) as (r & w1 & Hl).
    rewrite !(bind_Ok _ _ _ _ _ Hl), Hl. destruct r as [m|]; [|apply IH].
    rewrite !(bind_Ok _ _ _ _ _ (Sync_visit_result s prev m _ w1)).
    rewrite (IH ([] ++ _)), IH. simpl. f_equal.
    unfold recorded_ids. rewrite filter_cons.
    destruct (decide (kept s prev (m, w1) = true)) as [E|E].
    + rewrite E. simpl. by rewrite <- app_assoc.
    + apply not_true_is_false in E. rewrite E. by rewrite app_nil_r.
Qed.


(** *** The order of the uploads of one block *)

(** What one call of [objstore.UploadFile] for the object [name] leaves:
    events that are uploads of [name], among them a successful one when the
    call returns nil. *)
Definition upload_summary (name : path) (r : result unit) (w w' : World) : Prop :=
  exists E, events w' = events w ++ E
    /\ bucket w' = replay E (bucket w)
    /\ (forall e, e ∈ E -> is_upload_of name e)
    /\ (r = Ok tt -> uploaded_ok name E)
    /\ root w' = root w.

Lemma Upload_summary name data w :
  upload_summary name (objstore.Upload name data w).1 w (objstore.Upload name data w).2.
Proof.
  unfold objstore.Upload, draw, emit, bucket_update, throw, mbind, M_bind.
  destruct (faults w) as [|[k|] fs]; simpl.
  - exists [EvUpload name data true]. repeat split; try done.
    + intros e He. by apply list_elem_of_singleton in He as ->.
    + intros _. exists data. apply list_elem_of_here.
  - exists [EvUpload name data false]. repeat split; try done.
    intros e He. by apply list_elem_of_singleton in He as ->.
  - exists [EvUpload name data true]. repeat split; try done.
    + intros e He. by apply list_elem_of_singleton in He as ->.
    + intros _. exists data. apply list_elem_of_here.
Qed.

Lemma UploadFile_summary src name w :
  upload_summary name (objstore.UploadFile src name w).1 w
    (objstore.UploadFile src name w).2.
Proof.
  unfold objstore.UploadFile, mbind, M_bind.
  pose proof (run_ReadFile R_still still_faults src w) as (He & Hb & Hr).
  destruct (os.ReadFile src w) as [[data|e] w1]; simpl in *.
  - destruct (Upload_summary name data w1) as (E & HE & HB & Hall & Hok & Hroot).
    destruct (objstore.Upload name data w1) as [r w2]; simpl in *.
    exists E. rewrite HE, HB, He, Hb, Hroot, Hr. done.
  - exists []. rewrite app_nil_r. repeat split; try done.
    intros e0 H0. by apply elem_of_nil in H0.
Qed.

Lemma upload_chunks_summary (bdir : path) (id : string) (l : list string) (w : World) :
  let rw := forM_ l (fun fn =>
              objstore.UploadFile (bdir ++ [block_ChunksDirname; fn])
                                  [id; block_ChunksDirname; fn]) w in
  exists E, events rw.2 = events w ++ E
    /\ bucket rw.2 = replay E (bucket w)
    /\ (forall e, e ∈ E -> exists fn, is_upload_of [id; block_ChunksDirname; fn] e)
    /\ (rw.1 = Ok tt -> forall fn, fn ∈ l -> uploaded_ok [id; block_ChunksDirname; fn] E)
    /\ root rw.2 = root w.
Proof.
  revert w. induction l as [|fn l IH]; intros w; simpl.
  - exists []. rewrite app_nil_r. repeat split; try done.
    + intros e He. by apply elem_of_nil in He.
    + intros _ fn Hfn. by apply elem_of_nil in Hfn.
  - unfold mbind, M_bind.
    destruct (UploadFile_summary (bdir ++ [block_ChunksDirname; fn])
                [id; block_ChunksDirname; fn] w) as (E1 & HE & HB & Hall & Hok & Hroot).
    destruct (objstore.UploadFile _ _ w) as [[[]|e] w1]; simpl in *.
    + destruct (IH w1) as (E2 & HE2 & HB2 & Hall2 & Hok2 & Hroot2).
      exists (E1 ++ E2). rewrite HE2, HE, HB2, HB, replay_app, app_assoc, Hroot2, Hroot.
      repeat split; try done.
      * intros e He. apply elem_of_app in He as [He|He]; [eauto | auto].
      * intros Hr fn' Hfn'. apply elem_of_cons in Hfn' as [->|Hfn'].
        -- apply uploaded_ok_app_l. auto.
        -- apply uploaded_ok_app_r. auto.
    + exists E1. repeat split; try done. intros e0 He0. eauto.
Qed.

(** [block.Upload] keeps the order for any set of objects made of the index
    and of segment files that are in the staged directory. *)
Lemma block_Upload_ord (bdir : path) (w : World) (D : list path) :
  let id := List.last bdir "" in
  block_IndexFilename <> block_MetaFilename ->
  (forall staged w1,
     fileutil.ReadDir (bdir ++ [block_ChunksDirname]) w = (Ok staged, w1) ->
     forall o, o ∈ D ->
       o = [id; block_IndexFilename]
       \/ exists fn, fn ∈ staged /\ o = [id; block_ChunksDirname; fn]) ->
  R_ord D [id; block_MetaFilename] w
    (block_Upload block_MetaFilename block_ChunksDirname block_IndexFilename bdir w).2.
Proof.
  intros id Hne HD. unfold block_Upload, mbind, M_bind, wrap. fold id.
  pose proof (run_ReadDir R_still still_faults (bdir ++ [block_ChunksDirname]) w)
    as (He & Hb & Hr).
  destruct (fileutil.ReadDir _ w) as [[staged|e] w1] eqn:ERd; simpl in *;
    [|by apply ord_same].
  specialize (HD staged w1 eq_refl).
  destruct (upload_chunks_summary bdir id staged w1)
    as (Ec & HEc & HBc & Hallc & Hokc & Hrootc).
  simpl in *.
  destruct (forM_ staged _ w1) as [[[]|e] w2]; simpl in *.
  2:{ exists Ec. rewrite HEc, HBc, He, Hb. split; [done|]. split; [done|].
      apply ordered_free. intros e0 He0 Hu. destruct (Hallc e0 He0) as [fn Hfn].
      destruct e0; simpl in *; try done. congruence. }
  destruct (UploadFile_summary (bdir ++ [block_IndexFilename])
              [id; block_IndexFilename] w2) as (Ei & HEi & HBi & Halli & Hoki & Hrooti).
  destruct (objstore.UploadFile (bdir ++ [block_IndexFilename]) _ w2)
    as [[[]|e] w3]; simpl in *.
  2:{ exists (Ec ++ Ei). rewrite HEi, HBi, HEc, HBc, He, Hb, replay_app, app_assoc.
      split; [done|]. split; [done|].
      apply ordered_free. intros e0 He0 Hu. apply elem_of_app in He0 as [He0|He0].
      - destruct (Hallc e0 He0) as [fn Hfn]. destruct e0; simpl in *; try done.
        congruence.
      - specialize (Halli e0 He0). destruct e0; simpl in *; try done. congruence. }
  destruct (UploadFile_summary (bdir ++ [block_MetaFilename])
              [id; block_MetaFilename] w3) as (Em & HEm & HBm & _ & _ & _).
  assert (Hord : ordered D [id; block_MetaFilename] ((Ec ++ Ei) ++ Em)).
  { apply ordered_after.
    - apply ordered_free. intros e0 He0 Hu. apply elem_of_app in He0 as [He0|He0].
      + destruct (Hallc e0 He0) as [fn Hfn]. destruct e0; simpl in *; try done.
        congruence.
      + specialize (Halli e0 He0). destruct e0; simpl in *; try done. congruence.
    - intros o Ho. destruct (HD o Ho) as [->|(fn & Hfn & ->)].
      + apply uploaded_ok_app_r. auto.
      + apply uploaded_ok_app_l. auto. }
  destruct (objstore.UploadFile (bdir ++ [block_MetaFilename]) _ w3) as [[[]|er] w4];
    simpl in *; exists ((Ec ++ Ei) ++ Em);
    rewrite HEm, HBm, HEi, HBi, HEc, HBc, He, Hb, !replay_app, !app_assoc; done.
Qed.

(** *** Staging *)

Lemma Link_Ok_inv src dst w u w1 :
  os.Link src dst w = (Ok u, w1) ->
  exists x, modify MFail (create x) dst (root w) = Ok (root w1).
Proof.
  unfold os.Link. intros H. apply fallible_Ok_inv in H as [_ H].
  apply bind_Ok_inv in H as (r & w2 & Hr & H). inversion Hr; subst r w2. simpl in H.
  destruct (lookup_path src (root w)) as [[data|]|]; try done.
  apply fs_update_Ok_inv in H as (n & Hm & ->). simpl in Hm. eauto.
Qed.

(** Links that all succeed leave every entry that was there and one entry
    for each link. *)
Lemma links_staged src dst (l : list path) w w' :
  forM_ l (fun fn => wrap "hard link file" (os.Link (src ++ fn) (dst ++ fn))) w
  = (Ok tt, w') ->
  (forall q, is_Some (lookup_path q (root w)) -> is_Some (lookup_path q (root w')))
  /\ (forall fn, fn ∈ l -> is_Some (lookup_path (dst ++ fn) (root w'))).
Proof.
  revert w. induction l as [|p l IH]; intros w H; simpl in H.
  - inversion H; subst. split; [done|]. intros fn Hfn. by apply elem_of_nil in Hfn.
  - apply bind_Ok_inv in H as ([] & w1 & HL & H). apply wrap_Ok_inv in HL.
    apply Link_Ok_inv in HL as (x & Hm). destruct (IH _ H) as [Hkeep Hnew].
    split.
    + intros q Hq. apply Hkeep. by eapply modify_create_preserves.
    + intros fn Hfn. apply elem_of_cons in Hfn as [->|Hfn]; [|auto].
      apply Hkeep. erewrite modify_create_lookup by done. by eexists.
Qed.

(** The segment files of the block of [m], as its directory lists them. *)
Definition block_chunks (s : Shipper) (m : BlockMeta) (w : World) : list string :=
  match lookup_path (dir s ++ [ULID_String (BlockULID m); block_ChunksDirname]) (root w) with
  | Some (Dir es) => map fst es
  | _ => []
  end.

(** The objects that make up the block of [m] in the bucket, the manifest
    apart: one per segment file, and the index. *)
Definition data_objects (s : Shipper) (m : BlockMeta) (w : World) : list path :=
  map (fun fn => [ULID_String (BlockULID m); block_ChunksDirname; fn]) (block_chunks s m w)
  ++ [[ULID_String (BlockULID m); block_IndexFilename]].

Definition keep_block (m : BlockMeta) (c : string) : bool :=
  String.eqb c (ULID_String (BlockULID m)).

Lemma frame_thanos s m rest :
  ULID_String (BlockULID m) <> "thanos" ->
  ok_path (R_frame (dir s) (keep_block m)) (dir s ++ "thanos" :: rest).
Proof.
  intros Hne. apply frame_path. unfold keep_block. apply String.eqb_neq. congruence.
Qed.

Lemma ReadDir_Ok_inv p w names w1 :
  fileutil.ReadDir p w = (Ok names, w1) ->
  exists es, lookup_path p (root w) = Some (Dir es) /\ names = map fst es
             /\ root w1 = root w.
Proof.
  unfold fileutil.ReadDir. intros H. apply fallible_Ok_inv in H as [_ H]. simpl in H.
  destruct (lookup_path p (root w)) as [[|es]|]; try done. inversion H; subst. eauto.
Qed.

(** Every segment file the block had in [w0] is in the staged directory
    when staging has succeeded. *)
Lemma staged_chunks s m meta' w0 w_d w_f w_g staged w1 :
  ULID_String (BlockULID m) <> "thanos" ->
  block_ChunksDirname <> block_MetaFilename ->
  block_ChunksDirname <> block_MetaFilename +:+ ".tmp" ->
  R_frame (dir s) (keep_block m) w0 w_d ->
  hardlinkBlock block_MetaFilename block_ChunksDirname block_IndexFilename
    (dir s ++ [ULID_String (BlockULID m)]) (updir_of s m) w_d = (Ok tt, w_f) ->
  block_WriteMetaFile block_MetaFilename (updir_of s m) meta' w_f = (Ok tt, w_g) ->
  fileutil.ReadDir (updir_of s m ++ [block_ChunksDirname]) w_g = (Ok staged, w1) ->
  forall fn, fn ∈ block_chunks s m w0 -> fn ∈ staged.
Proof.
  intros Hid Hcm Hct Hfr Hlink Hwrite Hread fn Hfn.
  unfold block_chunks in Hfn.
  destruct (lookup_path _ (root w0)) as [[|ces]|] eqn:Hces;
    try (by apply elem_of_nil in Hfn).
  (* the listing the links are made from *)
  unfold hardlinkBlock in Hlink.
  apply bind_Ok_inv in Hlink as ([] & w_e & Hmk & Hlink).
  apply bind_Ok_inv in Hlink as (files & w_e' & Hrd & Hlink).
  assert (Hfe : R_frame (dir s) (keep_block m) w0 w_e).
  { etransitivity; [exact Hfr|].
    pose proof (run_wrap (R_frame (dir s) (keep_block m)) "create chunks dir" _
      (run_MkdirAll _ (frame_faults _ _) (updir_of s m ++ [block_ChunksDirname])
         ltac:(unfold updir_of; rewrite <- app_assoc; by apply frame_thanos)) w_d) as H.
    by rewrite Hmk in H. }
  apply wrap_Ok_inv, ReadDir_Ok_inv in Hrd as (es & Hes & -> & Hroot).
  assert (Hsame : lookup_path (dir s ++ [ULID_String (BlockULID m); block_ChunksDirname])
                    (root w_e) = Some (Dir ces)).
  { eapply (same_under_lookup (dir s) (keep_block m)); [exact Hfe | | exact Hces].
    unfold keep_block. apply String.eqb_refl. }
  rewrite <- app_assoc in Hes. simpl in Hes. rewrite Hsame in Hes.
  inversion Hes; subst es. clear Hes.
  (* the link of [fn] is there after the links ... *)
  apply links_staged in Hlink as [_ Hnew].
  assert (Hin : [block_ChunksDirname; fn]
                ∈ map (fun fn => [block_ChunksDirname; fn]) (map fst ces)
                  ++ [[block_MetaFilename]; [block_IndexFilename]]).
  { apply elem_of_app. left. apply list_elem_of_fmap. eauto. }
  apply Hnew in Hin as [x Hx].
  (* ... and after the manifest is rewritten *)
  assert (Hfw : R_frame (updir_of s m)
                  (fun c => String.eqb c block_ChunksDirname) w_f w_g).
  { set (Rw := R_frame (updir_of s m) (fun c => String.eqb c block_ChunksDirname)).
    assert (Hp1 : ok_path Rw (updir_of s m ++ [block_MetaFilename])).
    { apply frame_path. apply String.eqb_neq. congruence. }
    assert (Hp2 : ok_path Rw (updir_of s m ++ [block_MetaFilename +:+ ".tmp"])).
    { apply frame_path. apply String.eqb_neq. congruence. }
    pose proof (run_block_WriteMetaFile block_MetaFilename Rw (frame_faults _ _)
      (fun _ _ _ _ => frame_event _ _ _) (updir_of s m) meta' Hp1 Hp2 w_f) as H.
    by rewrite Hwrite in H. }
  eapply (same_under_lookup _ _ _ _ block_ChunksDirname [fn]) in Hx;
    [| exact Hfw | apply String.eqb_refl].
  apply ReadDir_Ok_inv in Hread as (ses & Hses & -> & _).
  change (updir_of s m ++ [block_ChunksDirname; fn])
    with (updir_of s m ++ [block_ChunksDirname] ++ [fn]) in Hx.
  rewrite app_assoc, lookup_path_snoc, Hses in Hx.
  by eapply assoc_Some_names.
Qed.

Lemma last_updir_of s m : List.last (updir_of s m) "" = ULID_String (BlockULID m).
Proof.
  unfold updir_of.
  change (dir s ++ ["thanos"; "upload"; ULID_String (BlockULID m)])
    with (dir s ++ ["thanos"; "upload"] ++ [ULID_String (BlockULID m)]).
  rewrite app_assoc. apply last_last.
Qed.

(** C9. Within one call of [sync], every upload of the manifest object
    comes after a successful upload of the index and of every segment file
    the block directory listed when the call began. Along the trace [E] of
    the call (the bucket at the end is the bucket at the start after [E]),
    a bucket that did not hold this manifest without these objects at the
    start does not do so at any point. The three file names of package
    [block] are taken distinct, and the block ID is not the name of the
    staging root. *)
Theorem sync_manifest_uploaded_last (s : Shipper) (m : BlockMeta) (w : World) :
  block_IndexFilename <> block_MetaFilename ->
  block_ChunksDirname <> block_MetaFilename ->
  block_ChunksDirname <> block_MetaFilename +:+ ".tmp" ->
  ULID_String (BlockULID m) <> "thanos" ->
  let D := data_objects s m w in
  let M := manifest_object m in
  exists E, events (sync s m w).2 = events w ++ E
    /\ bucket (sync s m w).2 = replay E (bucket w)
    /\ ordered D M E
    /\ (complete D M (bucket w) ->
        forall E1 E2, E = E1 ++ E2 -> complete D M (replay E1 (bucket w))).
Proof.
  intros Him Hcm Hct Hid D M.
  cut (R_ord D M w (sync s m w).2).
  { intros (E & HE & HB & HO). exists E. repeat split; try done.
    intros Hc E1 E2 HE12. by eapply ordered_complete. }
  set (Rf := R_frame (dir s) (keep_block m)).
  set (R := R_and (R_ord D M) Rf).
  assert (HPO : PreOrder R) by apply _.
  cut (R w (sync s m w).2); [by intros [? _]|].
  assert (HRf : ok_faults R) by (apply and_faults; [apply ord_faults | apply frame_faults]).
  assert (HRlog : forall lvl msg b e, ok_event R (EvLog lvl msg b e)).
  { intros. apply and_event; [by apply ord_event | apply frame_event]. }
  assert (HRex : forall name, ok_event R (EvExists name)).
  { intros. apply and_event; [by apply ord_event | apply frame_event]. }
  assert (HRp : forall rest, ok_path R (dir s ++ "thanos" :: rest)).
  { intros. apply and_path; [apply ord_path | by apply frame_thanos]. }
  assert (HRup : forall rest, ok_path R (updir_of s m ++ rest)).
  { intros rest. unfold updir_of. rewrite <- app_assoc. apply HRp. }
  assert (HRu0 : ok_path R (updir_of s m)) by apply (HRp ["upload"; _]).
  unfold sync. destruct (1 <? Compaction_Level m); [reflexivity|].
  apply step_bind; [done | reflexivity | by apply run_wrap, run_Exists |].
  intros ok w_a _ Ha. destruct ok; [exact Ha|].
  apply step_bind; [done | exact Ha | by apply run_log |]. intros _ w_b _ Hb.
  apply step_bind; [done | exact Hb | by apply run_wrap, run_RemoveAll |].
  intros _ w_c _ Hc.
  apply step_bind; [done | exact Hc | by apply run_wrap, run_MkdirAll |].
  intros _ w_d _ Hd.
  apply step_defer; [done | |].
  { apply run_bind; [done | by apply run_try, run_RemoveAll | intros [|e]];
      [by apply run_ret | by apply run_log]. }
  apply step_bind; [done | exact Hd | |].
  { apply run_wrap, run_hardlinkBlock; [done | done | intros c rest; apply HRup]. }
  intros [] w_f Hlink Hf. apply wrap_Ok_inv in Hlink.
  apply step_bind; [done | exact Hf | |].
  { apply run_wrap, run_block_WriteMetaFile; [done | done | done | apply HRup..]. }
  intros [] w_g Hwrite Hg. apply wrap_Ok_inv in Hwrite.
  transitivity w_g; [exact Hg|]. split.
  - pose proof (block_Upload_ord (updir_of s m) w_g D) as HU.
    rewrite last_updir_of in HU. apply HU; [done|].
    intros staged w1 Hread o Ho. unfold D, data_objects in Ho.
    apply elem_of_app in Ho as [Ho|Ho].
    + right. apply list_elem_of_fmap in Ho as (fn & -> & Hfn). exists fn.
      split; [|done].
      eapply (staged_chunks s m _ w w_d w_f w_g); try done. apply Hd.
    + left. by apply list_elem_of_singleton in Ho.
  - apply (run_block_Upload block_MetaFilename block_ChunksDirname
             block_IndexFilename Rf (frame_faults _ _) (frame_event _ _)
             (frame_bucket _ _)).
Qed.

(** *** The bookkeeping file between removal and rename *)

Lemma WriteMetaFile_write_atomic d meta :
  WriteMetaFile d meta = write_atomic d MetaFilename (marshal meta).
Proof. done. Qed.

(** C8 (what the code does where the claim fails). [WriteMetaFile] removes
    the file at the target path before it renames the temporary file onto
    it. When the rename fails after the removal went through, the call
    returns the error and the target path holds no file: neither the old
    record nor the new one, which sits under the temporary name. *)
Theorem WriteMetaFile_rename_failure (d : path) (meta : Meta) (w : World)
    (es : list (string * node)) (old : string) (k : nat) (rest : list (option nat)) :
  lookup_path d (root w) = Some (Dir es) ->
  assoc MetaFilename es = Some (File old) ->
  match assoc (MetaFilename +:+ ".tmp") es with Some (Dir _) => False | _ => True end ->
  faults w = [None; None; None; None; Some k] ++ rest ->
  exists w', WriteMetaFile d meta w = (Err (EIO "rename"), w')
    /\ lookup_path (d ++ [MetaFilename]) (root w') = None
    /\ lookup_path (d ++ [MetaFilename +:+ ".tmp"]) (root w')
       = Some (File (marshal meta)).
Proof.
  intros Hd Hold Ht Hq. rewrite WriteMetaFile_write_atomic. unfold write_atomic.
  set (name := MetaFilename) in *. set (data := marshal meta).
  assert (Hp0 : passes w) by passes_by Hq.
  pose proof (Create_at d w es Hp0 Hd (name +:+ ".tmp")) as HC.
  destruct (assoc (name +:+ ".tmp") es) as [[|]|] eqn:Ea; [|done|];
    destruct HC as (n1 & HC & Hl1); rewrite (bind_Ok _ _ _ _ _ HC); clear HC.
  all: set (W1 := set_root n1 (after_draw w)).
  all: assert (Hp1 : passes W1) by passes_by Hq.
  all: destruct (Write_at d W1 _ Hp1 Hl1 (name +:+ ".tmp") data) as (n2 & HW & Hl2);
    rewrite (bind_Ok _ _ _ _ _ (try_run _ _ _ _ HW)); clear HW.
  all: set (W2 := set_root n2 (after_draw W1)).
  all: assert (Hp2 : passes W2) by passes_by Hq.
  all: rewrite (bind_Ok _ _ _ _ _ (Close_passes _ W2 Hp2)).
  all: set (W3 := after_draw W2).
  all: assert (Hp3 : passes W3) by passes_by Hq.
  all: unfold renameFile.
  all: destruct (RemoveAll_at d W3 _ Hp3 Hl2 name) as (n4 & HR & Hl4);
    rewrite (bind_Ok _ _ _ _ _ HR); clear HR.
  all: set (W4 := set_root n4 (after_draw W3)).
  all: assert (Hf4 : faults W4 = Some k :: rest)
    by (unfold W4, W3, W2, W1, after_draw; simpl; rewrite Hq; done).
  all: erewrite bind_Err by (unfold os.Rename; by eapply fallible_fails).
  all: eexists; split; [done|]; simpl; rewrite !lookup_path_snoc, Hl4.
  all: rewrite !assoc_entry_del, String.eqb_refl, tmp_name_ne, !assoc_entry_put,
         String.eqb_refl; done.
Qed.

(** *** Two passes in a row *)

(** The events a run from [w] to [w'] has added. *)
Definition new_events (w w' : World) : list Event :=
  drop (length (events w)) (events w').

Lemma new_events_ext w w' E : events w' = events w ++ E -> new_events w w' = E.
Proof. intros H. unfold new_events. rewrite H. apply drop_app_length. Qed.

(** The lines with which [Sync] reports that a block was not shipped, that
    the directory could not be scanned or that the record was not
    written. *)
Definition failure_line (e : Event) : bool :=
  match e with
  | EvLog LvError _ _ _ => true
  | EvLog LvWarn msg _ _ => String.eqb msg "updating meta file failed"
  | _ => false
  end.

Definition any_event (e : Event) : Prop := True.

Lemma any_faults : ok_faults (R_events any_event).
Proof. apply events_faults. Qed.
Lemma any_event_ok e : ok_event (R_events any_event) e.
Proof. by apply events_event. Qed.
Lemma any_path p : ok_path (R_events any_event) p.
Proof. apply events_path. Qed.
Lemma any_bucket : ok_bucket (R_events any_event).
Proof. apply events_bucket. Qed.

(** What the scanner loads for the name [n] from the tree [r] when no call
    fails for a reason of the environment. *)
Definition localBlock (d : path) (r : node) (n : string) : option BlockMeta :=
  if IsBlockDir n then
    match lookup_path (d ++ [n]) r with
    | Some (Dir bes) =>
        match assoc block_MetaFilename bes with
        | Some (File b) => unmarshal b
        | _ => None
        end
    | _ => None
    end
  else None.

Lemma loadBlock_quiet d n w :
  faults w = [] -> (loadBlock d n w).1 = Ok (localBlock d (root w) n).
Proof.
  intros Hq. unfold loadBlock, localBlock.
  destruct (IsBlockDir n); simpl; [|done].
  unfold mbind, M_bind, try, os.Stat. rewrite fallible_passes by (by apply passes_quiet).
  rewrite after_draw_quiet by done.
  destruct (lookup_path (d ++ [n]) (root w)) as [[data|bes]|] eqn:El; simpl; try done.
  unfold block_ReadMetaFile, mbind, M_bind.
  rewrite ReadFile_passes by (by apply passes_quiet).
  rewrite lookup_path_snoc, El.
  destruct (assoc block_MetaFilename bes) as [[b|]|]; simpl; try done.
  by destruct (unmarshal b).
Qed.

(** [loadBlock] moves nothing but the failure schedule and the log. *)
Lemma loadBlock_footprint d n w :
  let w' := (loadBlock d n w).2 in
  (faults w = [] -> faults w' = [])
  /\ root w' = root w /\ bucket w' = bucket w
  /\ exists E, events w' = events w ++ E /\ Forall is_log E.
Proof.
  simpl. split; [|split; [|split]].
  - apply (run_loadBlock IsBlockDir block_MetaFilename R_quiet quiet_faults
             (fun _ _ _ _ => quiet_event _)).
  - apply (run_loadBlock IsBlockDir block_MetaFilename R_root root_faults
             (fun _ _ _ _ => root_event _)).
  - apply (run_loadBlock IsBlockDir block_MetaFilename R_bucket bucket_faults
             (fun _ _ _ _ => bucket_event _)).
  - apply (run_loadBlock IsBlockDir block_MetaFilename (R_events is_log)
             (events_faults _)
             (fun lvl msg b e => events_event is_log (EvLog lvl msg b e) I)).
Qed.

Lemma localBlock_frame d r r' es n :
  lookup_path d r = Some (Dir es) ->
  same_under d (fun c => IsBlockDir c) r r' ->
  localBlock d r' n = localBlock d r n.
Proof.
  intros Hd Hs. unfold localBlock. destruct (IsBlockDir n) eqn:En; [|done].
  destruct (Hs es Hd) as (es' & Hd' & _ & Ha).
  by rewrite !lookup_path_snoc, Hd, Hd', Ha.
Qed.

Lemma omap_ext_list {A B} (f g : A -> option B) (l : list A) :
  (forall x, f x = g x) -> omap f l = omap g l.
Proof.
  intros H. induction l as [|x l IH]; [done|]. cbn. by rewrite H, IH.
Qed.

Lemma omap_filter_None {A B} (f : A -> option B) (P : A -> bool) (l : list A) :
  (forall x, P x = false -> f x = None) ->
  omap f (filter (fun x => P x = true) l) = omap f l.
Proof.
  intros H. induction l as [|x l IH]; [done|].
  rewrite filter_cons. destruct (decide (P x = true)) as [E|E].
  - cbn. by rewrite IH.
  - cbn. apply not_true_is_false in E. by rewrite (H x E).
Qed.

Lemma clean_split (P : Event -> Prop) w w1 wf E1 :
  events w1 = events w ++ E1 ->
  (exists E2, events wf = events w1 ++ E2) ->
  Forall P (new_events w wf) ->
  Forall P E1 /\ Forall P (new_events w1 wf).
Proof.
  intros H1 [E2 H2] HP. rewrite (new_events_ext w1 wf E2 H2).
  rewrite (new_events_ext w wf (E1 ++ E2)) in HP
    by (by rewrite H2, H1, app_assoc).
  by apply Forall_app in HP.
Qed.

Lemma sync_events s m w : exists E, events (sync s m w).2 = events w ++ E.
Proof.
  destruct (run_sync block_MetaFilename block_ChunksDirname block_IndexFilename
              (R_events any_event) any_faults (fun _ _ _ _ => any_event_ok _)
              any_event_ok any_bucket s m (fun _ => any_path _) w) as (E & H & _).
  eauto.
Qed.

Lemma Sync_visit_footprint s prev m ups w :
  IsBlockDir "thanos" = false ->
  let w' := (Sync_visit s prev m ups w).2 in
  (faults w = [] -> faults w' = [])
  /\ same_under (dir s) (fun c => IsBlockDir c) (root w) (root w')
  /\ exists E, events w' = events w ++ E.
Proof.
  intros Ht. simpl. split; [|split].
  - apply (run_Sync_visit block_MetaFilename block_ChunksDirname block_IndexFilename
             R_quiet quiet_faults (fun _ _ _ _ => quiet_event _)
             quiet_event quiet_bucket s prev m ups (fun _ => quiet_path _)).
  - apply (run_Sync_visit block_MetaFilename block_ChunksDirname block_IndexFilename
             (R_frame (dir s) (fun c => IsBlockDir c)) (frame_faults _ _)
             (fun _ _ _ _ => frame_event _ _ _)
             (frame_event _ _) (frame_bucket _ _) s prev m ups
             (fun rest => frame_path _ _ _ rest Ht)).
  - destruct (run_Sync_visit block_MetaFilename block_ChunksDirname block_IndexFilename
              (R_events any_event) any_faults (fun _ _ _ _ => any_event_ok _)
              any_event_ok any_bucket s prev m ups (fun _ => any_path _) w)
      as (E & H & _).
    eauto.
Qed.

Lemma iterNames_Sync_visit_events s prev d names ups w :
  exists E, events (iterNames d (Sync_visit s prev) names ups w).2 = events w ++ E.
Proof.
  destruct (run_iterNames IsBlockDir block_MetaFilename (R_events any_event)
              any_faults (fun _ _ _ _ => any_event_ok _) d (Sync_visit s prev) names ups
              (fun m st =>
                 run_Sync_visit block_MetaFilename block_ChunksDirname
                   block_IndexFilename (R_events any_event) any_faults
                   (fun _ _ _ _ => any_event_ok _) any_event_ok any_bucket s prev m st
                   (fun _ => any_path _)) w) as (E & H & _).
  eauto.
Qed.

(** A visit that does not keep the block leaves an error line. *)
Lemma Sync_visit_not_kept s prev m w :
  kept s prev (m, w) = false ->
  exists E e, events (visit_world s prev m w) = events w ++ E ++ [e]
              /\ failure_line e = true.
Proof.
  unfold kept, visit_world, Sync_visit. simpl. intros Hk.
  apply orb_false_iff in Hk as [Hk1 Hk2]. rewrite Hk1.
  unfold mbind, M_bind, try. destruct (sync_events s m w) as [E HE].
  destruct (sync s m w) as [[[]|e] ws]; [done|]. simpl in *.
  eexists E, _. rewrite HE, <- app_assoc. done.
Qed.

(** The first pass, when it logs no failure: every block on disk is kept. *)
Lemma first_pass_ids s prev r0 es0 names :
  IsBlockDir "thanos" = false ->
  lookup_path (dir s) r0 = Some (Dir es0) ->
  forall ups w,
    same_under (dir s) (fun c => IsBlockDir c) r0 (root w) ->
    faults w = [] ->
    Forall (fun e => failure_line e = false)
      (new_events w (iterNames (dir s) (Sync_visit s prev) names ups w).2) ->
    (iterNames (dir s) (Sync_visit s prev) names ups w).1
    = Ok (ups ++ map BlockULID (omap (localBlock (dir s) r0) names)).
Proof.
  intros Ht Hd0. induction names as [|n names IH]; intros ups w Hfr Hq Hcl.
  - simpl. by rewrite app_nil_r.
  - simpl iterNames in *.
    destruct (loadBlock_total (dir s) n w) as (r & w1 & Hl).
    pose proof (loadBlock_quiet (dir s) n w Hq) as Hr.
    destruct (loadBlock_footprint (dir s) n w) as (Hq1 & Hr1 & _ & E1 & HE1 & _).
    rewrite Hl in Hr, Hq1, Hr1, HE1. simpl in Hr, Hq1, Hr1, HE1.
    rewrite (localBlock_frame _ _ _ _ n Hd0 Hfr) in Hr. inversion Hr; subst r.
    rewrite (bind_Ok _ _ _ _ _ Hl) in Hcl. rewrite (bind_Ok _ _ _ _ _ Hl).
    destruct (localBlock (dir s) r0 n) as [m|] eqn:Eb.
    + rewrite (bind_Ok _ _ _ _ _ (Sync_visit_result s prev m ups w1)) in Hcl.
      rewrite (bind_Ok _ _ _ _ _ (Sync_visit_result s prev m ups w1)).
      destruct (Sync_visit_footprint s prev m [] w1 Ht) as (Hq2 & Hfr2 & E2 & HE2).
      fold (visit_world s prev m w1) in Hq2, Hfr2, HE2.
      set (w2 := visit_world s prev m w1) in *.
      apply (clean_split _ w w1) with (E1 := E1) in Hcl as [_ Hcl];
        [| done
         | destruct (iterNames_Sync_visit_events s prev (dir s) names
                       (ups ++ if kept s prev (m, w1) then [BlockULID m] else []) w2)
             as [E3 HE3]; exists (E2 ++ E3); by rewrite HE3, HE2, app_assoc ].
      destruct (kept s prev (m, w1)) eqn:Ek.
      * apply (clean_split _ w1 w2) with (E1 := E2) in Hcl as [_ Hcl];
          [| done | apply iterNames_Sync_visit_events ].
        rewrite IH; [| | by auto | done].
        -- cbn. rewrite Eb. simpl. by rewrite <- app_assoc.
        -- eapply same_under_trans; [exact Hfr|]. by rewrite <- Hr1.
      * exfalso. destruct (Sync_visit_not_kept s prev m w1 Ek) as (E & e & HEe & Hfl).
        fold w2 in HEe.
        apply (clean_split _ w1 w2) with (E1 := E ++ [e]) in Hcl as [Hcl _];
          [| done | apply iterNames_Sync_visit_events ].
        apply Forall_app in Hcl as [_ Hcl]. inversion Hcl; subst. congruence.
    + apply (clean_split _ w w1) with (E1 := E1) in Hcl as [_ Hcl];
        [| done | apply iterNames_Sync_visit_events ].
      rewrite IH; [| by rewrite Hr1 | by auto | done].
      cbn. by rewrite Eb.
Qed.


Lemma WriteMetaFile_events d meta w :
  exists E, events (WriteMetaFile d meta w).2 = events w ++ E /\ Forall is_log E.
Proof.
  apply (run_WriteMetaFile (R_events is_log) (events_faults _)
           (fun lvl msg b e => events_event is_log (EvLog lvl msg b e) I)
           d meta (events_path _ _) (events_path _ _) w).
Qed.

(** The blocks on disk in [w], as one pass without failures loads them. *)
Definition local_ids (s : Shipper) (r : node) (es : list (string * node)) : list ULID :=
  map BlockULID (omap (localBlock (dir s) r) (map fst es)).

(** A pass that logs no failure has listed the directory, kept every block
    on disk and written the record. *)
Lemma Sync_pass_clean s meta w :
  IsBlockDir "thanos" = false ->
  faults w = [] ->
  Forall (fun e => failure_line e = false) (new_events w (Sync_pass s meta w).2) ->
  exists es0 w3,
    lookup_path (dir s) (root w) = Some (Dir es0)
    /\ WriteMetaFile (dir s) (mkMeta (Version meta) (local_ids s (root w) es0)) w3
       = (Ok tt, (Sync_pass s meta w).2).
Proof.
  intros Ht Hq Hcl. unfold Sync_pass in *. unfold iterBlockMetas in *.
  destruct (lookup_path (dir s) (root w)) as [[data|es0]|] eqn:Ed.
  1,3: exfalso;
    assert (HR : exists e, fileutil.ReadDir (dir s) w = (Err e, w))
      by (unfold fileutil.ReadDir; rewrite fallible_passes by (by apply passes_quiet);
          rewrite after_draw_quiet by done; simpl; rewrite Ed; eauto);
    destruct HR as [e HR];
    erewrite bind_Ok in Hcl
      by (apply try_run; apply bind_Err; by apply wrap_Err);
    simpl in Hcl; unfold new_events in Hcl; simpl in Hcl;
    rewrite drop_app_length in Hcl; inversion Hcl; subst; discriminate.
  pose proof (ReadDir_at (dir s) w es0 (passes_quiet _ Hq) Ed) as HR.
  rewrite after_draw_quiet in HR by done.
  set (prev := list_to_set (Uploaded meta) : gset ULID) in *.
  destruct (iterNames (dir s) (Sync_visit s prev) (map fst es0) [] w) as [r3 w3] eqn:E3.
  assert (Hit : (names ← wrap "read dir" (fileutil.ReadDir (dir s));
                 iterNames (dir s) (Sync_visit s prev) names []) w = (r3, w3)).
  { by rewrite (bind_Ok _ _ _ _ _ (wrap_Ok _ _ _ _ _ HR)). }
  rewrite (bind_Ok _ _ _ _ _ (try_run _ _ _ _ Hit)) in Hcl.
  rewrite (bind_Ok _ _ _ _ _ (try_run _ _ _ _ Hit)).
  destruct (iterNames_Sync_visit_events s prev (dir s) (map fst es0) [] w) as [Ei HEi].
  rewrite E3 in HEi. simpl in HEi.
  destruct (iterNames_Sync_visit_total s prev (dir s) (map fst es0) [] w)
    as (ups & w3' & Htot).
  rewrite E3 in Htot. inversion Htot; subst r3 w3'. clear Htot.
  destruct (WriteMetaFile_events (dir s) (mkMeta (Version meta) ups) w3)
    as (Ew & HEw & _).
  destruct (WriteMetaFile (dir s) (mkMeta (Version meta) ups) w3)
    as [[[]|e] w4] eqn:EW; simpl in HEw.
  - rewrite (bind_Ok _ _ _ _ _ (try_run _ _ _ _ EW)) in Hcl.
    rewrite (bind_Ok _ _ _ _ _ (try_run _ _ _ _ EW)). simpl in *.
    apply (clean_split _ w w3 w4 Ei HEi) in Hcl as [HclI _]; [|eauto].
    assert (Hids : (iterNames (dir s) (Sync_visit s prev) (map fst es0) [] w).1
                   = Ok ([] ++ local_ids s (root w) es0)).
    { eapply first_pass_ids; try done; [apply same_under_refl|].
      rewrite E3. simpl.
      by rewrite (new_events_ext w w3 Ei HEi). }
    rewrite E3 in Hids. simpl in Hids. inversion Hids; subst ups.
    exists es0, w3. done.
  - exfalso. rewrite (bind_Ok _ _ _ _ _ (try_run _ _ _ _ EW)) in Hcl. simpl in Hcl.
    unfold new_events in Hcl. simpl in Hcl.
    rewrite HEw, HEi, <- !app_assoc, drop_app_length in Hcl.
    apply Forall_app in Hcl as [_ Hcl]. apply Forall_app in Hcl as [_ Hcl].
    inversion Hcl; subst. discriminate.
Qed.



End Claims.

(** * Further properties of the package

    What follows covers the parts of the package the theorems above pass
    over: the bookkeeping file as a pair of reader and writer, the scanner
    [iterBlockMetas], the staging by [hardlinkBlock], the cleaning up of
    [sync], and what [Sync] and [Timestamps] do and never do to the
    directory and the bucket. *)

(** ** Calls that fail leave the tree alone *)

Lemma fallible_Err_inv {A} op (c : M A) w e w1 :
  fallible op c w = (Err e, w1) ->
  (root w1 = root w /\ bucket w1 = bucket w /\ events w1 = events w)
  \/ (passes w /\ c (after_draw w) = (Err e, w1)).
Proof.
  unfold fallible, mbind, M_bind, draw, passes, after_draw, throw.
  destruct w as [r b ev [|[k|] fs]]; simpl.
  - intros H. right. done.
  - intros [= <- <-]. left. done.
  - intros H. right. done.
Qed.

Lemma fs_update_Err g w e w1 : fs_update g w = (Err e, w1) -> w1 = w.
Proof. unfold fs_update. destruct (g (root w)); [done|]. by intros [= _ <-]. Qed.

Lemma Create_Err_root p w e w1 : os.Create p w = (Err e, w1) -> root w1 = root w.
Proof.
  unfold os.Create. intros H. apply fallible_Err_inv in H as [(H & _)|[_ H]]; [done|].
  unfold mbind, M_bind in H.
  destruct (fs_update _ (after_draw w)) as [[u|e'] w2] eqn:E; [done|].
  apply fs_update_Err in E. inversion H; subst. done.
Qed.

Lemma RemoveAll_Err_root p w e w1 :
  os.RemoveAll p w = (Err e, w1) -> root w1 = root w.
Proof.
  unfold os.RemoveAll. intros H. apply fallible_Err_inv in H as [(H & _)|[_ H]]; [done|].
  apply fs_update_Err in H. by subst.
Qed.

Lemma Rename_Err_root from to w e w1 :
  os.Rename from to w = (Err e, w1) -> root w1 = root w.
Proof.
  unfold os.Rename. intros H. apply fallible_Err_inv in H as [(H & _)|[_ H]]; [done|].
  unfold mbind, M_bind, get_root in H. simpl in H.
  destruct (lookup_path from (root w)).
  - apply fs_update_Err in H. by subst.
  - unfold throw in H. inversion H. done.
Qed.

(** The calls that never write to the tree. *)
Lemma Close_root f w : root (os.Close f w).2 = root w.
Proof. apply (run_Close R_root root_faults). Qed.

Lemma CloseWithLogOnErr_root f msg w : root (CloseWithLogOnErr f msg w).2 = root w.
Proof.
  apply (run_CloseWithLogOnErr R_root root_faults (fun _ _ _ _ => root_event _)).
Qed.

(** The end of [renameFile], from the point where the rename is done. *)
Lemma renameFile_tail_root (to : path) w :
  root ((pdir ← fileutil.OpenDir (filepath_Dir to);
         r ← try (fileutil.Fsync pdir);
         match r with
         | Err e => CloseWithLogOnErr pdir "rename file dir close";; throw e
         | Ok _ => os.Close pdir
         end) w).2 = root w.
Proof.
  revert w. change (run R_root (pdir ← fileutil.OpenDir (filepath_Dir to);
         r ← try (fileutil.Fsync pdir);
         match r with
         | Err e => CloseWithLogOnErr pdir "rename file dir close";; throw e
         | Ok _ => os.Close pdir
         end)).
  apply (run_bind R_root); [apply (run_OpenDir R_root root_faults) | intros pdir].
  apply (run_bind R_root);
    [apply (run_try R_root), (run_Fsync R_root root_faults) | intros [|e]].
  - apply (run_Close R_root root_faults).
  - apply (run_bind R_root); [| intros _; apply (run_throw R_root)].
    apply (run_CloseWithLogOnErr R_root root_faults). intros. apply root_event.
Qed.

(** [renameFile] of a file inside one directory: at the end the target name
    holds what it held, nothing, or the renamed file; a call that returns
    nil has put the file there and freed the old name. *)
Lemma renameFile_outcome d a b w es data :
  lookup_path d (root w) = Some (Dir es) ->
  assoc a es = Some (File data) ->
  String.eqb a b = false ->
  let r := (renameFile (d ++ [a]) (d ++ [b]) w).1 in
  let w' := (renameFile (d ++ [a]) (d ++ [b]) w).2 in
  (lookup_path (d ++ [b]) (root w') = assoc b es
   \/ lookup_path (d ++ [b]) (root w') = None
   \/ lookup_path (d ++ [b]) (root w') = Some (File data))
  /\ (r = Ok tt ->
      lookup_path d (root w')
      = Some (Dir (entry_put b (File data) (entry_del a (entry_del b es))))).
Proof.
  intros Hd Ha Hab. simpl. unfold renameFile.
  destruct (os.RemoveAll (d ++ [b]) w) as [[[]|e] w1] eqn:ER.
  2:{ rewrite (bind_Err _ _ _ _ _ ER). simpl.
      apply RemoveAll_Err_root in ER. rewrite ER, lookup_path_snoc, Hd.
      split; [by left | done]. }
  rewrite (bind_Ok _ _ _ _ _ ER).
  pose proof (proj1 (fallible_Ok_inv _ _ _ _ _ ER)) as Hp.
  destruct (RemoveAll_at d w es Hp Hd b) as (n1 & HR & Hl1).
  rewrite HR in ER. inversion ER; subst w1. clear ER HR.
  set (W1 := set_root n1 (after_draw w)) in *.
  destruct (os.Rename (d ++ [a]) (d ++ [b]) W1) as [[[]|e] w2] eqn:EN.
  2:{ rewrite (bind_Err _ _ _ _ _ EN). simpl.
      apply Rename_Err_root in EN. rewrite EN. simpl.
      rewrite lookup_path_snoc, Hl1, assoc_entry_del, String.eqb_refl.
      split; [by right; left | done]. }
  rewrite (bind_Ok _ _ _ _ _ EN).
  pose proof (proj1 (fallible_Ok_inv _ _ _ _ _ EN)) as Hp2.
  edestruct (Rename_at d W1 _ Hp2 Hl1 a b data) as (n2 & HN & Hl2).
  { by rewrite assoc_entry_del, Hab. }
  { rewrite !assoc_entry_del, String.eqb_refl. by destruct (String.eqb b a). }
  rewrite HN in EN. inversion EN; subst w2. clear EN HN.
  rewrite renameFile_tail_root. simpl.
  rewrite lookup_path_snoc, Hl2, assoc_entry_put, String.eqb_refl.
  split; [by right; right | done].
Qed.

Lemma Create_Ok_at d c w f w1 :
  os.Create (d ++ [c]) w = (Ok f, w1) ->
  exists es, lookup_path d (root w) = Some (Dir es)
    /\ lookup_path d (root w1) = Some (Dir (entry_put c (File "") es))
    /\ f = d ++ [c].
Proof.
  intros EC. destruct (Create_Ok_inv _ _ _ _ _ EC) as (Hp & es & Hd).
  exists es. split; [done|].
  pose proof (Create_at d w es Hp Hd c) as HCa.
  destruct (assoc c es) as [[|]|]; try (rewrite HCa in EC; discriminate);
    destruct HCa as (n1 & HCa & Hl1); rewrite HCa in EC; by inversion EC; subst.
Qed.

Lemma Write_Ok_at d c data w u w1 es :
  lookup_path d (root w) = Some (Dir es) ->
  os.Write (d ++ [c]) data w = (Ok u, w1) ->
  lookup_path d (root w1) = Some (Dir (entry_put c (File data) es)).
Proof.
  intros Hd EW. pose proof (Write_Ok_inv _ _ _ _ _ EW) as Hp.
  destruct (Write_at d w es Hp Hd c data) as (n & HW & Hl).
  rewrite HW in EW. by inversion EW; subst.
Qed.

Lemma ReadFile_inv p w :
  match (os.ReadFile p w).1 with
  | Ok b => lookup_path p (root w) = Some (File b)
  | Err e => os_IsNotExist e = true -> lookup_path p (root w) = None
  end.
Proof.
  unfold os.ReadFile, fallible, mbind, M_bind, draw, throw.
  destruct (faults w) as [|[k|] fs]; simpl; try done;
    by destruct (lookup_path p (root w)) as [[|]|].
Qed.

Lemma then_throw_not_Ok {A B} (c : M A) (e : error) w :
  is_Ok ((c;; throw (A:=B) e) w).1 = false.
Proof. unfold mbind, M_bind, throw. by destruct (c w) as [[|] ?]. Qed.

(** The atomic writer under any schedule of failures: the target name ends
    up holding what it held, nothing, or all the new bytes. *)
Lemma write_atomic_outcome d name data w :
  let r := (write_atomic d name data w).1 in
  let w' := (write_atomic d name data w).2 in
  (lookup_path (d ++ [name]) (root w') = lookup_path (d ++ [name]) (root w)
   \/ lookup_path (d ++ [name]) (root w') = None
   \/ lookup_path (d ++ [name]) (root w') = Some (File data))
  /\ (r = Ok tt -> lookup_path (d ++ [name]) (root w') = Some (File data)).
Proof.
  simpl. unfold write_atomic. set (tmp := name +:+ ".tmp").
  destruct (os.Create (d ++ [tmp]) w) as [[f|e] w1] eqn:EC.
  2:{ rewrite (bind_Err _ _ _ _ _ EC). simpl. apply Create_Err_root in EC.
      rewrite EC. split; [by left | done]. }
  rewrite (bind_Ok _ _ _ _ _ EC).
  apply Create_Ok_at in EC as (es & Hd & Hd1 & ->).
  assert (Hold : lookup_path (d ++ [name]) (root w) = assoc name es)
    by (by rewrite lookup_path_snoc, Hd).
  rewrite Hold.
  destruct (os.Write (d ++ [tmp]) data w1) as [[[]|e] w2] eqn:EW;
    rewrite (bind_Ok _ _ _ _ _ (try_run _ _ _ _ EW)).
  2:{ pose proof (then_throw_not_Ok (B:=unit)
        (CloseWithLogOnErr (d ++ [tmp]) "write meta file close") e w2) as Hno.
      pose proof (run_bind R_root _ (fun _ => throw (A:=unit) e)
        (run_CloseWithLogOnErr R_root root_faults (fun _ _ _ _ => root_event _)
           (d ++ [tmp]) "write meta file close")
        (fun _ => run_throw R_root e) w2) as Hroot.
      destruct ((CloseWithLogOnErr _ _;; throw e) w2) as [r3 w3]. simpl in *.
      unfold R_root in Hroot. rewrite Hroot. split; [|by intros ->].
      left.
      pose proof (run_Write (R_frame d (fun c => String.eqb c name)) (frame_faults _ _)
        (d ++ [tmp]) data
        (frame_path d (fun c => String.eqb c name) tmp [] (tmp_name_ne name)) w1) as Hfr.
      rewrite EW in Hfr. simpl in Hfr. destruct (Hfr _ Hd1) as (es2 & Hd2 & _ & Ha2).
      rewrite lookup_path_snoc, Hd2, Ha2 by apply String.eqb_refl.
      by rewrite assoc_entry_put, name_tmp_ne. }
  pose proof (Write_Ok_at _ _ _ _ _ _ _ Hd1 EW) as Hd2. clear EW.
  set (es2 := entry_put tmp (File data) (entry_put tmp (File "") es)) in *.
  assert (Ha2 : assoc name es2 = assoc name es).
  { unfold es2. by rewrite !assoc_entry_put, name_tmp_ne. }
  pose proof (Close_root (d ++ [tmp]) w2) as Hr3.
  destruct (os.Close (d ++ [tmp]) w2) as [[[]|e] w3] eqn:ECl; simpl in Hr3.
  2:{ rewrite (bind_Err _ _ _ _ _ ECl). simpl.
      rewrite Hr3, lookup_path_snoc, Hd2. split; [by left | done]. }
  rewrite (bind_Ok _ _ _ _ _ ECl). rewrite <- Hr3 in Hd2.
  destruct (renameFile_outcome d tmp name w3 es2 data Hd2) as [Hout Hok].
  { unfold es2. by rewrite assoc_entry_put, String.eqb_refl. }
  { apply tmp_name_ne. }
  simpl in Hout, Hok. rewrite Ha2 in Hout. split; [exact Hout|].
  intros Hr. rewrite lookup_path_snoc, (Hok Hr), assoc_entry_put, String.eqb_refl. done.
Qed.

(** ** More on the tree *)

(** Removing leaves nothing at the path. *)
Lemma modify_remove_lookup p n n' :
  p <> [] ->
  modify MSkip (fun _ => Ok None) p n = Ok n' -> lookup_path p n' = None.
Proof.
  revert n n'. induction p as [|c p IH]; intros n n' Hne Hm; [done|].
  destruct p as [|c2 p].
  - rewrite modify_last in Hm. destruct n as [|es]; inversion Hm; subst; [done|].
    simpl. by rewrite assoc_entry_del, String.eqb_refl.
  - rewrite modify_cons in Hm by done. destruct n as [|es]; [by inversion Hm; subst|].
    destruct (assoc c es) as [ch|] eqn:Ec.
    + destruct (modify MSkip _ (c2 :: p) ch) as [ch'|] eqn:E; [|done].
      inversion Hm; subst. simpl lookup_path at 1.
      rewrite assoc_entry_put, String.eqb_refl. by eapply IH.
    + inversion Hm; subst. simpl. by rewrite Ec.
Qed.

(** An operation that leaves every entry it finds as it is (it may only add
    entries) keeps every file of the tree, with its bytes. *)
Lemma modify_keeps_files pol f p n n' q y :
  (forall cur x, f (Some cur) = Ok x -> x = Some cur) ->
  modify pol f p n = Ok n' ->
  lookup_path q n = Some (File y) -> lookup_path q n' = Some (File y).
Proof.
  intros Hf. revert n n' q. induction p as [|c p IH]; intros n n' q Hm Hq; [done|].
  destruct q as [|c' q].
  { simpl in Hq. inversion Hq; subst n. destruct p; simpl in Hm;
      destruct pol; by inversion Hm; subst. }
  destruct n as [|es]; [done|]. simpl in Hq.
  destruct (assoc c' es) as [ch0|] eqn:Ec'; [|done].
  destruct p as [|c2 p].
  - rewrite modify_last in Hm.
    destruct (f (assoc c es)) as [x|] eqn:Ef; [|done]. inversion Hm; subst.
    simpl. rewrite assoc_entry_set.
    destruct (String.eqb c' c) eqn:E; [|by rewrite Ec'].
    apply String.eqb_eq in E. subst c'. rewrite Ec' in Ef.
    apply Hf in Ef. by subst x.
  - rewrite modify_cons in Hm by done.
    destruct (assoc c es) as [ch|] eqn:Ec.
    + destruct (modify pol f (c2 :: p) ch) as [ch'|] eqn:E; [|done].
      inversion Hm; subst. simpl. rewrite assoc_entry_put.
      destruct (String.eqb c' c) eqn:E'; [|by rewrite Ec'].
      apply String.eqb_eq in E'. subst c'. rewrite Ec in Ec'. inversion Ec'; subst.
      by eapply IH.
    + assert (Hcc : String.eqb c' c = false).
      { apply String.eqb_neq. intros ->. congruence. }
      destruct pol; [done| |by inversion Hm; subst; simpl; rewrite Ec'].
      destruct (modify MCreate f (c2 :: p) (Dir [])) as [ch'|] eqn:E; [|done].
      inversion Hm; subst. simpl. by rewrite assoc_entry_put, Hcc, Ec'.
Qed.

(** Inside a directory that was there, a name that is kept leads to the
    same node before and after. *)
Lemma same_under_lookup_eq d keep n n' es c q :
  same_under d keep n n' -> lookup_path d n = Some (Dir es) -> keep c = true ->
  lookup_path (d ++ c :: q) n' = lookup_path (d ++ c :: q) n.
Proof.
  intros Hs Hd Hk. rewrite !lookup_path_app, Hd.
  destruct (Hs es Hd) as (es' & -> & _ & Ha). simpl. by rewrite Ha.
Qed.



Lemma MkdirAll_keeps_files p w u w1 q y :
  os.MkdirAll p w = (Ok u, w1) ->
  lookup_path q (root w) = Some (File y) -> lookup_path q (root w1) = Some (File y).
Proof.
  unfold os.MkdirAll. intros H. apply fallible_Ok_inv in H as [_ H].
  destruct p; [by inversion H; subst|].
  apply fs_update_Ok_inv in H as (n & Hm & ->). simpl.
  eapply modify_keeps_files; [|exact Hm]. by intros [|] x [= <-].
Qed.

Lemma Link_Ok_file src dst w u w1 :
  os.Link src dst w = (Ok u, w1) ->
  exists data, lookup_path src (root w) = Some (File data)
    /\ modify MFail (create (File data)) dst (root w) = Ok (root w1).
Proof.
  unfold os.Link. intros H. apply fallible_Ok_inv in H as [_ H].
  apply bind_Ok_inv in H as (r & w2 & Hr & H). inversion Hr; subst r w2. simpl in H.
  destruct (lookup_path src (root w)) as [[data|]|]; try done.
  apply fs_update_Ok_inv in H as (n & Hm & ->). simpl in Hm. eauto.
Qed.

(** Links that all succeed: no file of the tree has changed, and each link
    is a file with the bytes of its source. *)
Lemma links_faithful src dst (l : list path) w w' :
  forM_ l (fun fn => wrap "hard link file" (os.Link (src ++ fn) (dst ++ fn))) w
  = (Ok tt, w') ->
  (forall q y, lookup_path q (root w) = Some (File y) ->
               lookup_path q (root w') = Some (File y))
  /\ (forall fn, fn ∈ l -> exists data,
        lookup_path (src ++ fn) (root w') = Some (File data)
        /\ lookup_path (dst ++ fn) (root w') = Some (File data)).
Proof.
  revert w. induction l as [|p l IH]; intros w H; simpl in H.
  - inversion H; subst. split; [done|]. intros fn Hfn. by apply elem_of_nil in Hfn.
  - apply bind_Ok_inv in H as ([] & w1 & HL & H). apply wrap_Ok_inv in HL.
    apply Link_Ok_file in HL as (data & Hsrc & Hm). destruct (IH _ H) as [Hkeep Hnew].
    assert (Hstep : forall q y, lookup_path q (root w) = Some (File y) ->
                                lookup_path q (root w1) = Some (File y)).
    { intros q y Hq. eapply modify_keeps_files; [|exact Hm|exact Hq]. by intros cur x. }
    split; [by auto|].
    intros fn Hfn. apply elem_of_cons in Hfn as [->|Hfn]; [|auto].
    exists data. split; [by auto|]. apply Hkeep. by eapply modify_create_lookup.
Qed.

Lemma assoc_None_names c es : c ∉ map fst es -> assoc c es = None.
Proof.
  induction es as [|[k v] es IH]; simpl; [done|]. intros Hn.
  apply not_elem_of_cons in Hn as [Hne Hn].
  destruct (String.eqb c k) eqn:E; [|auto]. by apply String.eqb_eq in E.
Qed.

Lemma assoc_NoDup k v es : NoDup (map fst es) -> (k, v) ∈ es -> assoc k es = Some v.
Proof.
  induction es as [|[k' v'] es IH]; simpl; intros Hnd Hin.
  - by apply elem_of_nil in Hin.
  - apply NoDup_cons in Hnd as [Hk' Hnd].
    apply elem_of_cons in Hin as [[= -> ->]|Hin]; [by rewrite String.eqb_refl|].
    destruct (String.eqb k k') eqn:E; [|auto].
    apply String.eqb_eq in E. subst k'. destruct Hk'.
    apply list_elem_of_fmap. by exists (k, v).
Qed.

Lemma forM__app {A} (l1 l2 : list A) (f : A -> M unit) w :
  forM_ (l1 ++ l2) f w = (forM_ l1 f;; forM_ l2 f) w.
Proof.
  revert w. induction l1 as [|x l1 IH]; intros w; simpl; [done|].
  unfold mbind, M_bind in *. destruct (f x w) as [[[]|e] w1]; [apply IH | done].
Qed.

(** The calls of the staging in a world with no failure to come. *)
Section QuietCalls.

Variables (d : path) (w : World) (es : list (string * node)).
Hypothesis Hq : faults w = [].
Hypothesis Hdir : lookup_path d (root w) = Some (Dir es).

Lemma MkdirAll_new c :
  assoc c es = None ->
  exists n, os.MkdirAll (d ++ [c]) w = (Ok tt, set_root n w)
            /\ lookup_path d n = Some (Dir (entry_put c (Dir []) es)).
Proof.
  intros Hc. unfold os.MkdirAll. rewrite fallible_passes by (by apply passes_quiet).
  rewrite after_draw_quiet by done.
  destruct (d ++ [c]) as [|c0 p0] eqn:E; [by destruct d|]. rewrite <- E.
  unfold fs_update.
  match goal with |- context [modify MCreate ?g _ _] =>
    pose proof (modify_at MCreate g d c (root w) es Hdir) as H end.
  rewrite Hc in H. simpl in H. destruct H as (n & -> & Hl). eauto.
Qed.

Lemma Link_new src c data :
  lookup_path src (root w) = Some (File data) ->
  assoc c es = None ->
  exists n, os.Link src (d ++ [c]) w = (Ok tt, set_root n w)
            /\ lookup_path d n = Some (Dir (entry_put c (File data) es)).
Proof.
  intros Hs Hc. unfold os.Link. rewrite fallible_passes by (by apply passes_quiet).
  rewrite after_draw_quiet by done.
  unfold mbind, M_bind, get_root. rewrite Hs. unfold fs_update.
  match goal with |- context [modify MFail ?g _ _] =>
    pose proof (modify_at MFail g d c (root w) es Hdir) as H end.
  rewrite Hc in H. simpl in H. destruct H as (n & -> & Hl). eauto.
Qed.

Lemma ReadDir_quiet : fileutil.ReadDir d w = (Ok (map fst es), w).
Proof.
  rewrite (ReadDir_at d w es (passes_quiet _ Hq) Hdir). by rewrite after_draw_quiet.
Qed.

Lemma RemoveAll_quiet c :
  exists n, os.RemoveAll (d ++ [c]) w = (Ok tt, set_root n w)
            /\ lookup_path d n = Some (Dir (entry_del c es)).
Proof.
  destruct (RemoveAll_at d w es (passes_quiet _ Hq) Hdir c) as (n & H & Hl).
  rewrite after_draw_quiet in H by done. eauto.
Qed.

End QuietCalls.

(** ** More on the bucket *)

Lemma Exists_Ok_inv name w ok w1 :
  objstore.Exists name w = (Ok ok, w1) ->
  ok = bool_decide (is_Some (bucket w !! name)) /\ bucket w1 = bucket w.
Proof.
  unfold objstore.Exists, emit, fallible, draw, mbind, M_bind, throw. simpl.
  destruct (faults w) as [|[k|] fs]; simpl; intros H; inversion H; subst; done.
Qed.

Lemma Upload_Ok_inv name data w u w1 :
  objstore.Upload name data w = (Ok u, w1) ->
  bucket w1 = <[name := data]> (bucket w) /\ root w1 = root w.
Proof.
  unfold objstore.Upload, emit, bucket_update, draw, mbind, M_bind, throw. simpl.
  destruct (faults w) as [|[k|] fs]; simpl; intros H; inversion H; subst; done.
Qed.

Lemma UploadFile_Ok_inv src name w u w1 :
  objstore.UploadFile src name w = (Ok u, w1) ->
  exists data, lookup_path src (root w) = Some (File data)
    /\ bucket w1 = <[name := data]> (bucket w) /\ root w1 = root w.
Proof.
  unfold objstore.UploadFile. intros H. apply bind_Ok_inv in H as (data & w2 & HR & H).
  pose proof (ReadFile_inv src w) as Hl. rewrite HR in Hl. simpl in Hl.
  pose proof (run_ReadFile R_still still_faults src w) as (_ & Hb & Hr).
  rewrite HR in Hb, Hr. simpl in Hb, Hr.
  apply Upload_Ok_inv in H as [H1 H2]. exists data. by rewrite H1, H2, Hb, Hr.
Qed.

(** The bucket keeps its objects. *)
Definition R_grow (w w' : World) : Prop :=
  forall o, is_Some (bucket w !! o) -> is_Some (bucket w' !! o).

Global Instance R_grow_preorder : PreOrder R_grow.
Proof. split; unfold R_grow; [by intros w | intros w1 w2 w3; auto]. Qed.

Lemma grow_faults : ok_faults R_grow.
Proof. by intros w f fs _ o. Qed.
Lemma grow_event e : ok_event R_grow e.
Proof. by intros w o. Qed.
Lemma grow_path p : ok_path R_grow p.
Proof. by intros w pol f n _ o. Qed.
Lemma grow_Upload name data : run R_grow (objstore.Upload name data).
Proof.
  intros w o Ho. unfold objstore.Upload, emit, bucket_update, draw, mbind, M_bind, throw.
  destruct (faults w) as [|[k|] fs]; simpl; try done;
    (destruct (decide (name = o)) as [->|Hne];
     [rewrite lookup_insert_eq; eauto | by rewrite lookup_insert_ne]).
Qed.

Lemma bucket_path p : ok_path R_bucket p.
Proof. by intros w pol f n _. Qed.

(** What [sync] defers: the staging directory is removed, a failure to do
    so is logged. *)
Lemma run_cleanup R `{!PreOrder R} (p : path) :
  ok_faults R -> ok_path R p ->
  (forall lvl msg b e, ok_event R (EvLog lvl msg b e)) ->
  run R (r ← try (os.RemoveAll p);
         match r with
         | Err e => log LvError "failed to clean upload directory" None (Some e)
         | Ok _ => mret tt
         end).
Proof.
  intros Hf Hp Hlog.
  apply (run_bind R); [by apply run_try, run_RemoveAll | intros [|e]];
    [by apply run_ret | by apply run_log].
Qed.

(** An operation below a node that is there acts on that node. *)
Lemma modify_below pol f d rest n x x' :
  lookup_path d n = Some x -> rest <> [] ->
  modify pol f rest x = Ok x' ->
  exists n', modify pol f (d ++ rest) n = Ok n' /\ lookup_path d n' = Some x'.
Proof.
  intros Hd Hne Hm. revert n Hd. induction d as [|a d IH]; intros n Hd.
  - simpl in Hd. inversion Hd; subst. simpl. eauto.
  - simpl in Hd. destruct n as [|es0]; [done|].
    destruct (assoc a es0) as [ch|] eqn:Ea; [|done].
    destruct (IH ch Hd) as (ch' & Hch & Hl).
    change ((a :: d) ++ rest) with (a :: (d ++ rest)).
    rewrite modify_cons by (destruct d, rest; done). rewrite Ea, Hch.
    eexists. split; [done|]. simpl. by rewrite assoc_entry_put, String.eqb_refl.
Qed.

(** Uploading a list of files that are there, with no failure to come. *)
Lemma UploadFile_quiet src name w data :
  faults w = [] -> lookup_path src (root w) = Some (File data) ->
  exists w', objstore.UploadFile src name w = (Ok tt, w')
    /\ faults w' = [] /\ root w' = root w
    /\ bucket w' = <[name := data]> (bucket w).
Proof.
  intros Hq Hl. unfold objstore.UploadFile.
  rewrite (bind_Ok _ _ w data w); last first.
  { rewrite ReadFile_passes by (by apply passes_quiet).
    by rewrite Hl, after_draw_quiet. }
  unfold objstore.Upload, draw, emit, bucket_update, mbind, M_bind. rewrite Hq. simpl.
  eexists. split; [done|]. done.
Qed.

Lemma modify_remove_total p n :
  p <> [] -> exists n', modify MSkip (fun _ => Ok None) p n = Ok n'.
Proof.
  revert n. induction p as [|c p IH]; intros n Hne; [done|].
  destruct p as [|c2 p].
  - rewrite modify_last. destruct n; eauto.
  - rewrite modify_cons by done. destruct n as [|es]; [eauto|].
    destruct (assoc c es) as [ch|]; [|eauto].
    destruct (IH ch) as (ch' & ->); eauto.
Qed.

Lemma RemoveAll_gone_quiet p w :
  faults w = [] -> p <> [] ->
  exists n, os.RemoveAll p w = (Ok tt, set_root n w) /\ lookup_path p n = None.
Proof.
  intros Hq Hne. destruct (modify_remove_total p (root w) Hne) as (n & Hm).
  exists n. split; [|by eapply modify_remove_lookup].
  unfold os.RemoveAll. rewrite fallible_passes by (by apply passes_quiet).
  rewrite after_draw_quiet by done. unfold fs_update. by rewrite Hm.
Qed.

Lemma Exists_quiet name w :
  faults w = [] ->
  objstore.Exists name w
  = (Ok (bool_decide (is_Some (bucket w !! name))),
     set_events (events w ++ [EvExists name]) w).
Proof.
  intros Hq. unfold objstore.Exists, emit, fallible, draw, mbind, M_bind. simpl.
  by rewrite Hq.
Qed.

Lemma then_throw_snd {A B} (c : M A) (e : error) w :
  ((c;; throw (A:=B) e) w).2 = (c w).2.
Proof. unfold mbind, M_bind, throw. by destruct (c w) as [[|] ?]. Qed.

Lemma Create_passes d w es c :
  passes w -> lookup_path d (root w) = Some (Dir es) ->
  match assoc c es with Some (Dir _) => False | _ => True end ->
  exists n, os.Create (d ++ [c]) w = (Ok (d ++ [c]), set_root n (after_draw w))
            /\ lookup_path d n = Some (Dir (entry_put c (File "") es)).
Proof.
  intros Hp Hd Hc. pose proof (Create_at d w es Hp Hd c) as H.
  by destruct (assoc c es) as [[|]|].
Qed.

Lemma Write_fails d w es c data k fs :
  faults w = Some k :: fs -> lookup_path d (root w) = Some (Dir es) ->
  exists n, os.Write (d ++ [c]) data w = (Err (EIO "write"), set_root n (set_faults fs w))
            /\ lookup_path d n
               = Some (Dir (entry_put c (File (String.substring 0 k data)) es)).
Proof.
  intros Hf Hd. unfold os.Write, mbind, M_bind, draw. rewrite Hf. unfold fs_update.
  simpl.
  match goal with |- context [modify MFail ?g _ _] =>
    pose proof (modify_at MFail g d c (root w) es Hd) as H end.
  simpl in H. destruct H as (n & -> & Hl). eauto.
Qed.

Section Package.

Context `{!JSON Meta, !JSON BlockMeta}.
Variable IsBlockDir : string -> bool.
Variables block_MetaFilename block_ChunksDirname block_IndexFilename : string.

Local Abbreviation sync := (sync block_MetaFilename block_ChunksDirname block_IndexFilename).
Local Abbreviation Sync_visit :=
  (Sync_visit block_MetaFilename block_ChunksDirname block_IndexFilename).
Local Abbreviation Sync_pass :=
  (Sync_pass IsBlockDir block_MetaFilename block_ChunksDirname block_IndexFilename).
Local Abbreviation Sync := (Sync IsBlockDir block_MetaFilename block_ChunksDirname block_IndexFilename).
Local Abbreviation Timestamps := (Timestamps IsBlockDir block_MetaFilename).
Local Abbreviation loadBlock := (loadBlock IsBlockDir block_MetaFilename).
Local Abbreviation iterNames := (iterNames IsBlockDir block_MetaFilename).
Local Abbreviation iterBlockMetas := (iterBlockMetas IsBlockDir block_MetaFilename).
Local Abbreviation hardlinkBlock :=
  (hardlinkBlock block_MetaFilename block_ChunksDirname block_IndexFilename).
Local Abbreviation localBlock := (localBlock IsBlockDir block_MetaFilename).

(** ** The bookkeeping file: writer and reader *)

(** X1. With no failure to come, in a directory that exists and in which the
    temporary name is not taken by a directory, [WriteMetaFile] returns nil
    whatever the target name held (a file, a directory, nothing). After it
    [ReadMetaFile] returns the record that was written when its version is
    1, and the error of an unexpected version otherwise: the writer does
    not check what the reader will refuse. The temporary file is gone, the
    other entries of the directory, the bucket and the trace are as
    before. *)
Theorem WriteMetaFile_then_ReadMetaFile (d : path) (meta : Meta) (w : World)
    (es : list (string * node)) :
  faults w = [] ->
  lookup_path d (root w) = Some (Dir es) ->
  match assoc (MetaFilename +:+ ".tmp") es with Some (Dir _) => False | _ => True end ->
  exists w',
    WriteMetaFile d meta w = (Ok tt, w')
    /\ ReadMetaFile d w'
       = ((if bool_decide (Version meta = 1) then Ok meta
           else Err (EVersion (Version meta))), w')
    /\ lookup_path (d ++ [MetaFilename +:+ ".tmp"]) (root w') = None
    /\ (forall c, c <> MetaFilename -> c <> MetaFilename +:+ ".tmp" ->
          lookup_path (d ++ [c]) (root w') = lookup_path (d ++ [c]) (root w))
    /\ bucket w' = bucket w /\ events w' = events w.
Proof.
  intros Hq Hd Ht. rewrite WriteMetaFile_write_atomic.
  destruct (write_atomic_quiet d MetaFilename (marshal meta) w es Hq Hd Ht)
    as (n & HW & Hn).
  exists (set_root n w). split; [exact HW|].
  assert (Hfile : lookup_path (d ++ [MetaFilename]) (root (set_root n w))
                  = Some (File (marshal meta))).
  { simpl. by rewrite lookup_path_snoc, Hn, assoc_atomic_entries, String.eqb_refl. }
  assert (Hp : passes (set_root n w)) by (by apply passes_quiet).
  assert (Had : after_draw (set_root n w) = set_root n w)
    by (by apply after_draw_quiet).
  split; [|split; [|split; [|done]]].
  - rewrite <- Had at 2. destruct (decide (Version meta = 1)) as [Hv|Hv].
    + rewrite bool_decide_true by done.
      by apply (ReadMetaFile_good d _ (marshal meta)); [| |apply unmarshal_marshal|].
    + rewrite bool_decide_false by done.
      by apply (ReadMetaFile_version d _ (marshal meta)); [| |apply unmarshal_marshal|].
  - simpl. by rewrite lookup_path_snoc, Hn, assoc_atomic_entries, tmp_name_ne,
      String.eqb_refl.
  - intros c Hc1 Hc2. simpl. rewrite !lookup_path_snoc, Hn, Hd, assoc_atomic_entries.
    apply String.eqb_neq in Hc1, Hc2. by rewrite Hc1, Hc2.
Qed.

(** X2. [ReadMetaFile] only reads: whatever it returns, the tree, the
    bucket and the trace are as before. A record it returns has version 1
    and is what the bytes of the file decode to; the error it returns
    satisfies [os.IsNotExist] only when there is no file of that name. *)
Theorem ReadMetaFile_reads_the_file (d : path) (w : World) :
  let r := (ReadMetaFile d w).1 in
  let w' := (ReadMetaFile d w).2 in
  root w' = root w /\ bucket w' = bucket w /\ events w' = events w
  /\ match r with
     | Ok m =>
         Version m = 1
         /\ exists b, lookup_path (d ++ [MetaFilename]) (root w) = Some (File b)
                      /\ unmarshal b = Some m
     | Err e =>
         os_IsNotExist e = true -> lookup_path (d ++ [MetaFilename]) (root w) = None
     end.
Proof.
  simpl.
  pose proof (run_ReadMetaFile R_still still_faults d w) as (He & Hb & Hr).
  split; [done|]. split; [done|]. split; [done|].
  unfold ReadMetaFile, mbind, M_bind.
  pose proof (ReadFile_inv (d ++ [MetaFilename]) w) as HR.
  destruct (os.ReadFile (d ++ [MetaFilename]) w) as [[b|e] w1]; simpl in *; [|done].
  destruct (unmarshal b) as [m|] eqn:Eu; simpl; [|done].
  destruct (bool_decide (Version m ≠ 1)) eqn:Ev; simpl; [done|].
  split; [|by eauto]. apply bool_decide_eq_false in Ev.
  by destruct (decide (Version m = 1)).
Qed.

(** X3. Under any schedule of failures and in any tree, [WriteMetaFile]
    leaves at the target path what was there, nothing, or a file with all
    the bytes of the new record: never a part of them (a write that fails
    half-way has written to the temporary file). When it returns nil the
    new record is there. The bucket is not touched. *)
Theorem WriteMetaFile_never_partial (d : path) (meta : Meta) (w : World) :
  let target := d ++ [MetaFilename] in
  let r := (WriteMetaFile d meta w).1 in
  let w' := (WriteMetaFile d meta w).2 in
  (lookup_path target (root w') = lookup_path target (root w)
   \/ lookup_path target (root w') = None
   \/ lookup_path target (root w') = Some (File (marshal meta)))
  /\ (r = Ok tt -> lookup_path target (root w') = Some (File (marshal meta)))
  /\ bucket w' = bucket w.
Proof.
  simpl. rewrite WriteMetaFile_write_atomic.
  destruct (write_atomic_outcome d MetaFilename (marshal meta) w) as [H1 H2].
  split; [exact H1|]. split; [exact H2|].
  rewrite <- WriteMetaFile_write_atomic.
  apply (run_WriteMetaFile R_bucket bucket_faults (fun _ _ _ _ => bucket_event _)).
  - by intros w0 pol f n _.
  - by intros w0 pol f n _.
Qed.

(** ** The scanner *)

Lemma iterNames_Err_inv {S} (f : BlockMeta -> S -> M S) d names st w e w' :
  iterNames d f names st w = (Err e, w') ->
  exists pre n post st1 w1 m w2,
    names = pre ++ n :: post
    /\ iterNames d f pre st w = (Ok st1, w1)
    /\ loadBlock d n w1 = (Ok (Some m), w2)
    /\ f m st1 w2 = (Err e, w').
Proof.
  revert st w. induction names as [|n names IH]; intros st w H; [done|].
  simpl in H. destruct (loadBlock_total IsBlockDir block_MetaFilename d n w)
    as (r & w1 & Hl).
  rewrite (bind_Ok _ _ _ _ _ Hl) in H. destruct r as [m|].
  - destruct (f m st w1) as [[st'|e'] w2] eqn:Ef.
    + rewrite (bind_Ok _ _ _ _ _ Ef) in H.
      destruct (IH _ _ H) as (pre & n' & post & st1 & w1' & m' & w2' & -> & Hpre & Hn & Hf).
      exists (n :: pre), n', post, st1, w1', m', w2'. split; [done|].
      split; [|done]. simpl.
      by rewrite (bind_Ok _ _ _ _ _ Hl), (bind_Ok _ _ _ _ _ Ef).
    + rewrite (bind_Err _ _ _ _ _ Ef) in H. inversion H; subst.
      by exists [], n, names, st, w, m, w1.
  - destruct (IH _ _ H) as (pre & n' & post & st1 & w1' & m' & w2' & -> & Hpre & Hn & Hf).
    exists (n :: pre), n', post, st1, w1', m', w2'. split; [done|].
    split; [|done]. simpl. by rewrite (bind_Ok _ _ _ _ _ Hl).
Qed.

(** X4. An error of [iterBlockMetas] is either the error of listing the
    directory, wrapped as "read dir", or the error the callback returned
    on some block, handed on as it is; in that case the scan had gone
    through the names before that block without an error and ends in the
    world the callback left: no name after it is looked at. Nothing about
    a block itself (not a directory, no manifest, a manifest that does not
    decode, a failing stat) makes the scan fail. *)
Theorem iterBlockMetas_error_source {S} (s : Shipper) (f : BlockMeta -> S -> M S)
    (st : S) (w w' : World) (e : error) :
  iterBlockMetas s f st w = (Err e, w') ->
  (exists e0, fileutil.ReadDir (dir s) w = (Err e0, w') /\ e = Wrap "read dir" e0)
  \/ (exists names w0 pre n post st1 w1 m w2,
        fileutil.ReadDir (dir s) w = (Ok names, w0)
        /\ names = pre ++ n :: post
        /\ iterNames (dir s) f pre st w0 = (Ok st1, w1)
        /\ loadBlock (dir s) n w1 = (Ok (Some m), w2)
        /\ f m st1 w2 = (Err e, w')).
Proof.
  unfold iterBlockMetas. intros H.
  destruct (fileutil.ReadDir (dir s) w) as [[names|e0] w0] eqn:ER.
  - right. rewrite (bind_Ok _ _ _ _ _ (wrap_Ok _ _ _ _ _ ER)) in H.
    apply iterNames_Err_inv in H
      as (pre & n & post & st1 & w1 & m & w2 & Hn & Hpre & Hl & Hf).
    by exists names, w0, pre, n, post, st1, w1, m, w2.
  - left. rewrite (bind_Err _ _ _ _ _ (wrap_Err "read dir" _ _ _ _ ER)) in H.
    inversion H; subst. eauto.
Qed.

(** What [loadBlock] hands to the callback is on disk. *)
Lemma loadBlock_Some_local d n w m w1 :
  loadBlock d n w = (Ok (Some m), w1) -> localBlock d (root w) n = Some m.
Proof.
  unfold loadBlock, localBlock.
  destruct (IsBlockDir n); simpl; [|done].
  unfold mbind, M_bind, try.
  pose proof (run_Stat R_root root_faults (d ++ [n]) w) as Hr1.
  destruct (os.Stat (d ++ [n]) w) as [[isdir|e] w2] eqn:ES; simpl in *; [|done].
  assert (His : isdir = true -> exists bes, lookup_path (d ++ [n]) (root w) = Some (Dir bes)).
  { intros ->. unfold os.Stat in ES. apply fallible_Ok_inv in ES as [_ ES]. simpl in ES.
    destruct (lookup_path (d ++ [n]) (root w)) as [[|bes]|]; try done. eauto. }
  destruct isdir; simpl; [|done]. destruct (His eq_refl) as [bes Hbes].
  unfold block_ReadMetaFile, mbind, M_bind.
  pose proof (ReadFile_inv ((d ++ [n]) ++ [block_MetaFilename]) w2) as HR.
  destruct (os.ReadFile _ w2) as [[b|e] w3]; simpl in *; [|done].
  rewrite Hr1, lookup_path_snoc, Hbes in HR. rewrite Hbes, HR.
  destruct (unmarshal b) as [m'|]; simpl; [|done]. by intros [= -> _].
Qed.

Lemma scanNames_sublist d names w :
  (scanNames IsBlockDir block_MetaFilename d names w).1
    `sublist_of` omap (localBlock d (root w)) names
  /\ (faults w = [] ->
      (scanNames IsBlockDir block_MetaFilename d names w).1
      = omap (localBlock d (root w)) names).
Proof.
  revert w. induction names as [|n names IH]; intros w; simpl; [done|].
  destruct (loadBlock_total IsBlockDir block_MetaFilename d n w) as (r & w1 & Hl).
  destruct (loadBlock_footprint IsBlockDir block_MetaFilename d n w)
    as (Hq1 & Hr1 & _).
  pose proof (loadBlock_quiet IsBlockDir block_MetaFilename d n w) as Hqr.
  rewrite Hl in Hq1, Hr1, Hqr |- *. simpl in Hq1, Hr1, Hqr.
  destruct (IH w1) as [IH1 IH2]. rewrite Hr1 in IH1, IH2.
  destruct r as [m|].
  - rewrite (loadBlock_Some_local _ _ _ _ _ Hl).
    destruct (scanNames _ _ d names w1) as [l w2]. simpl in *. split.
    + by apply sublist_skip.
    + intros Hq. f_equal. auto.
  - destruct (scanNames _ _ d names w1) as [l w2]. simpl in *. split.
    + destruct (localBlock d (root w) n); [by apply sublist_cons | done].
    + intros Hq. specialize (Hqr Hq). injection Hqr as Hn. rewrite <- Hn. auto.
Qed.

(** X5. With a callback that only computes ([g] folds the block into the
    variables it captured), [iterBlockMetas] over a directory it could list
    returns the fold of [g] over blocks that are on disk, in the order of
    the listing: entries whose name [IsBlockDir] accepts, that are
    directories, and whose manifest decodes. Under failures of the
    environment some of them may be passed over (each with a warning);
    with no failure to come none is. The scan itself changes neither the
    tree nor the bucket, and adds only log lines to the trace. *)
Theorem iterBlockMetas_visits_local_blocks {S} (s : Shipper) (g : S -> BlockMeta -> S)
    (f : BlockMeta -> S -> M S) (st : S) (w w0 : World) (names : list string) :
  (forall m st w, f m st w = (Ok (g st m), w)) ->
  fileutil.ReadDir (dir s) w = (Ok names, w0) ->
  exists bs w',
    iterBlockMetas s f st w = (Ok (fold_left g bs st), w')
    /\ bs `sublist_of` omap (localBlock (dir s) (root w)) names
    /\ (faults w = [] -> bs = omap (localBlock (dir s) (root w)) names)
    /\ root w' = root w /\ bucket w' = bucket w
    /\ exists E, events w' = events w ++ E /\ Forall is_log E.
Proof.
  intros Hf HR.
  exists (scanNames IsBlockDir block_MetaFilename (dir s) names w0).1,
         (scanNames IsBlockDir block_MetaFilename (dir s) names w0).2.
  assert (Hit : iterBlockMetas s f st w
                = (Ok (fold_left g (scanNames IsBlockDir block_MetaFilename
                                      (dir s) names w0).1 st),
                   (scanNames IsBlockDir block_MetaFilename (dir s) names w0).2)).
  { unfold iterBlockMetas.
    rewrite (bind_Ok _ _ _ _ _ (wrap_Ok _ _ _ _ _ HR)).
    by apply iterNames_pure. }
  split; [exact Hit|].
  pose proof (run_ReadDir R_still still_faults (dir s) w) as (He0 & Hb0 & Hr0).
  pose proof (run_ReadDir R_quiet quiet_faults (dir s) w) as Hq0.
  rewrite HR in He0, Hb0, Hr0, Hq0. simpl in He0, Hb0, Hr0, Hq0.
  destruct (scanNames_sublist (dir s) names w0) as [H1 H2]. rewrite Hr0 in H1, H2.
  split; [exact H1|]. split; [auto|].
  assert (Hpure : forall R, PreOrder R -> forall m st, run R (f m st)).
  { intros R HR' m st0 w1. rewrite Hf. simpl. reflexivity. }
  pose proof (f_equal snd Hit) as Hw. simpl in Hw. rewrite <- Hw.
  split; [|split].
  - apply (run_iterBlockMetas IsBlockDir block_MetaFilename R_root root_faults
             (fun _ _ _ _ => root_event _) s f st (Hpure _ _)).
  - apply (run_iterBlockMetas IsBlockDir block_MetaFilename R_bucket bucket_faults
             (fun _ _ _ _ => bucket_event _) s f st (Hpure _ _)).
  - apply (run_iterBlockMetas IsBlockDir block_MetaFilename (R_events is_log)
             (events_faults _)
             (fun lvl msg b e => events_event is_log (EvLog lvl msg b e) I)
             s f st (Hpure _ _)).
Qed.

(** ** One pass: what it leaves alone and what it always writes *)

Lemma ReadDir_not_dir p w :
  (forall es, lookup_path p (root w) <> Some (Dir es)) ->
  exists e w1, fileutil.ReadDir p w = (Err e, w1).
Proof.
  intros Hno. unfold fileutil.ReadDir, fallible, mbind, M_bind, draw, throw.
  destruct (faults w) as [|[k|] fs]; simpl; eauto;
    destruct (lookup_path p (root w)) as [[|es]|] eqn:E; eauto;
    by destruct (Hno es).
Qed.

(** The record [Sync] starts from is loaded without a change to the tree or
    the bucket, with at most a warning. *)
Lemma Sync_loaded_footprint s w :
  let wL := (Sync_loaded s w).2 in
  root wL = root w /\ bucket wL = bucket w
  /\ (faults w = [] -> faults wL = [])
  /\ exists E, events wL = events w ++ E /\ Forall is_log E.
Proof.
  simpl. unfold Sync_loaded.
  pose proof (run_ReadMetaFile R_quiet quiet_faults (dir s) w) as H1.
  pose proof (run_ReadMetaFile R_still still_faults (dir s) w) as (H2 & H3 & H4).
  destruct (ReadMetaFile (dir s) w) as [[meta|e] wL]; simpl in *.
  - repeat split; try done. exists []. by rewrite app_nil_r.
  - unfold after_load_error. destruct (os_IsNotExist e); simpl.
    + repeat split; try done. exists []. by rewrite app_nil_r.
    + repeat split; try done. rewrite H2. eexists. split; [done|].
      by repeat constructor.
Qed.

(** X6. When the data directory cannot be listed (it is missing, or a
    file), [Sync] logs "iter block metas failed" with the error of the
    listing wrapped as "read dir", and returns: it does not write the
    bookkeeping file, so that the tree and the bucket are as before and the
    trace has log lines only, under any schedule of failures. *)
Theorem Sync_unlistable_directory (s : Shipper) (w : World) :
  (forall es, lookup_path (dir s) (root w) <> Some (Dir es)) ->
  let w' := (Sync s w).2 in
  root w' = root w /\ bucket w' = bucket w
  /\ exists E e,
       events w' = events w ++ E
         ++ [EvLog LvError "iter block metas failed" None (Some (Wrap "read dir" e))]
       /\ Forall is_log E.
Proof.
  intros Hno. simpl. rewrite Sync_from_loaded.
  destruct (Sync_loaded_footprint s w) as (Hr & Hb & _ & E & HE & HF).
  destruct (Sync_loaded s w) as [meta wL]. simpl in *.
  destruct (ReadDir_not_dir (dir s) wL) as (e & w1 & HR); [by rewrite Hr|].
  pose proof (run_ReadDir R_still still_faults (dir s) wL) as (He1 & Hb1 & Hr1).
  rewrite HR in He1, Hb1, Hr1. simpl in He1, Hb1, Hr1.
  unfold Sync_pass, iterBlockMetas.
  erewrite bind_Ok
    by (apply try_run; apply bind_Err; by apply wrap_Err).
  simpl. rewrite Hr1, Hb1, He1, Hr, Hb, HE. split; [done|]. split; [done|].
  exists E, e. by rewrite <- app_assoc.
Qed.

(** The names [Sync] writes under in the data directory. *)
Definition reserved (c : string) : bool :=
  String.eqb c "thanos" || String.eqb c MetaFilename
  || String.eqb c (MetaFilename +:+ ".tmp").

(** X7. Under any schedule of failures, [Sync] writes in the data
    directory under three names only: the staging root "thanos", the
    bookkeeping file and its temporary. Every other entry is after the
    call what it was before, with all that is below it (so that no block is
    changed or removed, and none appears), and the other names are listed
    in the same order. *)
Theorem Sync_writes_confined (s : Shipper) (w : World) (es : list (string * node)) :
  lookup_path (dir s) (root w) = Some (Dir es) ->
  exists es',
    lookup_path (dir s) (root (Sync s w).2) = Some (Dir es')
    /\ (forall c, reserved c = false -> assoc c es' = assoc c es)
    /\ filter (fun c => reserved c = false) (map fst es')
       = filter (fun c => reserved c = false) (map fst es).
Proof.
  intros Hd. set (keep := fun c => negb (reserved c)).
  assert (Hk : forall c, reserved c = true -> keep c = false)
    by (intros c Hc; unfold keep; by rewrite Hc).
  pose proof (run_Sync IsBlockDir block_MetaFilename block_ChunksDirname
             block_IndexFilename (R_frame (dir s) keep)
             (frame_faults _ _) (fun _ _ _ _ => frame_event _ _ _)
             (frame_event _ _) (frame_bucket _ _) s
             (fun rest => frame_path _ _ _ rest (Hk "thanos" eq_refl))
             (frame_path _ _ _ [] (Hk MetaFilename eq_refl))
             (frame_path _ _ _ [] (Hk (MetaFilename +:+ ".tmp") eq_refl)) w) as Hfr.
  destruct (Hfr es Hd) as (es' & Hd' & Hn & Ha). exists es'. split; [exact Hd'|].
  split.
  - intros c Hc. apply Ha. unfold keep. by rewrite Hc.
  - assert (Heq : forall l : list string,
        filter (fun c => reserved c = false) l = filter (fun c => keep c = true) l).
    { intros l. apply list_filter_iff. intros c. unfold keep.
      by destruct (reserved c). }
    by rewrite !Heq.
Qed.

(** X8. With no failure to come, a data directory that can be listed and a
    temporary name that is not taken by a directory, [Sync] always ends with
    a bookkeeping file that [ReadMetaFile] accepts: a record of version 1,
    whatever the file held before (nothing, bytes that do not decode,
    another version, a directory) and whatever happened to the blocks. *)
Theorem Sync_leaves_readable_record (s : Shipper) (w : World)
    (es : list (string * node)) :
  faults w = [] ->
  lookup_path (dir s) (root w) = Some (Dir es) ->
  match assoc (MetaFilename +:+ ".tmp") es with Some (Dir _) => False | _ => True end ->
  let w' := (Sync s w).2 in
  exists ups,
    persisted (dir s) w' = Some (mkMeta 1 ups)
    /\ ReadMetaFile (dir s) w' = (Ok (mkMeta 1 ups), w').
Proof.
  intros Hq Hd Ht. simpl. rewrite Sync_from_loaded.
  pose proof (Sync_loaded_version s w) as Hv.
  destruct (Sync_loaded_footprint s w) as (Hr & _ & HqL & _).
  destruct (Sync_loaded s w) as [meta wL]. simpl in *. specialize (HqL Hq).
  rewrite <- Hr in Hd.
  unfold Sync_pass, iterBlockMetas.
  pose proof (ReadDir_at (dir s) wL es (passes_quiet _ HqL) Hd) as HR.
  rewrite after_draw_quiet in HR by done.
  set (prev := list_to_set (Uploaded meta) : gset ULID).
  destruct (iterNames_Sync_visit_total IsBlockDir block_MetaFilename
              block_ChunksDirname block_IndexFilename s prev (dir s) (map fst es) [] wL)
    as (ups & w3 & Hit).
  erewrite bind_Ok; last first.
  { apply try_run. rewrite (bind_Ok _ _ _ _ _ (wrap_Ok _ _ _ _ _ HR)). exact Hit. }
  simpl.
  (* the world the scan leaves *)
  assert (Hq3 : faults w3 = []).
  { pose proof (run_iterNames IsBlockDir block_MetaFilename R_quiet quiet_faults
      (fun _ _ _ _ => quiet_event _) (dir s) (Sync_visit s prev) (map fst es) []
      (fun m st => run_Sync_visit block_MetaFilename block_ChunksDirname
         block_IndexFilename R_quiet quiet_faults (fun _ _ _ _ => quiet_event _)
         quiet_event quiet_bucket s prev m st (fun _ => quiet_path _)) wL) as H.
    rewrite Hit in H. by apply H. }
  set (keep := fun c => negb (String.eqb c "thanos")).
  assert (Hfr : same_under (dir s) keep (root wL) (root w3)).
  { pose proof (run_iterNames IsBlockDir block_MetaFilename (R_frame (dir s) keep)
      (frame_faults _ _) (fun _ _ _ _ => frame_event _ _ _) (dir s)
      (Sync_visit s prev) (map fst es) []
      (fun m st => run_Sync_visit block_MetaFilename block_ChunksDirname
         block_IndexFilename (R_frame (dir s) keep) (frame_faults _ _)
         (fun _ _ _ _ => frame_event _ _ _) (frame_event _ _) (frame_bucket _ _)
         s prev m st (fun rest => frame_path _ _ _ rest eq_refl)) wL) as H.
    by rewrite Hit in H. }
  destruct (Hfr es Hd) as (es3 & Hd3 & _ & Ha3).
  rewrite WriteMetaFile_write_atomic.
  destruct (write_atomic_quiet (dir s) MetaFilename
              (marshal (mkMeta (Version meta) ups)) w3 es3 Hq3 Hd3) as (n & HW & Hn).
  { by rewrite Ha3. }
  rewrite (bind_Ok _ _ _ _ _ (try_run _ _ _ _ HW)). simpl.
  exists ups.
  assert (Hfile : lookup_path (dir s ++ [MetaFilename]) n
                  = Some (File (marshal (mkMeta 1 ups)))).
  { by rewrite lookup_path_snoc, Hn, assoc_atomic_entries, String.eqb_refl, Hv. }
  split.
  - unfold persisted. simpl. rewrite Hfile. apply unmarshal_marshal.
  - rewrite <- (after_draw_quiet (set_root n w3)) at 2 by done.
    eapply ReadMetaFile_good; [by apply passes_quiet | exact Hfile
                              | apply unmarshal_marshal | done].
Qed.

(** ** Shipping one block: the local side *)


(** X10. When [hardlinkBlock] returns nil for a source and a destination
    that part ways inside a directory [d], the source has a chunks directory
    in which every entry is a file, a manifest and an index; the
    destination holds, under the same relative paths, files with the same
    bytes; and the source directory is what it was. *)
Theorem hardlinkBlock_stages_the_files (d p q : path) (a b : string)
    (w w' : World) (es : list (string * node)) :
  a <> b ->
  lookup_path d (root w) = Some (Dir es) ->
  let src := d ++ a :: p in
  let dst := d ++ b :: q in
  hardlinkBlock src dst w = (Ok tt, w') ->
  exists ces,
    lookup_path (src ++ [block_ChunksDirname]) (root w) = Some (Dir ces)
    /\ (forall fn,
          fn ∈ map (fun c => [block_ChunksDirname; c]) (map fst ces)
               ++ [[block_MetaFilename]; [block_IndexFilename]] ->
          exists data,
            lookup_path (src ++ fn) (root w) = Some (File data)
            /\ lookup_path (dst ++ fn) (root w') = Some (File data))
    /\ lookup_path src (root w') = lookup_path src (root w).
Proof.
  intros Hab Hd src dst H.
  set (keep := fun c => String.eqb c a).
  assert (Hkb : keep b = false) by (apply String.eqb_neq; congruence).
  assert (Hka : keep a = true) by apply String.eqb_refl.
  assert (Hfr : same_under d keep (root w) (root w')).
  { pose proof (run_hardlinkBlock block_MetaFilename block_ChunksDirname
      block_IndexFilename (R_frame d keep) (frame_faults _ _) src dst) as Hrun.
    specialize (Hrun (fun c rest => ltac:(unfold dst; rewrite <- app_assoc;
      apply frame_path; exact Hkb)) w).
    by rewrite H in Hrun. }
  unfold hardlinkBlock in H.
  apply bind_Ok_inv in H as ([] & w_e & Hmk & H). apply wrap_Ok_inv in Hmk.
  apply bind_Ok_inv in H as (files & w_r & Hrd & H).
  apply wrap_Ok_inv, ReadDir_Ok_inv in Hrd as (ces & Hces & -> & Hroot).
  assert (Hfe : same_under d keep (root w) (root w_e)).
  { pose proof (run_MkdirAll (R_frame d keep) (frame_faults _ _)
      (dst ++ [block_ChunksDirname])) as Hrun.
    specialize (Hrun ltac:(unfold dst; rewrite <- app_assoc;
      apply frame_path; exact Hkb) w).
    by rewrite Hmk in Hrun. }
  assert (Hsrc : forall rest, lookup_path (src ++ rest) (root w_e)
                              = lookup_path (src ++ rest) (root w)).
  { intros rest. unfold src. rewrite <- app_assoc.
    by eapply (same_under_lookup_eq d keep). }
  assert (Hsrc' : forall rest, lookup_path (src ++ rest) (root w')
                               = lookup_path (src ++ rest) (root w)).
  { intros rest. unfold src. rewrite <- app_assoc.
    by eapply (same_under_lookup_eq d keep). }
  exists ces. split; [by rewrite <- Hsrc|]. split.
  - intros fn Hfn. apply links_faithful in H as [_ Hnew].
    destruct (Hnew fn Hfn) as (data & H1 & H2). exists data.
    split; [by rewrite <- Hsrc'|done].
  - rewrite <- (app_nil_r src). apply Hsrc'.
Qed.

(** ** Timestamps *)

(** X11. [Timestamps] only reads: under any schedule of failures the tree
    and the bucket are after the call as before, and the trace has grown by
    log lines only (no call on the bucket). It returns an error exactly when
    the bookkeeping file cannot be loaded or the directory cannot be
    listed, and then both timestamps are 0; no block makes it fail. *)
Theorem Timestamps_only_reads (s : Shipper) (w : World) :
  let r := (Timestamps s w).1 in
  let w' := (Timestamps s w).2 in
  root w' = root w /\ bucket w' = bucket w
  /\ (exists E, events w' = events w ++ E /\ Forall is_log E)
  /\ (r.2 <> None -> r.1 = (0, 0))
  /\ (r.2 = None <->
      exists meta w1 names w2,
        ReadMetaFile (dir s) w = (Ok meta, w1)
        /\ fileutil.ReadDir (dir s) w1 = (Ok names, w2)).
Proof.
  simpl. unfold Timestamps.
  pose proof (run_ReadMetaFile R_still still_faults (dir s) w) as (He1 & Hb1 & Hr1).
  destruct (ReadMetaFile (dir s) w) as [[meta|e] w1]; simpl in *.
  2:{ rewrite Hr1, Hb1, He1. repeat split; try done.
      - exists []. by rewrite app_nil_r.
      - by intros (? & ? & ? & ? & ? & _). }
  set (prev := list_to_set (Uploaded meta) : gset ULID).
  assert (Hpure : forall R, PreOrder R ->
            forall m st, run R (Timestamps_visit prev m st)).
  { intros R HR m st w0. rewrite Timestamps_visit_step. simpl. reflexivity. }
  pose proof (run_iterBlockMetas IsBlockDir block_MetaFilename R_root root_faults
             (fun _ _ _ _ => root_event _) s (Timestamps_visit prev)
             (MaxInt64, MinInt64) (Hpure _ _) w1) as Hr2.
  pose proof (run_iterBlockMetas IsBlockDir block_MetaFilename R_bucket bucket_faults
             (fun _ _ _ _ => bucket_event _) s (Timestamps_visit prev)
             (MaxInt64, MinInt64) (Hpure _ _) w1) as Hb2.
  pose proof (run_iterBlockMetas IsBlockDir block_MetaFilename (R_events is_log)
             (events_faults _)
             (fun lvl msg b e => events_event is_log (EvLog lvl msg b e) I)
             s (Timestamps_visit prev) (MaxInt64, MinInt64) (Hpure _ _) w1) as He2.
  assert (Hres : match (iterBlockMetas s (Timestamps_visit prev) (MaxInt64, MinInt64) w1).1 with
                 | Ok _ => exists names w2, fileutil.ReadDir (dir s) w1 = (Ok names, w2)
                 | Err _ => forall names w2, fileutil.ReadDir (dir s) w1 <> (Ok names, w2)
                 end).
  { unfold iterBlockMetas.
    destruct (fileutil.ReadDir (dir s) w1) as [[names|e] w2] eqn:ER.
    - rewrite (bind_Ok _ _ _ _ _ (wrap_Ok _ _ _ _ _ ER)).
      rewrite (iterNames_pure IsBlockDir block_MetaFilename (Timestamps_step prev))
        by apply Timestamps_visit_step.
      simpl. eauto.
    - rewrite (bind_Err _ _ _ _ _ (wrap_Err "read dir" _ _ _ _ ER)). simpl.
      intros ? ?. discriminate. }
  destruct (iterBlockMetas s (Timestamps_visit prev) (MaxInt64, MinInt64) w1)
    as [[[minT maxT]|e] w2]; simpl in *;
    unfold R_root, R_bucket in *; rewrite Hr2, Hb2, Hr1, Hb1;
    destruct He2 as (E & HE & HF); rewrite HE, He1.
  - split; [done|]. split; [done|]. split; [by eauto|]. split; [by intros []|].
    split; [|done]. intros _. destruct Hres as (names & w3 & Hres).
    by exists meta, w1, names, w3.
  - split; [done|]. split; [done|]. split; [by eauto|]. split; [done|].
    split; [done|].
    intros (meta' & w1' & names & w3 & [= <- <-] & HR). by destruct (Hres names w3).
Qed.

(** ** Staging succeeds on a block that is all there *)

(** A block directory as [hardlinkBlock] needs it: a chunks directory that
    holds files only, each under its own name, a manifest and an index,
    under three different names. *)
Record well_formed (bes ces : list (string * node)) (mdata idata : string) : Prop := {
  wf_chunks : assoc block_ChunksDirname bes = Some (Dir ces);
  wf_files : forall fn x, (fn, x) ∈ ces -> exists data, x = File data;
  wf_names : NoDup (map fst ces);
  wf_meta : assoc block_MetaFilename bes = Some (File mdata);
  wf_index : assoc block_IndexFilename bes = Some (File idata);
  wf_cm : block_ChunksDirname <> block_MetaFilename;
  wf_ci : block_ChunksDirname <> block_IndexFilename;
  wf_mi : block_MetaFilename <> block_IndexFilename
}.

Section Staging.

Variables (d p q : path) (a b : string).
Hypothesis Hab : a <> b.

Let src := d ++ a :: p.
Let dst := d ++ b :: q.
Let keep := fun c => String.eqb c a.

Lemma keep_b : keep b = false.
Proof. apply String.eqb_neq. congruence. Qed.

Lemma dst_path rest : ok_path (R_frame d keep) (dst ++ rest).
Proof. unfold dst. rewrite <- app_assoc. apply frame_path, keep_b. Qed.

Lemma src_same n n' es rest :
  same_under d keep n n' -> lookup_path d n = Some (Dir es) ->
  lookup_path (src ++ rest) n' = lookup_path (src ++ rest) n.
Proof.
  intros Hs Hd. unfold src. rewrite <- app_assoc.
  eapply same_under_lookup_eq; [exact Hs | exact Hd | apply String.eqb_refl].
Qed.

(** The loop over the chunk names. *)
Lemma link_chunks_quiet (l : list string) :
  forall (cs : list (string * node)) (w : World) (es : list (string * node)),
    faults w = [] ->
    lookup_path d (root w) = Some (Dir es) ->
    NoDup l ->
    (forall fn, fn ∈ l -> exists data,
       lookup_path (src ++ [block_ChunksDirname; fn]) (root w) = Some (File data)) ->
    lookup_path (dst ++ [block_ChunksDirname]) (root w) = Some (Dir cs) ->
    (forall fn, fn ∈ l -> assoc fn cs = None) ->
    exists w' cs',
      forM_ (map (fun fn => [block_ChunksDirname; fn]) l)
        (fun fn => wrap "hard link file" (os.Link (src ++ fn) (dst ++ fn))) w
      = (Ok tt, w')
      /\ faults w' = []
      /\ lookup_path (dst ++ [block_ChunksDirname]) (root w') = Some (Dir cs')
      /\ forall fn, assoc fn cs'
           = if bool_decide (fn ∈ l)
             then lookup_path (src ++ [block_ChunksDirname; fn]) (root w)
             else assoc fn cs.
Proof.
  induction l as [|fn0 l IH]; intros cs w es Hq Hd Hnd Hsrc Hcs Hfree.
  - exists w, cs. simpl. repeat split; try done.
  - apply NoDup_cons in Hnd as [Hfn0 Hnd].
    destruct (Hsrc fn0) as (data & Hdata); [apply list_elem_of_here|].
    destruct (Link_new (dst ++ [block_ChunksDirname]) w cs Hq Hcs
                (src ++ [block_ChunksDirname; fn0]) fn0 data Hdata)
      as (n & HL & Hn); [apply Hfree, list_elem_of_here|].
    rewrite <- app_assoc in HL. simpl in HL.
    assert (Hfr : same_under d keep (root w) n).
    { pose proof (run_Link (R_frame d keep) (frame_faults _ _)
        (src ++ [block_ChunksDirname; fn0]) (dst ++ [block_ChunksDirname; fn0])
        (dst_path _) w) as H.
      by rewrite HL in H. }
    destruct (Hfr es Hd) as (es1 & Hd1 & _).
    destruct (IH (entry_put fn0 (File data) cs) (set_root n w) es1)
      as (w' & cs' & Hrun & Hq' & Hcs' & Hall); try done.
    + intros fn Hfn. destruct (Hsrc fn) as (data' & H'); [by apply list_elem_of_further|].
      exists data'. simpl. by rewrite (src_same _ _ _ _ Hfr Hd).
    + intros fn Hfn. rewrite assoc_entry_put.
      destruct (String.eqb fn fn0) eqn:E; [|by apply Hfree, list_elem_of_further].
      apply String.eqb_eq in E. by subst.
    + exists w', cs'. simpl.
      rewrite (bind_Ok _ _ _ _ _ (wrap_Ok "hard link file" _ _ _ _ HL)).
      split; [exact Hrun|]. split; [done|]. split; [done|].
      intros fn. rewrite Hall. simpl.
      destruct (decide (fn = fn0)) as [->|Hne].
      * rewrite bool_decide_false by done.
        rewrite bool_decide_true by apply list_elem_of_here.
        by rewrite assoc_entry_put, String.eqb_refl.
      * destruct (decide (fn ∈ l)) as [Hin|Hin].
        -- rewrite !bool_decide_true; [|by apply list_elem_of_further|done].
           by rewrite (src_same _ _ _ _ Hfr Hd).
        -- rewrite !bool_decide_false; [| |done].
           ++ rewrite assoc_entry_put. apply String.eqb_neq in Hne. by rewrite Hne.
           ++ intros H. by apply elem_of_cons in H as [?|?].
Qed.

(** The entries of the destination once the block is staged. *)
Definition staged_as (ces ds : list (string * node)) (mdata idata : string) : Prop :=
  (exists cs, assoc block_ChunksDirname ds = Some (Dir cs)
     /\ forall fn, assoc fn cs = assoc fn ces)
  /\ assoc block_MetaFilename ds = Some (File mdata)
  /\ assoc block_IndexFilename ds = Some (File idata)
  /\ forall c, c <> block_ChunksDirname -> c <> block_MetaFilename ->
       c <> block_IndexFilename -> assoc c ds = None.

Lemma hardlinkBlock_quiet w es bes ces mdata idata :
  faults w = [] ->
  lookup_path d (root w) = Some (Dir es) ->
  lookup_path src (root w) = Some (Dir bes) ->
  well_formed bes ces mdata idata ->
  lookup_path dst (root w) = Some (Dir []) ->
  exists w' ds,
    hardlinkBlock src dst w = (Ok tt, w')
    /\ faults w' = []
    /\ lookup_path dst (root w') = Some (Dir ds)
    /\ staged_as ces ds mdata idata.
Proof.
  intros Hq Hd Hsrc [Hch Hfiles Hnd Hmeta Hidx Hcm Hci Hmi] Hdst.
  unfold hardlinkBlock.
  (* the chunks directory of the destination *)
  destruct (MkdirAll_new dst w [] Hq Hdst block_ChunksDirname eq_refl) as (n1 & HM & Hn1).
  rewrite (bind_Ok _ _ _ _ _ (wrap_Ok "create chunks dir" _ _ _ _ HM)).
  set (w1 := set_root n1 w).
  assert (Hfr1 : same_under d keep (root w) (root w1)).
  { pose proof (run_MkdirAll (R_frame d keep) (frame_faults _ _)
      (dst ++ [block_ChunksDirname]) (dst_path _) w) as H.
    by rewrite HM in H. }
  destruct (Hfr1 es Hd) as (es1 & Hd1 & _).
  assert (Hs1 : forall rest, lookup_path (src ++ rest) (root w1)
                             = lookup_path (src ++ rest) (root w))
    by (intros rest; by apply (src_same _ _ es)).
  (* the listing of the source *)
  assert (Hces : lookup_path (src ++ [block_ChunksDirname]) (root w1) = Some (Dir ces)).
  { by rewrite Hs1, lookup_path_snoc, Hsrc. }
  rewrite (bind_Ok _ _ _ _ _ (wrap_Ok "read chunk dir" _ _ _ _
             (ReadDir_quiet _ w1 ces Hq Hces))).
  rewrite forM__app.
  (* the links of the segment files *)
  assert (Hchunk : forall fn, lookup_path (src ++ [block_ChunksDirname; fn]) (root w1)
                              = assoc fn ces).
  { intros fn. change [block_ChunksDirname; fn] with ([block_ChunksDirname] ++ [fn]).
    by rewrite app_assoc, lookup_path_snoc, Hces. }
  destruct (link_chunks_quiet (map fst ces) [] w1 es1) as (w2 & cs & HL & Hq2 & Hcs & Hall);
    try done.
  { intros fn Hfn. apply list_elem_of_fmap in Hfn as ([fn' x] & -> & Hin). simpl.
    destruct (Hfiles _ _ Hin) as (data & ->). exists data.
    rewrite Hchunk. by apply assoc_NoDup. }
  { unfold w1. simpl. by rewrite lookup_path_snoc, Hn1, assoc_entry_put, String.eqb_refl. }
  rewrite (bind_Ok _ _ _ _ _ HL).
  assert (Hfr2 : same_under d keep (root w1) (root w2)).
  { pose proof (run_forM_ (R_frame d keep)
      (map (fun fn => [block_ChunksDirname; fn]) (map fst ces))
      (fun fn => wrap "hard link file" (os.Link (src ++ fn) (dst ++ fn)))) as H.
    specialize (H (fun fn _ => run_wrap _ _ _
      (run_Link (R_frame d keep) (frame_faults _ _) _ _ (dst_path _))) w1).
    by rewrite HL in H. }
  destruct (Hfr2 es1 Hd1) as (es2 & Hd2 & _).
  assert (Hs2 : forall rest, lookup_path (src ++ rest) (root w2)
                             = lookup_path (src ++ rest) (root w)).
  { intros rest. rewrite <- Hs1. by apply (src_same _ _ es1). }
  (* what the destination holds beside the chunks *)
  set (keepd := fun c => negb (String.eqb c block_ChunksDirname)).
  assert (Hfd : same_under dst keepd (root w1) (root w2)).
  { pose proof (run_forM_ (R_frame dst keepd)
      (map (fun fn => [block_ChunksDirname; fn]) (map fst ces))
      (fun fn => wrap "hard link file" (os.Link (src ++ fn) (dst ++ fn)))) as H.
    assert (Hp : forall fn, fn ∈ map (fun fn => [block_ChunksDirname; fn]) (map fst ces) ->
              run (R_frame dst keepd)
                (wrap "hard link file" (os.Link (src ++ fn) (dst ++ fn)))).
    { intros fn Hfn. apply list_elem_of_fmap in Hfn as (c & -> & _).
      apply (run_wrap (R_frame dst keepd)),
        (run_Link (R_frame dst keepd) (frame_faults _ _)).
      apply frame_path. unfold keepd. by rewrite String.eqb_refl. }
    specialize (H Hp w1). by rewrite HL in H. }
  destruct (Hfd _ Hn1) as (ds2 & Hds2 & _ & Hads2).
  assert (Hother : forall c, c <> block_ChunksDirname -> assoc c ds2 = None).
  { intros c Hc. rewrite Hads2.
    - rewrite assoc_entry_put. apply String.eqb_neq in Hc. by rewrite Hc.
    - unfold keepd. apply String.eqb_neq in Hc. by rewrite Hc. }
  assert (Hchunks2 : assoc block_ChunksDirname ds2 = Some (Dir cs)).
  { rewrite lookup_path_snoc, Hds2 in Hcs. exact Hcs. }
  (* the links of the manifest and of the index *)
  simpl forM_.
  destruct (Link_new dst w2 ds2 Hq2 Hds2 (src ++ [block_MetaFilename])
              block_MetaFilename mdata) as (n3 & HL3 & Hn3).
  { by rewrite Hs2, lookup_path_snoc, Hsrc. }
  { apply Hother. congruence. }
  rewrite (bind_Ok _ _ _ _ _ (wrap_Ok "hard link file" _ _ _ _ HL3)).
  set (w3 := set_root n3 w2).
  assert (Hfr3 : same_under d keep (root w2) (root w3)).
  { pose proof (run_Link (R_frame d keep) (frame_faults _ _)
      (src ++ [block_MetaFilename]) (dst ++ [block_MetaFilename]) (dst_path _) w2) as H.
    by rewrite HL3 in H. }
  destruct (Link_new dst w3 (entry_put block_MetaFilename (File mdata) ds2)
              Hq2 Hn3 (src ++ [block_IndexFilename])
              block_IndexFilename idata) as (n4 & HL4 & Hn4).
  { rewrite (src_same _ _ es2 _ Hfr3 Hd2), Hs2. by rewrite lookup_path_snoc, Hsrc. }
  { rewrite assoc_entry_put. apply not_eq_sym, String.eqb_neq in Hmi. rewrite Hmi.
    apply Hother. congruence. }
  rewrite (bind_Ok _ _ _ _ _ (wrap_Ok "hard link file" _ _ _ _ HL4)).
  eexists (set_root n4 w3), _. split; [done|]. split; [done|]. split; [exact Hn4|].
  assert (Hne : forall x y : string, x <> y -> String.eqb x y = false)
    by (intros x y; apply String.eqb_neq).
  split; [|split; [|split]].
  - exists cs. rewrite !assoc_entry_put, !Hne by congruence. split; [done|].
    intros fn. rewrite Hall. simpl. rewrite Hchunk.
    destruct (decide (fn ∈ map fst ces)) as [Hin|Hin].
    + by rewrite bool_decide_true.
    + rewrite bool_decide_false by done. simpl. symmetry. by apply assoc_None_names.
  - rewrite !assoc_entry_put, String.eqb_refl. by rewrite Hne by congruence.
  - by rewrite !assoc_entry_put, String.eqb_refl.
  - intros c H1 H2 H3. rewrite !assoc_entry_put, !Hne by done. by apply Hother.
Qed.

End Staging.

(** X12. With no failure to come, [hardlinkBlock] returns nil when the
    source is a block directory that is all there (a chunks directory of
    files, a manifest, an index) and the destination is an empty directory
    elsewhere, which is how [sync] calls it. The destination then holds a
    chunks directory with the files of the source's, the manifest and the
    index, and nothing else; and still no failure is to come. *)
Theorem hardlinkBlock_succeeds (d p q : path) (a b : string) (w : World)
    (es bes ces : list (string * node)) (mdata idata : string) :
  a <> b ->
  faults w = [] ->
  lookup_path d (root w) = Some (Dir es) ->
  lookup_path (d ++ a :: p) (root w) = Some (Dir bes) ->
  well_formed bes ces mdata idata ->
  lookup_path (d ++ b :: q) (root w) = Some (Dir []) ->
  exists w' ds,
    hardlinkBlock (d ++ a :: p) (d ++ b :: q) w = (Ok tt, w')
    /\ faults w' = []
    /\ lookup_path (d ++ b :: q) (root w') = Some (Dir ds)
    /\ staged_as ces ds mdata idata.
Proof. intros Hab. by apply hardlinkBlock_quiet. Qed.

Section RunUpload.

(** Footprints that hold of an upload as a whole (its event and its write
    to the bucket together). *)
Variable R : World -> World -> Prop.
Context `{!PreOrder R}.
Hypothesis Hf : ok_faults R.
Hypothesis Hev : forall e, ok_event R e.
Hypothesis Hp : forall p, ok_path R p.
Hypothesis Hup : forall name data, run R (objstore.Upload name data).

Lemma run_UploadFile_up src name : run R (objstore.UploadFile src name).
Proof.
  unfold objstore.UploadFile. apply (run_bind R); [by apply run_ReadFile | done].
Qed.

Lemma run_block_Upload_up bdir :
  run R (block_Upload block_MetaFilename block_ChunksDirname block_IndexFilename bdir).
Proof.
  unfold block_Upload.
  apply (run_bind R); [by apply run_wrap, run_ReadDir | intros chunks].
  apply (run_bind R); [| intros _].
  { apply run_wrap, run_forM_; [done|]. intros fn _. apply run_UploadFile_up. }
  apply (run_bind R); [apply run_wrap, run_UploadFile_up | intros _].
  apply run_wrap, run_UploadFile_up.
Qed.

Lemma run_sync_up s m : run R (sync s m).
Proof.
  unfold sync. destruct (1 <? Compaction_Level m); [by apply run_ret|].
  apply (run_bind R); [by apply run_wrap, run_Exists | intros [|]];
    [by apply run_ret|].
  apply (run_bind R); [by apply run_log | intros _].
  apply (run_bind R); [by apply run_wrap, run_RemoveAll | intros _].
  apply (run_bind R); [by apply run_wrap, run_MkdirAll | intros _].
  apply (run_defer R).
  { apply (run_bind R); [by apply run_try, run_RemoveAll | intros [|e]];
      [by apply run_ret | by apply run_log]. }
  apply (run_bind R); [by apply run_wrap, run_hardlinkBlock | intros _].
  apply (run_bind R); [by apply run_wrap, run_block_WriteMetaFile | intros _].
  apply run_block_Upload_up.
Qed.

Lemma run_Sync_visit_up s prev m ups : run R (Sync_visit s prev m ups).
Proof.
  unfold Sync_visit. destruct (bool_decide _); [by apply run_ret|].
  apply (run_bind R); [apply run_try, run_sync_up | intros [|e]].
  - by apply run_ret.
  - apply (run_bind R); [by apply run_log | intros _]. by apply run_ret.
Qed.

Lemma run_Sync_up s : run R (Sync s).
Proof.
  assert (HP : forall meta, run R (Sync_pass s meta)).
  { intros meta. unfold Sync_pass.
    apply (run_bind R); [| intros [ups|e]].
    - apply run_try, run_iterBlockMetas; [done..|]. intros m st.
      apply run_Sync_visit_up.
    - apply (run_bind R); [by apply run_try, run_WriteMetaFile | intros [|e]].
      + by apply run_ret.
      + by apply run_log.
    - by apply run_log. }
  unfold Sync. apply (run_bind R); [by apply run_try, run_ReadMetaFile | intros [meta|e]].
  - apply HP.
  - apply (run_bind R); [| intros _; apply HP].
    destruct (negb (os_IsNotExist e)); [by apply run_log | by apply run_ret].
Qed.

End RunUpload.

(** ** Shipping one block: the remote side *)

(** The manifest [sync] writes into the staging directory: the one of the
    block, with the labels of the shipper when it has some, and its
    source. *)
Definition stamped (s : Shipper) (m : BlockMeta) : BlockMeta :=
  mkBlockMeta (BlockULID m) (MinTime m) (MaxTime m) (Compaction_Level m)
    (match labels s tt with
     | Some lset => list_to_map lset
     | None => Thanos_Labels m
     end)
    (source s).

Local Abbreviation manifest_object := (manifest_object block_MetaFilename).

(** X13. When [sync] returns nil on a block of compaction level at most 1,
    the bucket holds the manifest object of the block: either it did before
    the call, and then the bucket is as it was; or it did not, and then the
    object holds the manifest with the labels and the source of the shipper
    attached (the labels of the block when the shipper has none), as
    [block.Upload] (modelled from the specification) sent it from the
    staging directory. So nil is never returned for a block the bucket has
    no manifest of. *)
Theorem sync_nil_means_shipped (s : Shipper) (m : BlockMeta) (w w' : World) :
  Compaction_Level m <= 1 ->
  sync s m w = (Ok tt, w') ->
  (is_Some (bucket w !! manifest_object m) /\ bucket w' = bucket w)
  \/ (bucket w !! manifest_object m = None
      /\ bucket w' !! manifest_object m = Some (marshal (stamped s m))).
Proof.
  intros Hl H. unfold sync in H. apply Z.ltb_ge in Hl. rewrite Hl in H.
  apply bind_Ok_inv in H as (ok & w_a & HE & H). apply wrap_Ok_inv in HE.
  apply Exists_Ok_inv in HE as [-> Hba]. unfold manifest_object.
  destruct (bool_decide (is_Some (bucket w !! _))) eqn:Eb.
  { left. inversion H; subst. apply bool_decide_eq_true in Eb. by split. }
  right. apply bool_decide_eq_false in Eb. split; [by apply eq_None_not_Some|].
  apply bind_Ok_inv in H as ([] & w_b & Hlog & H).
  apply bind_Ok_inv in H as ([] & w_c & _ & H).
  apply bind_Ok_inv in H as ([] & w_d & _ & H).
  unfold defer in H.
  match type of H with (let (r, w') := ?body w_d in _) = _ =>
    destruct (body w_d) as [r w_e] eqn:EB end.
  pose proof (run_cleanup R_bucket (updir_of s m) bucket_faults (bucket_path _)
                (fun _ _ _ _ => bucket_event _) w_e) as Hcl.
  match type of H with (let (_, w'') := ?cl w_e in _) = _ =>
    destruct (cl w_e) as [rc w_f] eqn:EC end.
  simpl in Hcl. unfold R_bucket in Hcl.
  inversion H; subst r w'. clear H. rewrite Hcl.
  apply bind_Ok_inv in EB as ([] & w_f' & _ & EB).
  apply bind_Ok_inv in EB as ([] & w_g & HW & EB). apply wrap_Ok_inv in HW.
  apply write_atomic_Ok_inv in HW as (es & _ & Hes).
  unfold block_Upload in EB. rewrite last_updir_of in EB.
  apply bind_Ok_inv in EB as (chunks & w1 & HR & EB).
  apply wrap_Ok_inv, ReadDir_Ok_inv in HR as (ces & _ & _ & Hr1).
  apply bind_Ok_inv in EB as ([] & w2 & HC & EB). apply wrap_Ok_inv in HC.
  pose proof (upload_chunks_summary block_ChunksDirname (updir_of s m)
                (ULID_String (BlockULID m)) chunks w1) as (_ & _ & _ & _ & _ & Hr2).
  rewrite HC in Hr2. simpl in Hr2.
  apply bind_Ok_inv in EB as ([] & w3 & HI & EB). apply wrap_Ok_inv in HI.
  apply UploadFile_Ok_inv in HI as (_ & _ & _ & Hr3).
  apply wrap_Ok_inv, UploadFile_Ok_inv in EB as (data & Hdata & Hb & _).
  rewrite Hr3, Hr2, Hr1, lookup_path_snoc, Hes, assoc_atomic_entries,
    String.eqb_refl in Hdata.
  inversion Hdata; subst data. rewrite Hb. apply lookup_insert_eq.
Qed.

Local Abbreviation visits :=
  (visits IsBlockDir block_MetaFilename block_ChunksDirname block_IndexFilename).
Local Abbreviation kept := (kept block_MetaFilename block_ChunksDirname block_IndexFilename).
Local Abbreviation recorded_ids :=
  (recorded_ids block_MetaFilename block_ChunksDirname block_IndexFilename).
Local Abbreviation visit_world :=
  (visit_world block_MetaFilename block_ChunksDirname block_IndexFilename).

Lemma sync_nil_manifest s m w w' :
  Compaction_Level m <= 1 -> sync s m w = (Ok tt, w') ->
  is_Some (bucket w' !! manifest_object m).
Proof.
  intros Hl H. unfold sync in H. apply Z.ltb_ge in Hl. rewrite Hl in H.
  apply bind_Ok_inv in H as (ok & w_a & HE & H). apply wrap_Ok_inv in HE.
  apply Exists_Ok_inv in HE as [-> Hba]. unfold manifest_object.
  destruct (bool_decide (is_Some (bucket w !! _))) eqn:Eb.
  { inversion H; subst. apply bool_decide_eq_true in Eb. by rewrite Hba. }
  apply bind_Ok_inv in H as ([] & w_b & Hlog & H).
  apply bind_Ok_inv in H as ([] & w_c & _ & H).
  apply bind_Ok_inv in H as ([] & w_d & _ & H).
  unfold defer in H.
  match type of H with (let (r, w') := ?body w_d in _) = _ =>
    destruct (body w_d) as [r w_e] eqn:EB end.
  pose proof (run_cleanup R_grow (updir_of s m) grow_faults (grow_path _)
                (fun _ _ _ _ => grow_event _) w_e) as Hcl.
  match type of H with (let (_, w'') := ?cl w_e in _) = _ =>
    destruct (cl w_e) as [rc w_f] eqn:EC end.
  simpl in Hcl.
  inversion H; subst r w'. clear H. apply Hcl.
  apply bind_Ok_inv in EB as ([] & w_f' & _ & EB).
  apply bind_Ok_inv in EB as ([] & w_g & _ & EB).
  unfold block_Upload in EB. rewrite last_updir_of in EB.
  apply bind_Ok_inv in EB as (chunks & w1 & _ & EB).
  apply bind_Ok_inv in EB as ([] & w2 & _ & EB).
  apply bind_Ok_inv in EB as ([] & w3 & _ & EB).
  apply wrap_Ok_inv, UploadFile_Ok_inv in EB as (data & _ & Hb & _).
  rewrite Hb, lookup_insert_eq. eauto.
Qed.

Lemma visits_backed s prev d names :
  forall ups w m wb,
    (m, wb) ∈ visits s prev d names w ->
    kept s prev (m, wb) = true ->
    BlockULID m ∈ prev
    \/ 1 < Compaction_Level m
    \/ is_Some (bucket (iterNames d (Sync_visit s prev) names ups w).2
                  !! manifest_object m).
Proof.
  induction names as [|n names IH]; intros ups w m wb Hin Hk; simpl in Hin.
  { by apply elem_of_nil in Hin. }
  simpl iterNames.
  destruct (loadBlock_total IsBlockDir block_MetaFilename d n w) as (r & w1 & Hl).
  rewrite Hl in Hin. rewrite (bind_Ok _ _ _ _ _ Hl).
  destruct r as [m0|]; [|by eapply IH].
  rewrite (bind_Ok _ _ _ _ _ (Sync_visit_result _ _ _ s prev m0 ups w1)).
  apply elem_of_cons in Hin as [[= -> ->]|Hin]; [|by eapply IH].
  destruct (decide (BlockULID m0 ∈ prev)) as [Hp|Hp]; [by left|].
  unfold kept in Hk. simpl in Hk. rewrite bool_decide_false in Hk by done.
  simpl in Hk.
  destruct (Z.le_gt_cases (Compaction_Level m0) 1) as [Hl1|Hl1]; [|right; left; lia].
  right. right.
  destruct (sync s m0 w1) as [[[]|e] ws] eqn:ES; [|done].
  pose proof (sync_nil_manifest _ _ _ _ Hl1 ES) as Hm.
  assert (Hvw : visit_world s prev m0 w1 = ws).
  { unfold visit_world, Sync_visit.
    rewrite bool_decide_false by done.
    by rewrite (bind_Ok _ _ _ _ _ (try_run _ _ _ _ ES)). }
  rewrite Hvw.
  apply (run_iterNames IsBlockDir block_MetaFilename R_grow grow_faults
           (fun _ _ _ _ => grow_event _) d (Sync_visit s prev) names _
           (fun m st => run_Sync_visit_up R_grow grow_faults grow_event grow_path
                          grow_Upload s prev m st) ws).
  exact Hm.
Qed.

(** X14. The list of IDs [Sync] hands to [WriteMetaFile] is backed by the
    bucket: each ID on it was on the record [Sync] started from, or belongs
    to a visited block that is of compaction level above 1 (which [sync]
    passes over) or whose manifest object is in the bucket when [Sync]
    returns. Here [meta] is the record [Sync] has loaded, [names] the
    listing of the directory, [vs] the blocks visited and [ups] the IDs
    kept. It holds under any schedule of failures, with [block.Upload] as
    modelled. *)
Theorem Sync_record_backed (s : Shipper) (w w1 w2 : World) (meta : Meta)
    (names : list string) :
  Sync_loaded s w = (meta, w1) ->
  fileutil.ReadDir (dir s) w1 = (Ok names, w2) ->
  let prev : gset ULID := list_to_set (Uploaded meta) in
  let vs := visits s prev (dir s) names w2 in
  let ups := recorded_ids s prev vs in
  forall id, id ∈ ups ->
    id ∈ Uploaded meta
    \/ exists m wb, (m, wb) ∈ vs /\ BlockULID m = id
         /\ (1 < Compaction_Level m
             \/ is_Some (bucket (Sync s w).2 !! manifest_object m)).
Proof.
  intros Hl Hd prev vs ups id Hid.
  unfold ups, recorded_ids in Hid.
  apply list_elem_of_fmap in Hid as ([m wb] & -> & Hin).
  apply list_elem_of_filter in Hin as [Hk Hin]. simpl.
  destruct (visits_backed s prev (dir s) names [] w2 m wb Hin Hk) as [H|[H|H]].
  { left. by apply elem_of_list_to_set in H. }
  { right. exists m, wb. auto. }
  right. exists m, wb. split; [done|]. split; [done|]. right.
  set (w3 := (iterNames (dir s) (Sync_visit s prev) names [] w2).2) in *.
  cut (R_grow w3 (Sync s w).2); [by intros Hg; apply Hg|].
  rewrite Sync_from_loaded, Hl. simpl. unfold Sync_pass, iterBlockMetas.
  erewrite bind_Ok; last first.
  { apply try_run. erewrite bind_Ok by (by apply wrap_Ok).
    apply iterNames_Sync_visit. }
  simpl. fold prev vs w3.
  match goal with |- context [WriteMetaFile (dir s) ?rec] =>
    pose proof (run_WriteMetaFile R_grow grow_faults (fun _ _ _ _ => grow_event _)
                  (dir s) rec (grow_path _) (grow_path _) w3) as HW;
    destruct (WriteMetaFile (dir s) rec w3) as [[[]|e] w4] eqn:EW end;
    rewrite (bind_Ok _ _ _ _ _ (try_run _ _ _ _ EW)); intros o Ho; by apply HW in Ho.
Qed.

(** ** Shipping a block that is all there *)

(** The entry "thanos" of the data directory does not stand in the way of
    the staging directory: it is not there, or it is a directory in which
    "upload" is not there or is a directory. *)
Definition staging_root_ok (es : list (string * node)) : Prop :=
  match assoc "thanos" es with
  | None => True
  | Some (File _) => False
  | Some (Dir tes) =>
      match assoc "upload" tes with
      | Some (File _) => False
      | _ => True
      end
  end.

Ltac look :=
  repeat (progress (rewrite ?assoc_entry_put, ?assoc_entry_del, ?String.eqb_refl; simpl)).

(** Removing and making the staging directory. *)
Lemma stage_prepare (s : Shipper) (m : BlockMeta) (w : World)
    (es : list (string * node)) :
  faults w = [] ->
  lookup_path (dir s) (root w) = Some (Dir es) ->
  staging_root_ok es ->
  exists n_c n_d es_d,
    os.RemoveAll (updir_of s m) w = (Ok tt, set_root n_c w)
    /\ os.MkdirAll (updir_of s m) (set_root n_c w) = (Ok tt, set_root n_d w)
    /\ lookup_path (dir s) n_d = Some (Dir es_d)
    /\ (forall c, c <> "thanos" -> assoc c es_d = assoc c es)
    /\ lookup_path (updir_of s m) n_d = Some (Dir []).
Proof.
  intros Hq Hd Hok. set (id := ULID_String (BlockULID m)).
  set (rest := ["thanos"; "upload"; id]).
  assert (Hup : updir_of s m = dir s ++ rest) by done.
  assert (Hne : rest <> []) by done.
  assert (Hcons : exists c0 p0, updir_of s m = c0 :: p0).
  { rewrite Hup. destruct (dir s); simpl; eauto. }
  (* the two operations on the data directory itself *)
  assert (Hsub : exists x1 x2 es_d,
    modify MSkip (fun _ => Ok None) rest (Dir es) = Ok x1
    /\ modify MCreate (fun cur =>
         match cur with
         | None => Ok (Some (Dir []))
         | Some (Dir es) => Ok (Some (Dir es))
         | Some (File _) => Err ENOTDIR
         end) rest x1 = Ok x2
    /\ x2 = Dir es_d
    /\ (forall c, c <> "thanos" -> assoc c es_d = assoc c es)
    /\ lookup_path rest x2 = Some (Dir [])).
  { unfold staging_root_ok in Hok. unfold rest.
    assert (Hother : forall (c : string) X Y, c <> "thanos" ->
              assoc c (entry_put "thanos" X (entry_put "thanos" Y es)) = assoc c es).
    { intros c X Y Hc. rewrite !assoc_entry_put. apply String.eqb_neq in Hc.
      by rewrite Hc. }
    destruct (assoc "thanos" es) as [[|tes]|] eqn:Et; [done| |].
    - destruct (assoc "upload" tes) as [[|ues]|] eqn:Eu; [done| |].
      + eexists _, _, _. split; [by simpl; rewrite Et, Eu|].
        split; [|split; [reflexivity|split]].
        * simpl. by look.
        * intros c Hc. by apply Hother.
        * simpl. by look.
      + eexists _, _, _. split; [by simpl; rewrite Et, Eu|].
        split; [|split; [reflexivity|split]].
        * simpl. look. by rewrite Eu.
        * intros c Hc. by apply Hother.
        * simpl. by look.
    - eexists _, _, _. split; [by simpl; rewrite Et|].
      split; [|split; [reflexivity|split]].
      + simpl. by rewrite Et.
      + intros c Hc. rewrite assoc_entry_put. apply String.eqb_neq in Hc.
        by rewrite Hc.
      + simpl. by look. }
  destruct Hsub as (x1 & x2 & es_d & Hm1 & Hm2 & -> & Hoth & Hnew).
  destruct (modify_below _ _ (dir s) rest (root w) _ _ Hd Hne Hm1) as (n_c & Hc & Hlc).
  destruct (modify_below _ _ (dir s) rest n_c _ _ Hlc Hne Hm2) as (n_d & Hdm & Hld).
  exists n_c, n_d, es_d.
  split; [|split; [|split; [exact Hld|split; [exact Hoth|]]]].
  - unfold os.RemoveAll. rewrite fallible_passes by (by apply passes_quiet).
    rewrite after_draw_quiet by done. unfold fs_update. by rewrite Hup, Hc.
  - unfold os.MkdirAll. rewrite fallible_passes by (by apply passes_quiet).
    rewrite after_draw_quiet by done.
    destruct Hcons as (c0 & p0 & Hcp). rewrite Hcp. rewrite <- Hcp.
    unfold fs_update. simpl root. by rewrite Hup, Hdm.
  - by rewrite Hup, lookup_path_app, Hld.
Qed.

(** [block.Upload] on a staged block, with no failure to come. *)
Lemma upload_chunks_quiet (bdir : path) (id : string) (l : list string) :
  forall w,
    faults w = [] ->
    (forall fn, fn ∈ l -> exists data,
       lookup_path (bdir ++ [block_ChunksDirname; fn]) (root w) = Some (File data)) ->
    exists w',
      forM_ l (fun fn => objstore.UploadFile (bdir ++ [block_ChunksDirname; fn])
                           [id; block_ChunksDirname; fn]) w = (Ok tt, w')
      /\ faults w' = [] /\ root w' = root w
      /\ (forall fn data, fn ∈ l ->
            lookup_path (bdir ++ [block_ChunksDirname; fn]) (root w) = Some (File data) ->
            bucket w' !! [id; block_ChunksDirname; fn] = Some data)
      /\ (forall o, (forall fn, fn ∈ l -> o <> [id; block_ChunksDirname; fn]) ->
            bucket w' !! o = bucket w !! o).
Proof.
  induction l as [|fn0 l IH]; intros w Hq Hfiles.
  - exists w. simpl. repeat split; try done. intros fn data Hfn. by apply elem_of_nil in Hfn.
  - destruct (Hfiles fn0) as (data0 & Hd0); [apply list_elem_of_here|].
    destruct (UploadFile_quiet _ [id; block_ChunksDirname; fn0] w data0 Hq Hd0)
      as (w1 & HU & Hq1 & Hr1 & Hb1).
    destruct (IH w1 Hq1) as (w' & HF & Hq' & Hr' & Ha & Hb).
    { intros fn Hfn. rewrite Hr1. apply Hfiles. by apply list_elem_of_further. }
    exists w'. simpl. rewrite (bind_Ok _ _ _ _ _ HU).
    split; [exact HF|]. split; [done|]. split; [congruence|]. split.
    + intros fn data Hfn Hdata. destruct (decide (fn ∈ l)) as [Hin|Hin].
      * apply Ha; [done|]. by rewrite Hr1.
      * apply elem_of_cons in Hfn as [->|Hfn]; [|done].
        rewrite Hb by (intros fn' Hfn' [= ->]; done).
        rewrite Hb1, lookup_insert_eq. congruence.
    + intros o Ho. rewrite Hb by (intros fn Hfn; apply Ho; by apply list_elem_of_further).
      rewrite Hb1, lookup_insert_ne; [done|].
      intros Heq. by apply (Ho fn0 (list_elem_of_here _ _)).
Qed.

Lemma block_Upload_quiet (bdir : path) (w : World) (ds cs : list (string * node))
    (mdata idata : string) :
  faults w = [] ->
  lookup_path bdir (root w) = Some (Dir ds) ->
  assoc block_ChunksDirname ds = Some (Dir cs) ->
  (forall fn, fn ∈ map fst cs -> exists data, assoc fn cs = Some (File data)) ->
  assoc block_IndexFilename ds = Some (File idata) ->
  assoc block_MetaFilename ds = Some (File mdata) ->
  block_MetaFilename <> block_IndexFilename ->
  let id := List.last bdir "" in
  exists w',
    block_Upload block_MetaFilename block_ChunksDirname block_IndexFilename bdir w
    = (Ok tt, w')
    /\ faults w' = [] /\ root w' = root w
    /\ bucket w' !! [id; block_MetaFilename] = Some mdata
    /\ bucket w' !! [id; block_IndexFilename] = Some idata
    /\ (forall fn data, assoc fn cs = Some (File data) ->
          bucket w' !! [id; block_ChunksDirname; fn] = Some data)
    /\ (forall o, head o <> Some id -> bucket w' !! o = bucket w !! o).
Proof.
  intros Hq Hd Hch Hfiles Hidx Hmeta Hmi id. unfold block_Upload. fold id.
  assert (Hcs : lookup_path (bdir ++ [block_ChunksDirname]) (root w) = Some (Dir cs))
    by (by rewrite lookup_path_snoc, Hd).
  rewrite (bind_Ok _ _ _ _ _ (wrap_Ok "read chunks" _ _ _ _
             (ReadDir_quiet _ w cs Hq Hcs))).
  assert (Hchunk : forall fn, lookup_path (bdir ++ [block_ChunksDirname; fn]) (root w)
                              = assoc fn cs).
  { intros fn. change [block_ChunksDirname; fn] with ([block_ChunksDirname] ++ [fn]).
    by rewrite app_assoc, lookup_path_snoc, Hcs. }
  destruct (upload_chunks_quiet bdir id (map fst cs) w Hq)
    as (w2 & HC & Hq2 & Hr2 & Ha & Hb).
  { intros fn Hfn. destruct (Hfiles fn Hfn) as (data & Hdata). exists data.
    by rewrite Hchunk. }
  rewrite (bind_Ok _ _ _ _ _ (wrap_Ok "upload chunks" _ _ _ _ HC)).
  destruct (UploadFile_quiet (bdir ++ [block_IndexFilename]) [id; block_IndexFilename]
              w2 idata Hq2) as (w3 & HI & Hq3 & Hr3 & Hb3).
  { by rewrite Hr2, lookup_path_snoc, Hd. }
  rewrite (bind_Ok _ _ _ _ _ (wrap_Ok "upload index" _ _ _ _ HI)).
  destruct (UploadFile_quiet (bdir ++ [block_MetaFilename]) [id; block_MetaFilename]
              w3 mdata Hq3) as (w4 & HM & Hq4 & Hr4 & Hb4).
  { by rewrite Hr3, Hr2, lookup_path_snoc, Hd. }
  exists w4. split; [by apply wrap_Ok|]. split; [done|]. split; [congruence|].
  rewrite Hb4, Hb3. split; [apply lookup_insert_eq|]. split; [|split].
  - rewrite lookup_insert_ne by congruence. apply lookup_insert_eq.
  - intros fn data Hfn. rewrite !lookup_insert_ne by done.
    apply Ha; [by eapply assoc_Some_names | by rewrite Hchunk].
  - intros o Ho. rewrite !lookup_insert_ne by (intros <-; by apply Ho).
    apply Hb. intros fn _ ->. by apply Ho.
Qed.

(** [sync] on a block that is all there, with what a pass needs to go on
    after it: the parent of the staging directory is a directory, and the
    trace has grown by lines that report no failure. *)
Lemma sync_ships_quiet (s : Shipper) (m : BlockMeta) (w : World)
    (es bes ces : list (string * node)) (mdata idata : string) :
  let id := ULID_String (BlockULID m) in
  faults w = [] ->
  Compaction_Level m <= 1 ->
  lookup_path (dir s) (root w) = Some (Dir es) ->
  staging_root_ok es ->
  id <> "thanos" ->
  assoc id es = Some (Dir bes) ->
  well_formed bes ces mdata idata ->
  block_ChunksDirname <> block_MetaFilename +:+ ".tmp" ->
  block_IndexFilename <> block_MetaFilename +:+ ".tmp" ->
  bucket w !! manifest_object m = None ->
  exists w',
    sync s m w = (Ok tt, w')
    /\ faults w' = []
    /\ lookup_path (updir_of s m) (root w') = None
    /\ bucket w' !! manifest_object m = Some (marshal (stamped s m))
    /\ bucket w' !! [id; block_IndexFilename] = Some idata
    /\ (forall fn data, assoc fn ces = Some (File data) ->
          bucket w' !! [id; block_ChunksDirname; fn] = Some data)
    /\ (forall o, head o <> Some id -> bucket w' !! o = bucket w !! o)
    /\ (exists ues, lookup_path (dir s ++ ["thanos"; "upload"]) (root w')
                    = Some (Dir ues))
    /\ exists E, events w' = events w ++ E
                 /\ Forall (fun e => failure_line e = false) E.
Proof.
  intros id Hq Hl Hd Hok Hid Hblk Hwf Hct Hit Hnew.
  pose proof Hwf as [Hch Hfiles Hnd Hmeta Hidx Hcm Hci Hmi].
  unfold sync. apply Z.ltb_ge in Hl. rewrite Hl. cbv zeta.
  rewrite (bind_Ok _ _ _ _ _ (wrap_Ok "check exists" _ _ _ _ (Exists_quiet _ w Hq))).
  unfold manifest_object in Hnew. fold id in Hnew |- *.
  rewrite bool_decide_false by (rewrite Hnew; by intros [? ?]).
  set (w_a := set_events (events w ++ [EvExists [id; block_MetaFilename]]) w).
  set (w_b := set_events (events w_a
                ++ [EvLog LvInfo "upload new block" (Some (BlockULID m)) None]) w_a).
  rewrite (bind_Ok (log LvInfo "upload new block" (Some (BlockULID m)) None) _
             w_a tt w_b eq_refl).
  destruct (stage_prepare s m w_b es Hq Hd Hok) as (n_c & n_d & es_d & HR & HM & Hld & Hoth & Hup).
  rewrite (bind_Ok _ _ _ _ _ (wrap_Ok "clean upload directory" _ _ _ _ HR)).
  assert (HM' : os.MkdirAll (updir_of s m) (set_root n_c w_b) = (Ok tt, set_root n_d w_b))
    by exact HM.
  rewrite (bind_Ok _ _ _ _ _ (wrap_Ok "create upload dir" _ _ _ _ HM')).
  set (w_d := set_root n_d w_b).
  (* staging *)
  destruct (hardlinkBlock_quiet (dir s) [] ["upload"; id] id "thanos" Hid
              w_d es_d bes ces mdata idata) as (w_f & ds & HL & Hqf & Hds & Hst);
    try done.
  { simpl. rewrite lookup_path_snoc, Hld, Hoth by done. exact Hblk. }
  destruct Hst as ((cs & Hcs & Hcsa) & Hsm & Hsi & Hso).
  (* the manifest with the extensions *)
  destruct (write_atomic_quiet (updir_of s m) block_MetaFilename
              (marshal (stamped s m)) w_f ds Hqf Hds) as (n_g & HW & Hng).
  { rewrite Hso; [done|congruence| |congruence].
    apply String.eqb_neq, tmp_name_ne. }
  set (w_g := set_root n_g w_f) in *.
  assert (Hne : forall x y : string, x <> y -> String.eqb x y = false)
    by (intros x y; apply String.eqb_neq).
  (* the upload *)
  destruct (block_Upload_quiet (updir_of s m) w_g
              (atomic_entries block_MetaFilename (marshal (stamped s m)) ds) cs
              (marshal (stamped s m)) idata) as (w_h & HU & Hqh & Hrh & B1 & B2 & B3 & B4);
    try done.
  { by rewrite assoc_atomic_entries, !Hne. }
  { intros fn Hfn. rewrite Hcsa.
    assert (Hs : is_Some (assoc fn cs)).
    { clear -Hfn. induction cs as [|[k v] cs IH]; simpl in *.
      - by apply elem_of_nil in Hfn.
      - destruct (String.eqb fn k) eqn:E; [eauto|].
        apply elem_of_cons in Hfn as [->|Hfn]; [|auto].
        by rewrite String.eqb_refl in E. }
    destruct Hs as [x Hx]. rewrite Hcsa in Hx.
    assert (Hin : (fn, x) ∈ ces).
    { clear -Hx. induction ces as [|[k v] ces IH]; simpl in *; [done|].
      destruct (String.eqb fn k) eqn:E.
      - apply String.eqb_eq in E. inversion Hx; subst. apply list_elem_of_here.
      - apply list_elem_of_further. auto. }
    destruct (Hfiles _ _ Hin) as (data & ->). eauto. }
  { by rewrite assoc_atomic_entries, !Hne by congruence. }
  { by rewrite assoc_atomic_entries, String.eqb_refl. }
  rewrite last_updir_of in B1, B2, B3, B4. fold id in B1, B2, B3, B4.
  (* the cleaning up *)
  set (P := dir s ++ ["thanos"; "upload"]).
  assert (HupP : updir_of s m = P ++ [id]).
  { unfold updir_of, P. by rewrite <- app_assoc. }
  assert (HPh : exists ues, lookup_path P (root w_h) = Some (Dir ues)).
  { rewrite Hrh. unfold w_g. simpl. rewrite HupP, lookup_path_snoc in Hng.
    destruct (lookup_path P n_g) as [[|ues]|]; [done| |done]. eauto. }
  destruct HPh as (ues & HPh).
  destruct (RemoveAll_quiet P w_h ues Hqh HPh id) as (n_i & HC & Hli).
  rewrite <- HupP in HC.
  assert (Hgone : lookup_path (updir_of s m) n_i = None).
  { by rewrite HupP, lookup_path_snoc, Hli, assoc_entry_del, String.eqb_refl. }
  exists (set_root n_i w_h).
  split.
  - unfold defer.
    assert (HB : (wrap "hard link block"
                    (hardlinkBlock (dir s ++ [id]) (updir_of s m));;
                  wrap "write meta file"
                    (block_WriteMetaFile block_MetaFilename (updir_of s m) (stamped s m));;
                  block_Upload block_MetaFilename block_ChunksDirname
                    block_IndexFilename (updir_of s m)) w_d = (Ok tt, w_h)).
    { rewrite (bind_Ok _ _ _ _ _ (wrap_Ok "hard link block" _ _ _ _ HL)).
      rewrite (bind_Ok _ _ w_f tt w_g (wrap_Ok "write meta file" _ _ _ _ HW)).
      exact HU. }
    fold id. unfold stamped in HB. rewrite HB.
    by rewrite (bind_Ok _ _ _ _ _ (try_run _ _ _ _ HC)).
  - split; [done|]. split; [exact Hgone|].
    split; [exact B1|]. split; [exact B2|]. split.
    + intros fn data Hfn. apply B3. by rewrite Hcsa.
    + assert (HL' : hardlinkBlock (dir s ++ [id]) (updir_of s m) w_d = (Ok tt, w_f))
        by exact HL.
      split; [|split].
      * intros o Ho. simpl. rewrite B4 by done. unfold w_g. simpl.
        pose proof (run_hardlinkBlock block_MetaFilename block_ChunksDirname
          block_IndexFilename R_bucket bucket_faults (dir s ++ [id]) (updir_of s m)
          (fun _ _ => bucket_path _) w_d) as Hbf.
        rewrite HL' in Hbf. unfold R_bucket in Hbf. simpl in Hbf. by rewrite Hbf.
      * exists (entry_del id ues). exact Hli.
      * pose proof (run_hardlinkBlock block_MetaFilename block_ChunksDirname
          block_IndexFilename (R_events (fun e => failure_line e = false))
          (events_faults _) (dir s ++ [id]) (updir_of s m)
          (fun _ _ => events_path _ _) w_d) as (EL & HEL & HFL).
        rewrite HL' in HEL. simpl in HEL.
        pose proof (run_block_Upload_up (R_events (fun e => failure_line e = false))
          (events_faults _)
          (fun name data => run_Upload _ (events_faults _) name data
             (fun ok => events_event _ (EvUpload name data ok) eq_refl)
             (events_bucket _))
          (updir_of s m) w_g) as (EU & HEU & HFU).
        rewrite HU in HEU. simpl in HEU.
        exists ([EvExists [id; block_MetaFilename];
                 EvLog LvInfo "upload new block" (Some (BlockULID m)) None]
                ++ EL ++ EU).
        split.
        -- simpl. rewrite HEU, HEL. unfold w_b, w_a. simpl.
           by rewrite <- !app_assoc.
        -- apply Forall_app. split; [by repeat constructor|]. by apply Forall_app.
Qed.

(** X15. With no failure to come, [sync] ships a block that is all there.
    For a block of compaction level at most 1 whose manifest the bucket
    does not hold, whose directory has a chunks directory of files, a
    manifest and an index, in a data directory where nothing stands in the
    way of the staging directory: [sync] returns nil; the bucket then holds
    under the block ID every segment file and the index with the bytes they
    have on disk, and the manifest with the labels and the source of the
    shipper attached; objects under other IDs are as before; the staging
    directory is gone and no failure is to come. The names of package
    [block] are taken different from each other and from the temporary
    name of the manifest; [block.Upload] and [block.WriteMetaFile] are as
    modelled. *)
Theorem sync_ships_block (s : Shipper) (m : BlockMeta) (w : World)
    (es bes ces : list (string * node)) (mdata idata : string) :
  let id := ULID_String (BlockULID m) in
  faults w = [] ->
  Compaction_Level m <= 1 ->
  lookup_path (dir s) (root w) = Some (Dir es) ->
  staging_root_ok es ->
  id <> "thanos" ->
  assoc id es = Some (Dir bes) ->
  well_formed bes ces mdata idata ->
  block_ChunksDirname <> block_MetaFilename +:+ ".tmp" ->
  block_IndexFilename <> block_MetaFilename +:+ ".tmp" ->
  bucket w !! manifest_object m = None ->
  exists w',
    sync s m w = (Ok tt, w')
    /\ faults w' = []
    /\ lookup_path (updir_of s m) (root w') = None
    /\ bucket w' !! manifest_object m = Some (marshal (stamped s m))
    /\ bucket w' !! [id; block_IndexFilename] = Some idata
    /\ (forall fn data, assoc fn ces = Some (File data) ->
          bucket w' !! [id; block_ChunksDirname; fn] = Some data)
    /\ (forall o, head o <> Some id -> bucket w' !! o = bucket w !! o).
Proof.
  intros id Hq Hl Hd Hok Hid Hblk Hwf Hct Hit Hnew.
  destruct (sync_ships_quiet s m w es bes ces mdata idata Hq Hl Hd Hok Hid Hblk
              Hwf Hct Hit Hnew) as (w' & H1 & H2 & H3 & H4 & H5 & H6 & H7 & _).
  exists w'. auto 10.
Qed.

(** ** A pass and then the timestamps *)

Local Abbreviation local_ids := (local_ids IsBlockDir block_MetaFilename).

(** The blocks on disk, as a scan without failures loads them. *)
Definition local_blocks (s : Shipper) (r : node) (es : list (string * node))
    : list BlockMeta :=
  omap (localBlock (dir s) r) (map fst es).

Lemma filter_ids_all (l : list ULID) (bs : list BlockMeta) :
  (forall m, m ∈ bs -> BlockULID m ∈ l) ->
  filter (fun m => BlockULID m ∈ l) bs = bs.
Proof.
  induction bs as [|m bs' IH]; intros Hl; [done|].
  rewrite filter_cons_True by (apply Hl, list_elem_of_here).
  f_equal. apply IH. intros m' Hm'. apply Hl. by apply list_elem_of_further.
Qed.

(** What a pass that logs no failure leaves. *)
Lemma Sync_clean_result (s : Shipper) (w0 : World) (es0 : list (string * node)) :
  IsBlockDir "thanos" = false ->
  IsBlockDir MetaFilename = false ->
  IsBlockDir (MetaFilename +:+ ".tmp") = false ->
  faults w0 = [] ->
  lookup_path (dir s) (root w0) = Some (Dir es0) ->
  let w1 := (Sync s w0).2 in
  Forall (fun e => failure_line e = false) (new_events w0 w1) ->
  faults w1 = []
  /\ (exists es1, lookup_path (dir s) (root w1) = Some (Dir es1)
        /\ local_blocks s (root w1) es1 = local_blocks s (root w0) es0)
  /\ lookup_path (dir s ++ [MetaFilename]) (root w1)
     = Some (File (marshal (mkMeta 1 (map BlockULID (local_blocks s (root w0) es0))))).
Proof.
  intros Ht Hm Htmp Hq Hd0 w1 Hcl.
  assert (Hq1 : faults w1 = []).
  { apply (run_Sync IsBlockDir block_MetaFilename block_ChunksDirname
             block_IndexFilename R_quiet quiet_faults (fun _ _ _ _ => quiet_event _)
             quiet_event quiet_bucket s (fun _ => quiet_path _)
             (quiet_path _) (quiet_path _) w0 Hq). }
  assert (Hfr : same_under (dir s) (fun c => IsBlockDir c) (root w0) (root w1)).
  { apply (run_Sync IsBlockDir block_MetaFilename block_ChunksDirname
             block_IndexFilename (R_frame (dir s) (fun c => IsBlockDir c))
             (frame_faults _ _) (fun _ _ _ _ => frame_event _ _ _)
             (frame_event _ _) (frame_bucket _ _) s
             (fun rest => frame_path _ _ _ rest Ht)
             (frame_path _ _ _ [] Hm) (frame_path _ _ _ [] Htmp) w0). }
  unfold w1 in Hcl. rewrite Sync_from_loaded in Hcl.
  pose proof (Sync_from_loaded IsBlockDir block_MetaFilename block_ChunksDirname
                block_IndexFilename s w0) as HS1. fold w1 in HS1.
  pose proof (Sync_loaded_version s w0) as Hv.
  destruct (Sync_loaded_footprint s w0) as (HrL & _ & HqL & EL & HEL & _).
  destruct (Sync_loaded s w0) as [meta0 wL]. simpl in *. specialize (HqL Hq).
  assert (HclL : Forall (fun e => failure_line e = false)
                   (new_events wL (Sync_pass s meta0 wL).2)).
  { apply (clean_split _ w0 wL _ EL HEL) in Hcl as [_ Hcl]; [done|].
    destruct (run_Sync_pass IsBlockDir block_MetaFilename block_ChunksDirname
                block_IndexFilename (R_events any_event) any_faults
                (fun _ _ _ _ => any_event_ok _) any_event_ok any_bucket s meta0
                (fun _ => any_path _) (any_path _) (any_path _) wL) as (E & HE & _).
    eauto. }
  destruct (Sync_pass_clean IsBlockDir block_MetaFilename block_ChunksDirname
              block_IndexFilename s meta0 wL Ht HqL HclL) as (es0' & w3 & Hd0' & HW).
  rewrite HrL, Hd0 in Hd0'. inversion Hd0'; subst es0'. clear Hd0'.
  rewrite <- HS1 in HW. rewrite Hv, HrL in HW.
  rewrite WriteMetaFile_write_atomic in HW.
  apply write_atomic_Ok_inv in HW as (es3 & _ & Hd1). fold w1 in Hd1.
  split; [done|]. split.
  - eexists. split; [exact Hd1|].
    destruct (Hfr es0 Hd0) as (es1' & Hd1' & Hnames & Hassoc).
    rewrite Hd1 in Hd1'. inversion Hd1'; subst es1'. clear Hd1'.
    unfold local_blocks.
    rewrite <- (omap_filter_None _ IsBlockDir (map fst (atomic_entries _ _ es3))),
            <- (omap_filter_None _ IsBlockDir (map fst es0)).
    + rewrite Hnames. apply omap_ext_list. intros n.
      by eapply (localBlock_frame IsBlockDir block_MetaFilename).
    + intros x Hx. unfold localBlock. by rewrite Hx.
    + intros x Hx. unfold localBlock. by rewrite Hx.
  - rewrite lookup_path_snoc, Hd1. by rewrite assoc_atomic_entries, String.eqb_refl.
Qed.

(** X16. A pass that logs no failure and then [Timestamps], with no failure
    of the environment to come and the reserved names not taken for block
    directories: [Timestamps] returns no error; its maxSyncTime is the
    greatest [MaxTime] over all the blocks on disk (every one of them is on
    the record the pass wrote, those of a compaction level above 1
    included, which [sync] passed over), or [math.MinInt64] when there is
    none; its minTime is the least [MinTime] over the same blocks, with 0
    in place of [math.MaxInt64]. *)
Theorem Timestamps_after_clean_Sync (s : Shipper) (w0 : World)
    (es0 : list (string * node)) :
  IsBlockDir "thanos" = false ->
  IsBlockDir MetaFilename = false ->
  IsBlockDir (MetaFilename +:+ ".tmp") = false ->
  faults w0 = [] ->
  lookup_path (dir s) (root w0) = Some (Dir es0) ->
  let w1 := (Sync s w0).2 in
  Forall (fun e => failure_line e = false) (new_events w0 w1) ->
  let bs := local_blocks s (root w0) es0 in
  (Timestamps s w1).1
  = ((let v := fold_left Z.min (map MinTime bs) MaxInt64 in
      if v =? MaxInt64 then 0 else v),
     fold_left Z.max (map MaxTime bs) MinInt64,
     None).
Proof.
  intros Ht Hm Htmp Hq Hd0 w1 Hcl bs.
  destruct (Sync_clean_result s w0 es0 Ht Hm Htmp Hq Hd0 Hcl)
    as (Hq1 & (es1 & Hd1 & Hbs) & Hfile).
  fold w1 in Hq1, Hd1, Hbs, Hfile. fold bs in Hbs, Hfile.
  set (rec := mkMeta 1 (map BlockULID bs)) in *.
  assert (HR : ReadMetaFile (dir s) w1 = (Ok rec, w1)).
  { rewrite <- (after_draw_quiet w1 Hq1) at 2.
    eapply ReadMetaFile_good; [by apply passes_quiet | exact Hfile
                              | apply unmarshal_marshal | done]. }
  unfold Timestamps. rewrite HR. unfold iterBlockMetas.
  rewrite (bind_Ok _ _ _ _ _ (wrap_Ok "read dir" _ _ _ _
             (ReadDir_quiet _ w1 es1 Hq1 Hd1))).
  rewrite (iterNames_pure IsBlockDir block_MetaFilename
             (Timestamps_step (list_to_set (Uploaded rec))))
    by apply Timestamps_visit_step.
  destruct (scanNames_sublist (dir s) (map fst es1) w1) as [_ Hscan].
  rewrite (Hscan Hq1). fold (local_blocks s (root w1) es1). rewrite Hbs.
  rewrite Timestamps_fold. simpl.
  assert (Hall : filter (fun m => BlockULID m ∈ map BlockULID bs) bs = bs).
  { apply filter_ids_all. intros m0 Hm0. apply list_elem_of_fmap. eauto. }
  by rewrite Hall.
Qed.

(** ** Where a failure hits the writer *)

Ltac table := repeat split; intros; try lia; try done.

(** X17. [WriteMetaFile] makes eight calls that can fail: it creates the
    temporary file, writes it, closes it, removes the target, renames,
    opens the directory, syncs it and closes it. In a directory that is
    there (the temporary name not a directory), when the first failure of
    the environment hits the call number [i] (from 0): the call returns an
    error if [i < 8] and nil otherwise; for [i < 4] the target holds what it
    held; for [4 < i] it holds the new record, also when an error is
    returned because the directory could not be synced. (At [i = 4], the
    rename, the target is left empty.) *)
Theorem WriteMetaFile_failure_points (d : path) (meta : Meta) (w : World)
    (es : list (string * node)) (i k : nat) (fs : list (option nat)) :
  lookup_path d (root w) = Some (Dir es) ->
  match assoc (MetaFilename +:+ ".tmp") es with Some (Dir _) => False | _ => True end ->
  faults w = replicate i None ++ Some k :: fs ->
  let target := d ++ [MetaFilename] in
  let r := (WriteMetaFile d meta w).1 in
  let w' := (WriteMetaFile d meta w).2 in
  ((i < 8)%nat -> is_Ok r = false)
  /\ ((8 <= i)%nat -> r = Ok tt)
  /\ ((i < 4)%nat -> lookup_path target (root w') = lookup_path target (root w))
  /\ ((4 < i)%nat -> lookup_path target (root w') = Some (File (marshal meta))).
Proof.
  intros Hd Ht Hq target r w'. subst r w'. rewrite WriteMetaFile_write_atomic.
  unfold write_atomic.
  set (name := MetaFilename) in *. set (tmp := name +:+ ".tmp") in *.
  set (data := marshal meta).
  assert (Htn : String.eqb tmp name = false) by apply tmp_name_ne.
  assert (Hnt : String.eqb name tmp = false) by apply name_tmp_ne.
  assert (Hold : lookup_path target (root w) = assoc name es)
    by (unfold target; by rewrite lookup_path_snoc, Hd).
  rewrite Hold.
  (* 0: create *)
  destruct i as [|i]; simpl in Hq.
  { erewrite bind_Err by (unfold os.Create; by eapply fallible_fails).
    simpl. rewrite Hold. table. }
  assert (Hp0 : passes w) by passes_by Hq.
  destruct (Create_passes d w es tmp Hp0 Hd Ht) as (n1 & HC & Hl1).
  rewrite (bind_Ok _ _ _ _ _ HC). clear HC.
  set (W1 := set_root n1 (after_draw w)).
  assert (Hq1 : faults W1 = replicate i None ++ Some k :: fs)
    by (unfold W1, after_draw; simpl; by rewrite Hq).
  (* 1: write *)
  destruct i as [|i]; simpl in Hq1.
  { destruct (Write_fails d W1 _ tmp data k fs Hq1 Hl1) as (n2 & HW & Hl2).
    rewrite (bind_Ok _ _ _ _ _ (try_run _ _ _ _ HW)).
    pose proof (then_throw_not_Ok (B:=unit)
      (CloseWithLogOnErr (d ++ [tmp]) "write meta file close") (EIO "write")
      (set_root n2 (set_faults fs W1))) as Hno.
    rewrite then_throw_snd, CloseWithLogOnErr_root. simpl.
    unfold target. rewrite lookup_path_snoc, Hl2, !assoc_entry_put, Hnt.
    table. }
  assert (Hp1 : passes W1) by passes_by Hq1.
  destruct (Write_at d W1 _ Hp1 Hl1 tmp data) as (n2 & HW & Hl2).
  rewrite (bind_Ok _ _ _ _ _ (try_run _ _ _ _ HW)). clear HW.
  set (W2 := set_root n2 (after_draw W1)).
  assert (Hq2 : faults W2 = replicate i None ++ Some k :: fs)
    by (unfold W2, after_draw; simpl; by rewrite Hq1).
  set (es2 := entry_put tmp (File data) (entry_put tmp (File "") es)) in *.
  assert (Ha2 : assoc name es2 = assoc name es)
    by (unfold es2; by rewrite !assoc_entry_put, Hnt).
  (* 2: close *)
  destruct i as [|i]; simpl in Hq2.
  { erewrite bind_Err by (unfold os.Close; by eapply fallible_fails).
    simpl. unfold target. rewrite lookup_path_snoc, Hl2, Ha2. table. }
  assert (Hp2 : passes W2) by passes_by Hq2.
  rewrite (bind_Ok _ _ _ _ _ (Close_passes _ W2 Hp2)).
  set (W3 := after_draw W2).
  assert (Hq3 : faults W3 = replicate i None ++ Some k :: fs)
    by (unfold W3, after_draw; simpl; by rewrite Hq2).
  unfold renameFile.
  (* 3: remove *)
  destruct i as [|i]; simpl in Hq3.
  { erewrite bind_Err by (unfold os.RemoveAll; by eapply fallible_fails).
    simpl. unfold target. rewrite lookup_path_snoc, Hl2, Ha2. table. }
  assert (Hp3 : passes W3) by passes_by Hq3.
  destruct (RemoveAll_at d W3 _ Hp3 Hl2 name) as (n4 & HR & Hl4).
  rewrite (bind_Ok _ _ _ _ _ HR). clear HR.
  set (W4 := set_root n4 (after_draw W3)).
  assert (Hq4 : faults W4 = replicate i None ++ Some k :: fs)
    by (unfold W4, after_draw; simpl; by rewrite Hq3).
  (* 4: rename *)
  destruct i as [|i]; simpl in Hq4.
  { erewrite bind_Err by (unfold os.Rename; by eapply fallible_fails).
    simpl. table. }
  assert (Hp4 : passes W4) by passes_by Hq4.
  edestruct (Rename_at d W4 _ Hp4 Hl4 tmp name data) as (n5 & HN & Hl5).
  { unfold es2. by rewrite assoc_entry_del, Htn, assoc_entry_put, String.eqb_refl. }
  { by rewrite !assoc_entry_del, String.eqb_refl, Hnt. }
  rewrite (bind_Ok _ _ _ _ _ HN). clear HN.
  set (W5 := set_root n5 (after_draw W4)).
  assert (Hq5 : faults W5 = replicate i None ++ Some k :: fs)
    by (unfold W5, after_draw; simpl; by rewrite Hq4).
  assert (Hnew : lookup_path target n5 = Some (File data)).
  { unfold target. by rewrite lookup_path_snoc, Hl5, assoc_entry_put, String.eqb_refl. }
  rewrite filepath_Dir_snoc.
  (* 5: open the directory *)
  destruct i as [|i]; simpl in Hq5.
  { erewrite bind_Err by (unfold fileutil.OpenDir; by eapply fallible_fails).
    simpl. table. }
  assert (Hp5 : passes W5) by passes_by Hq5.
  rewrite (bind_Ok _ _ _ _ _ (OpenDir_at d W5 _ Hp5 Hl5)).
  set (W6 := after_draw W5).
  assert (Hq6 : faults W6 = replicate i None ++ Some k :: fs)
    by (unfold W6, after_draw; simpl; by rewrite Hq5).
  (* 6: sync it *)
  destruct i as [|i]; simpl in Hq6.
  { erewrite bind_Ok
      by (apply try_run; unfold fileutil.Fsync; by eapply fallible_fails).
    pose proof (then_throw_not_Ok (B:=unit)
      (CloseWithLogOnErr d "rename file dir close") (EIO "fsync")
      (set_faults fs W6)) as Hno.
    cbv beta iota. rewrite then_throw_snd, CloseWithLogOnErr_root. simpl. table. }
  assert (Hp6 : passes W6) by passes_by Hq6.
  rewrite (bind_Ok _ _ _ _ _ (try_run _ _ _ _ (Fsync_passes d W6 Hp6))).
  set (W7 := after_draw W6).
  assert (Hq7 : faults W7 = replicate i None ++ Some k :: fs)
    by (unfold W7, after_draw; simpl; by rewrite Hq6).
  (* 7: close it *)
  destruct i as [|i]; simpl in Hq7.
  { unfold os.Close. erewrite fallible_fails by done. simpl. table. }
  assert (Hp7 : passes W7) by passes_by Hq7.
  rewrite (Close_passes d W7 Hp7). simpl. table.
Qed.


(** ** A pass over a data directory that is all there *)

(** [loadBlock] logs warnings only, none of them a failure line. *)
Lemma loadBlock_no_failure d n w :
  exists E, events (loadBlock d n w).2 = events w ++ E
            /\ Forall (fun e => failure_line e = false) E.
Proof.
  unfold loadBlock. destruct (negb (IsBlockDir n)).
  { exists []. by rewrite app_nil_r. }
  unfold mbind, M_bind, try.
  pose proof (run_Stat R_still still_faults (d ++ [n]) w) as (HS & _).
  destruct (os.Stat (d ++ [n]) w) as [[isdir|e] w1]; simpl in HS.
  - destruct (negb isdir); simpl.
    { exists []. by rewrite HS, app_nil_r. }
    pose proof (run_block_ReadMetaFile block_MetaFilename R_still still_faults
                  (d ++ [n]) w1) as (HR & _).
    destruct (block_ReadMetaFile block_MetaFilename (d ++ [n]) w1) as [[m|e] w2];
      simpl in *.
    + exists []. by rewrite HR, HS, app_nil_r.
    + eexists [_]. rewrite HR, HS. split; [done|]. by repeat constructor.
  - simpl. eexists [_]. rewrite HS. split; [done|]. by repeat constructor.
Qed.

(** The block directory [n] of a data directory with the entries [es] is all
    there: it is named after the ID of its manifest [m] and holds a
    directory of segment files, the manifest and the index. *)
Definition complete_block (es : list (string * node)) (n : string) (m : BlockMeta)
    : Prop :=
  ULID_String (BlockULID m) = n
  /\ exists bes ces mdata idata,
       assoc n es = Some (Dir bes) /\ well_formed bes ces mdata idata.

(** The objects of the block [m] in the bucket [b] are what [sync] uploads
    for the block directory [bes]: the manifest with the extensions of the
    shipper, the index and the segment files with their bytes on disk. *)
Definition shipped_as (s : Shipper) (m : BlockMeta) (bes : list (string * node))
    (b : gmap path string) : Prop :=
  let id := ULID_String (BlockULID m) in
  b !! manifest_object m = Some (marshal (stamped s m))
  /\ (forall idata, assoc block_IndexFilename bes = Some (File idata) ->
        b !! [id; block_IndexFilename] = Some idata)
  /\ (forall ces fn data, assoc block_ChunksDirname bes = Some (Dir ces) ->
        assoc fn ces = Some (File data) ->
        b !! [id; block_ChunksDirname; fn] = Some data).

(** One call of [sync] in such a directory. *)
Lemma sync_completes (s : Shipper) (m : BlockMeta) (w : World)
    (es bes ces : list (string * node)) (mdata idata : string) :
  let id := ULID_String (BlockULID m) in
  faults w = [] ->
  lookup_path (dir s) (root w) = Some (Dir es) ->
  staging_root_ok es ->
  id <> "thanos" ->
  assoc id es = Some (Dir bes) ->
  well_formed bes ces mdata idata ->
  block_ChunksDirname <> block_MetaFilename +:+ ".tmp" ->
  block_IndexFilename <> block_MetaFilename +:+ ".tmp" ->
  exists w' es',
    sync s m w = (Ok tt, w')
    /\ faults w' = []
    /\ lookup_path (dir s) (root w') = Some (Dir es')
    /\ staging_root_ok es'
    /\ (forall c, c <> "thanos" -> assoc c es' = assoc c es)
    /\ (exists E, events w' = events w ++ E
                  /\ Forall (fun e => failure_line e = false) E)
    /\ (forall o, head o <> Some id -> bucket w' !! o = bucket w !! o)
    /\ (Compaction_Level m <= 1 -> bucket w !! manifest_object m = None ->
        shipped_as s m bes (bucket w')).
Proof.
  intros id Hq Hd Hok Hid Hblk Hwf Hct Hit.
  destruct (1 <? Compaction_Level m) eqn:El.
  { exists w, es. unfold sync. rewrite El.
    split; [done|]. split; [done|]. split; [done|]. split; [done|].
    split; [done|]. split; [exists []; by rewrite app_nil_r|]. split; [done|].
    intros Hl. apply Z.ltb_lt in El. lia. }
  destruct (bucket w !! manifest_object m) as [x|] eqn:Eb.
  { eexists _, es. unfold sync. rewrite El. cbv zeta.
    rewrite (bind_Ok _ _ _ _ _ (wrap_Ok "check exists" _ _ _ _ (Exists_quiet _ w Hq))).
    unfold manifest_object in Eb. rewrite Eb.
    rewrite bool_decide_true by eauto.
    split; [reflexivity|]. simpl.
    split; [done|]. split; [done|]. split; [done|]. split; [done|].
    split; [eexists [_]; split; [done|]; by repeat constructor|].
    split; [done|]. intros _ Hn. unfold manifest_object in Hn. congruence. }
  apply Z.ltb_ge in El.
  destruct (sync_ships_quiet s m w es bes ces mdata idata Hq El Hd Hok Hid Hblk
              Hwf Hct Hit Eb)
    as (w' & HS & Hq' & _ & B1 & B2 & B3 & B4 & (ues & HP) & HE).
  pose proof (run_sync block_MetaFilename block_ChunksDirname block_IndexFilename
                (R_frame (dir s) (fun c => negb (String.eqb c "thanos")))
                (frame_faults _ _) (fun _ _ _ _ => frame_event _ _ _)
                (frame_event _ _) (frame_bucket _ _) s m
                (fun rest => frame_path _ _ "thanos" rest eq_refl) w) as Hfr.
  rewrite HS in Hfr. unfold R_frame in Hfr. simpl in Hfr.
  destruct (Hfr es Hd) as (es' & Hd' & _ & Ha).
  exists w', es'. split; [done|]. split; [done|]. split; [done|]. split; [|split].
  - rewrite lookup_path_app, Hd' in HP. simpl in HP. unfold staging_root_ok.
    destruct (assoc "thanos" es') as [[|tes]|]; try done.
    by destruct (assoc "upload" tes) as [[|]|].
  - intros c Hc. apply Ha. apply negb_true_iff. by apply String.eqb_neq.
  - split; [done|]. split; [done|]. intros _ _.
    pose proof Hwf as [Hch _ _ _ Hidx _ _ _].
    split; [done|]. split.
    + intros idata'. rewrite Hidx. by intros [= <-].
    + intros ces' fn data. rewrite Hch. intros [= <-]. apply B3.
Qed.

Lemma localBlock_same d r r' es es' n :
  IsBlockDir "thanos" = false ->
  lookup_path d r = Some (Dir es) ->
  lookup_path d r' = Some (Dir es') ->
  (forall c, c <> "thanos" -> assoc c es' = assoc c es) ->
  localBlock d r' n = localBlock d r n.
Proof.
  intros Ht Hd Hd' Ha. unfold localBlock. destruct (IsBlockDir n) eqn:En; [|done].
  rewrite !lookup_path_snoc, Hd, Hd', Ha; [done|]. congruence.
Qed.

Lemma iterNames_Sync_visit_grow s prev d names ups w :
  R_grow w (iterNames d (Sync_visit s prev) names ups w).2.
Proof.
  apply (run_iterNames IsBlockDir block_MetaFilename R_grow grow_faults
           (fun _ _ _ _ => grow_event _) d (Sync_visit s prev) names ups
           (fun m st => run_Sync_visit_up R_grow grow_faults grow_event grow_path
                          grow_Upload s prev m st)).
Qed.


Lemma shipped_as_frame (s : Shipper) (m : BlockMeta) (bes : list (string * node))
    (b b' : gmap path string) :
  (forall o, head o = Some (ULID_String (BlockULID m)) -> b' !! o = b !! o) ->
  shipped_as s m bes b -> shipped_as s m bes b'.
Proof.
  intros Hf (H1 & H2 & H3). unfold shipped_as. cbv zeta.
  split; [|split].
  - rewrite Hf by done. exact H1.
  - intros idata Hi. rewrite Hf by done. by apply H2.
  - intros ces fn data Hc Hfn. rewrite Hf by done. by eapply H3.
Qed.

(** One visit of the closure of [Sync] in such a directory. *)
Lemma Sync_visit_completes (s : Shipper) (prev : gset ULID) (m : BlockMeta)
    (ups : list ULID) (w : World) (es bes ces : list (string * node))
    (mdata idata : string) :
  let id := ULID_String (BlockULID m) in
  faults w = [] ->
  lookup_path (dir s) (root w) = Some (Dir es) ->
  staging_root_ok es ->
  id <> "thanos" ->
  assoc id es = Some (Dir bes) ->
  well_formed bes ces mdata idata ->
  block_ChunksDirname <> block_MetaFilename +:+ ".tmp" ->
  block_IndexFilename <> block_MetaFilename +:+ ".tmp" ->
  exists w' es',
    Sync_visit s prev m ups w = (Ok (ups ++ [BlockULID m]), w')
    /\ faults w' = []
    /\ lookup_path (dir s) (root w') = Some (Dir es')
    /\ staging_root_ok es'
    /\ (forall c, c <> "thanos" -> assoc c es' = assoc c es)
    /\ (exists E, events w' = events w ++ E
                  /\ Forall (fun e => failure_line e = false) E)
    /\ (forall o, head o <> Some id -> bucket w' !! o = bucket w !! o)
    /\ (Compaction_Level m <= 1 -> BlockULID m ∉ prev ->
        bucket w !! manifest_object m = None ->
        shipped_as s m bes (bucket w')).
Proof.
  intros id Hq Hd Hok Hid Hblk Hwf Hct Hit. unfold Sync_visit.
  destruct (decide (BlockULID m ∈ prev)) as [Hin|Hin].
  - rewrite bool_decide_true by done. exists w, es.
    split; [done|]. split; [done|]. split; [done|]. split; [done|].
    split; [done|]. split; [exists []; by rewrite app_nil_r|]. split; [done|].
    by intros _ Hn.
  - rewrite bool_decide_false by done.
    destruct (sync_completes s m w es bes ces mdata idata Hq Hd Hok Hid Hblk Hwf
                Hct Hit) as (w' & es' & HS & H2 & H3 & H4 & H5 & H6 & H7 & H8).
    exists w', es'. rewrite (bind_Ok _ _ _ _ _ (try_run _ _ _ _ HS)).
    split; [done|]. split; [done|]. split; [done|]. split; [done|].
    split; [done|]. split; [done|]. split; [done|]. intros Hl _. by apply H8.
Qed.

(** The loop of a pass over such a directory: every block is kept, no
    failure is logged, and each block that had to be shipped is in the
    bucket afterwards. *)
Lemma pass_completes (s : Shipper) (prev : gset ULID) (r0 : node)
    (es0 : list (string * node)) :
  IsBlockDir "thanos" = false ->
  lookup_path (dir s) r0 = Some (Dir es0) ->
  block_ChunksDirname <> block_MetaFilename +:+ ".tmp" ->
  block_IndexFilename <> block_MetaFilename +:+ ".tmp" ->
  (forall n m, localBlock (dir s) r0 n = Some m -> complete_block es0 n m) ->
  forall names ups w es,
    NoDup names ->
    faults w = [] ->
    lookup_path (dir s) (root w) = Some (Dir es) ->
    staging_root_ok es ->
    (forall c, c <> "thanos" -> assoc c es = assoc c es0) ->
    exists w' es',
      iterNames (dir s) (Sync_visit s prev) names ups w
      = (Ok (ups ++ map BlockULID (omap (localBlock (dir s) r0) names)), w')
      /\ faults w' = []
      /\ lookup_path (dir s) (root w') = Some (Dir es')
      /\ staging_root_ok es'
      /\ (forall c, c <> "thanos" -> assoc c es' = assoc c es0)
      /\ (exists E, events w' = events w ++ E
                    /\ Forall (fun e => failure_line e = false) E)
      /\ (forall o, (forall n, n ∈ names -> head o <> Some n) ->
            bucket w' !! o = bucket w !! o)
      /\ (forall n m bes, n ∈ names -> localBlock (dir s) r0 n = Some m ->
            assoc n es0 = Some (Dir bes) ->
            Compaction_Level m <= 1 -> BlockULID m ∉ prev ->
            bucket w !! manifest_object m = None ->
            shipped_as s m bes (bucket w')).
Proof.
  intros Ht Hd0 Hct Hit Hall.
  induction names as [|n names IH]; intros ups w es Hnd Hq Hd Hok Hfr.
  - exists w, es. simpl. rewrite app_nil_r.
    split; [done|]. split; [done|]. split; [done|]. split; [done|].
    split; [done|]. split; [exists []; by rewrite app_nil_r|]. split; [done|].
    intros n m bes Hn. by apply elem_of_nil in Hn.
  - apply NoDup_cons in Hnd as [Hnn Hnd]. simpl iterNames.
    destruct (loadBlock_total IsBlockDir block_MetaFilename (dir s) n w)
      as (r & w1 & Hl).
    pose proof (loadBlock_quiet IsBlockDir block_MetaFilename (dir s) n w Hq) as Hr.
    destruct (loadBlock_footprint IsBlockDir block_MetaFilename (dir s) n w)
      as (Hq1 & Hr1 & Hb1 & _).
    destruct (loadBlock_no_failure (dir s) n w) as (E1 & HE1 & HF1).
    rewrite Hl in Hr, Hq1, Hr1, Hb1, HE1. simpl in Hr, Hq1, Hr1, Hb1, HE1.
    specialize (Hq1 Hq).
    rewrite (localBlock_same (dir s) r0 (root w) es0 es n Ht Hd0 Hd Hfr) in Hr.
    inversion Hr; subst r. clear Hr.
    rewrite (bind_Ok _ _ _ _ _ Hl).
    assert (Hd1 : lookup_path (dir s) (root w1) = Some (Dir es)) by (by rewrite Hr1).
    destruct (localBlock (dir s) r0 n) as [m|] eqn:Eb.
    + destruct (Hall n m Eb) as (Hid & bes & ces & mdata & idata & Hbes & Hwf).
      assert (Hnt : n <> "thanos").
      { intros ->. unfold localBlock in Eb. by rewrite Ht in Eb. }
      destruct (Sync_visit_completes s prev m ups w1 es bes ces mdata idata Hq1 Hd1 Hok)
        as (w2 & es2 & HV & Hq2 & Hd2 & Hok2 & Hfr2 & (E2 & HE2 & HF2) & Hb2 & Hs2);
        [by rewrite Hid | by rewrite Hid, Hfr | done | done | done |].
      rewrite (bind_Ok _ _ _ _ _ HV).
      destruct (IH (ups ++ [BlockULID m]) w2 es2 Hnd Hq2 Hd2 Hok2)
        as (w' & es' & HI & Hq' & Hd' & Hok' & Hfr' & (E3 & HE3 & HF3) & Hb' & Hs').
      { intros c Hc. rewrite Hfr2 by done. by apply Hfr. }
      exists w', es'. rewrite HI. cbn. rewrite Eb, <- app_assoc.
      split; [done|]. split; [done|]. split; [done|]. split; [done|].
      split; [done|]. split; [|split].
      * exists (E1 ++ E2 ++ E3). rewrite HE3, HE2, HE1, <- !app_assoc.
        split; [done|]. apply Forall_app. split; [done|]. by apply Forall_app.
      * intros o Ho. rewrite Hb', Hb2, Hb1; [done| |].
        -- rewrite Hid. apply Ho, list_elem_of_here.
        -- intros n' Hn'. by apply Ho, list_elem_of_further.
      * intros n' m' bes' Hn' Hm' Hbes' Hl' Hp' Hnone.
        apply elem_of_cons in Hn' as [->|Hn'].
        -- rewrite Eb in Hm'. inversion Hm'; subst m'.
           rewrite Hbes in Hbes'. inversion Hbes'; subst bes'.
           apply (shipped_as_frame s m bes (bucket w2)).
           ++ intros o Ho. apply Hb'. intros n' Hn'. rewrite Ho, Hid.
              intros [= <-]. done.
           ++ apply Hs2; [done|done|]. by rewrite Hb1.
        -- destruct (Hall n' m' Hm') as (Hid' & _).
           apply (Hs' n' m' bes'); try done.
           rewrite Hb2, Hb1; [done|]. unfold manifest_object. simpl.
           rewrite Hid', Hid. intros [= ->]. done.
    + destruct (IH ups w1 es Hnd Hq1 Hd1 Hok Hfr)
        as (w' & es' & HI & Hq' & Hd' & Hok' & Hfr' & (E3 & HE3 & HF3) & Hb' & Hs').
      exists w', es'. rewrite HI. cbn. rewrite Eb.
      split; [done|]. split; [done|]. split; [done|]. split; [done|].
      split; [done|]. split; [|split].
      * exists (E1 ++ E3). rewrite HE3, HE1, <- !app_assoc.
        split; [done|]. by apply Forall_app.
      * intros o Ho. rewrite Hb', Hb1; [done|].
        intros n' Hn'. by apply Ho, list_elem_of_further.
      * intros n' m' bes' Hn' Hm' Hbes' Hl' Hp' Hnone.
        apply elem_of_cons in Hn' as [->|Hn']; [congruence|].
        apply (Hs' n' m' bes'); try done. by rewrite Hb1.
Qed.

(** The record [Sync] starts from is loaded with at most a warning that is
    no failure line. *)
Lemma Sync_loaded_no_failure s w :
  exists E, events (Sync_loaded s w).2 = events w ++ E
            /\ Forall (fun e => failure_line e = false) E.
Proof.
  unfold Sync_loaded.
  pose proof (run_ReadMetaFile R_still still_faults (dir s) w) as (H2 & _).
  destruct (ReadMetaFile (dir s) w) as [[meta|e] wL]; simpl in *.
  - exists []. by rewrite H2, app_nil_r.
  - unfold after_load_error. destruct (os_IsNotExist e); simpl.
    + exists []. by rewrite H2, app_nil_r.
    + rewrite H2. eexists [_]. split; [done|]. by repeat constructor.
Qed.

(** X18. With no failure of the environment to come, [Sync] over a data
    directory that is all there ships every block, as its comment says.
    The directory has distinct entries; every block directory with a
    readable manifest is named after the ID of the manifest and holds a
    directory of segment files and an index; the name "thanos" is not taken
    for a block directory, the entry "thanos" does not stand in the way of
    the staging directory, and the temporary name of the bookkeeping file
    is not taken by a directory. Then the pass logs no failure line; the
    bookkeeping file holds the IDs of all the blocks on disk, in the order
    of the listing; each block of compaction level at most 1 that was not
    on the record loaded and whose manifest the bucket did not hold is in
    the bucket with the bytes it has on disk and the stamped manifest; and
    an object whose first component is not the name of an entry of the
    directory is as before. The names of package [block] are taken
    different from the temporary name of the manifest; [block.Upload] and
    [block.WriteMetaFile] are as modelled. *)
Theorem Sync_ships_complete_directory (s : Shipper) (w0 : World)
    (es0 : list (string * node)) :
  IsBlockDir "thanos" = false ->
  block_ChunksDirname <> block_MetaFilename +:+ ".tmp" ->
  block_IndexFilename <> block_MetaFilename +:+ ".tmp" ->
  faults w0 = [] ->
  lookup_path (dir s) (root w0) = Some (Dir es0) ->
  NoDup (map fst es0) ->
  staging_root_ok es0 ->
  match assoc (MetaFilename +:+ ".tmp") es0 with
  | Some (Dir _) => False
  | _ => True
  end ->
  (forall n m, localBlock (dir s) (root w0) n = Some m -> complete_block es0 n m) ->
  let w1 := (Sync s w0).2 in
  Forall (fun e => failure_line e = false) (new_events w0 w1)
  /\ persisted (dir s) w1
     = Some (mkMeta 1 (map BlockULID (local_blocks s (root w0) es0)))
  /\ (forall n m bes,
        localBlock (dir s) (root w0) n = Some m ->
        assoc n es0 = Some (Dir bes) ->
        Compaction_Level m <= 1 ->
        BlockULID m ∉ Uploaded (Sync_loaded s w0).1 ->
        bucket w0 !! manifest_object m = None ->
        shipped_as s m bes (bucket w1))
  /\ (forall o, (forall n, n ∈ map fst es0 -> head o <> Some n) ->
        bucket w1 !! o = bucket w0 !! o).
Proof.
  intros Ht Hct Hit Hq Hd0 Hnd Hok Htmp Hall w1.
  pose proof (Sync_from_loaded IsBlockDir block_MetaFilename block_ChunksDirname
                block_IndexFilename s w0) as HS.
  pose proof (Sync_loaded_version s w0) as Hv.
  destruct (Sync_loaded_footprint s w0) as (HrL & HbL & HqL & _).
  destruct (Sync_loaded_no_failure s w0) as (EL & HEL & HFL).
  destruct (Sync_loaded s w0) as [meta wL]. simpl in *. specialize (HqL Hq).
  set (prev := list_to_set (Uploaded meta) : gset ULID).
  assert (HdL : lookup_path (dir s) (root wL) = Some (Dir es0)) by (by rewrite HrL).
  destruct (pass_completes s prev (root w0) es0 Ht Hd0 Hct Hit Hall (map fst es0) []
              wL es0 Hnd HqL HdL Hok (fun _ _ => eq_refl))
    as (w3 & es3 & HI & Hq3 & Hd3 & Hok3 & Hfr3 & (E3 & HE3 & HF3) & Hb3 & Hs3).
  simpl in HI. fold (local_blocks s (root w0) es0) in HI.
  set (rec := mkMeta (Version meta) (map BlockULID (local_blocks s (root w0) es0))) in *.
  destruct (write_atomic_quiet (dir s) MetaFilename (marshal rec) w3 es3 Hq3 Hd3)
    as (n4 & HW & Hl4).
  { by rewrite Hfr3. }
  assert (HSync : Sync s w0 = (Ok tt, set_root n4 w3)).
  { rewrite HS. unfold Sync_pass, iterBlockMetas.
    erewrite bind_Ok; last first.
    { apply try_run. erewrite bind_Ok by (apply wrap_Ok; by apply ReadDir_quiet).
      exact HI. }
    rewrite <- WriteMetaFile_write_atomic in HW. cbv beta iota. fold rec.
    by rewrite (bind_Ok _ _ _ _ _ (try_run _ _ _ _ HW)). }
  unfold w1. rewrite HSync. simpl. split; [|split; [|split]].
  - rewrite (new_events_ext w0 _ (EL ++ E3)).
    + by apply Forall_app.
    + simpl. by rewrite HE3, HEL, app_assoc.
  - unfold persisted. simpl. rewrite lookup_path_snoc, Hl4.
    rewrite assoc_atomic_entries, String.eqb_refl, unmarshal_marshal.
    unfold rec. by rewrite Hv.
  - intros n m bes Hm Hbes Hl Hp Hnone.
    apply (Hs3 n m bes); try done.
    + by eapply assoc_Some_names.
    + unfold prev. by rewrite elem_of_list_to_set.
    + by rewrite HbL.
  - intros o Ho. by rewrite Hb3, HbL.
Qed.

End Package.

(** * A concrete shipper

    The parameters are fixed to the values of package [block], and JSON to a
    codec that satisfies the round-trip law (the bytes are the binary
    numeral of the value's code). The worlds below are those of the
    scenarios of the specification: a data directory with the blocks B1
    (level 1, 100..200) and B2 (level 2, 50..150). *)

Module Concrete.

Definition Meta_to (m : Meta) : Z * list string := (Version m, Uploaded m).
Definition Meta_from (t : Z * list string) : Meta := mkMeta t.1 t.2.

Definition BlockMeta_to (m : BlockMeta)
    : string * Z * Z * Z * list (string * string) * string :=
  (BlockULID m, MinTime m, MaxTime m, Compaction_Level m,
   map_to_list (Thanos_Labels m), Thanos_Source m).
Definition BlockMeta_from
    (t : string * Z * Z * Z * list (string * string) * string) : BlockMeta :=
  let '(a, b, c, d, e, f) := t in mkBlockMeta a b c d (list_to_map e) f.

Definition encode_bytes {A} `{Countable A} (a : A) : string :=
  BinaryString.of_pos (encode a).
Definition decode_bytes {A} `{Countable A} (s : string) : option A :=
  decode (BinaryString.to_pos s).

Lemma decode_encode_bytes {A} `{Countable A} (a : A) :
  decode_bytes (encode_bytes a) = Some a.
Proof.
  unfold decode_bytes, encode_bytes.
  by rewrite BinaryString.to_pos_of_pos, decode_encode.
Qed.

Lemma Meta_roundtrip (m : Meta) :
  Meta_from <$> decode_bytes (encode_bytes (Meta_to m)) = Some m.
Proof. rewrite decode_encode_bytes. by destruct m. Qed.

Lemma BlockMeta_roundtrip (m : BlockMeta) :
  BlockMeta_from <$> decode_bytes (encode_bytes (BlockMeta_to m)) = Some m.
Proof.
  rewrite decode_encode_bytes. destruct m as [a b c d e f]. simpl.
  by rewrite list_to_map_to_list.
Qed.

#[export] Instance json_Meta : JSON Meta := {|
  marshal m := encode_bytes (Meta_to m);
  unmarshal s := Meta_from <$> decode_bytes s;
  unmarshal_marshal := Meta_roundtrip
|}.

#[export] Instance json_BlockMeta : JSON BlockMeta := {|
  marshal m := encode_bytes (BlockMeta_to m);
  unmarshal s := BlockMeta_from <$> decode_bytes s;
  unmarshal_marshal := BlockMeta_roundtrip
|}.

(** A block directory is named by a ULID: 26 characters. *)
Definition IsBlockDir (n : string) : bool :=
  bool_decide (String.length n = 26%nat).

Definition B1 : ULID := "01BKGV7JBM69T2G1BGBGM6KB12".
Definition B2 : ULID := "01BKGV7JC0RY8A6MACW02A2PJD".

Definition b1 : BlockMeta := mkBlockMeta B1 100 200 1 ∅ "".
Definition b2 : BlockMeta := mkBlockMeta B2 50 150 2 ∅ "".

Definition blockdir (m : BlockMeta) : node :=
  Dir [("chunks", Dir [("000001", File "c1")]);
       ("index", File "idx");
       ("meta.json", File (marshal m))].

Definition root0 : node :=
  Dir [("data", Dir [(B1, blockdir b1); (B2, blockdir b2)])].

Definition s0 : Shipper := mkShipper ["data"] (fun _ => None) "sidecar".

(** Nothing shipped yet, no failure to come. *)
Definition w0 : World := mkWorld root0 ∅ [] [].

Definition sync := sync "meta.json" "chunks" "index".
Definition Sync_visit := Sync_visit "meta.json" "chunks" "index".
Definition Sync := Sync IsBlockDir "meta.json" "chunks" "index".
Definition Timestamps := Timestamps IsBlockDir "meta.json".

(** The bucket holds the manifest of B1. *)
Definition w_shipped : World :=
  mkWorld root0 {[ [B1; "meta.json"] := "manifest" ]} [] [].

(** The bucket will fail the next call. *)
Definition w_failing : World := mkWorld root0 ∅ [] [Some 0%nat].

Lemma sync_compacted_block_skipped_witness :
  1 < Compaction_Level b2 /\ sync s0 b2 w0 = (Ok tt, w0).
Proof.
  split; [reflexivity|]. apply sync_compacted_block_skipped. reflexivity.
Defined.

Lemma sync_remote_manifest_exists_witness :
  let w1 := set_events [EvExists [B1; "meta.json"]] w_shipped in
  sync s0 b1 w_shipped = (Ok tt, w1)
  /\ root w1 = root w_shipped
  /\ bucket w1 = bucket w_shipped
  /\ events w1 = events w_shipped ++ [EvExists [B1; "meta.json"]].
Proof.
  apply (sync_remote_manifest_exists "meta.json" "chunks" "index" s0 b1 w_shipped).
  - vm_compute. discriminate.
  - vm_compute. reflexivity.
Defined.


Lemma Sync_visit_failure_isolated_witness :
  let e := Wrap "check exists" (EIO "exists") in
  let w1 := (sync s0 b1 w_failing).2 in
  let line := EvLog LvError "shipping failed" (Some B1) (Some e) in
  let w2 := set_events (events w1 ++ [line]) w1 in
  (B1 ∉ (∅ : gset ULID))
  /\ sync s0 b1 w_failing = (Err e, w1)
  /\ Sync_visit s0 ∅ b1 [] w_failing = (Ok [], w2).
Proof.
  intros e w1 line w2.
  assert (H1 : B1 ∉ (∅ : gset ULID)) by apply not_elem_of_empty.
  assert (H2 : sync s0 b1 w_failing = (Err e, w1)) by (vm_compute; reflexivity).
  split; [exact H1|]. split; [exact H2|].
  exact (proj1 (Sync_visit_failure_isolated IsBlockDir "meta.json" "chunks" "index"
                  s0 ∅ b1 [] w_failing w1 e H1 H2)).
Defined.

(** The world one pass leaves behind: B1 is shipped; the record lists B1
    and B2, on which [sync] returned nil without shipping it. *)
Definition w_synced : World := (Sync s0 w0).2.










(** The record is there; the fifth call to come, the rename, will fail. *)
Definition w_rename : World :=
  set_faults [None; None; None; None; Some 0%nat] w_synced.

Definition data_entries (w : World) : list (string * node) :=
  match lookup_path ["data"] (root w) with
  | Some (Dir es) => es
  | _ => []
  end.

Lemma WriteMetaFile_rename_failure_witness :
  let target := ["data"; MetaFilename] in
  let r := WriteMetaFile (dir s0) (mkMeta 1 [B1]) w_rename in
  lookup_path target (root w_rename) = Some (File (marshal (mkMeta 1 [B1; B2])))
  /\ r.1 = Err (EIO "rename")
  /\ lookup_path target (root r.2) = None.
Proof.
  intros target r.
  split; [vm_compute; reflexivity|].
  destruct (WriteMetaFile_rename_failure (dir s0) (mkMeta 1 [B1]) w_rename
              (data_entries w_rename) (marshal (mkMeta 1 [B1; B2])) 0 [])
    as (w' & HW & Hn & _).
  - vm_compute. reflexivity.
  - vm_compute. reflexivity.
  - vm_compute. exact I.
  - reflexivity.
  - unfold r. rewrite HW. split; [reflexivity | exact Hn].
Defined.

Lemma sync_manifest_uploaded_last_witness :
  data_objects "chunks" "index" s0 b1 w0 = [[B1; "chunks"; "000001"]; [B1; "index"]]
  /\ exists E, events (sync s0 b1 w0).2 = events w0 ++ E
      /\ bucket (sync s0 b1 w0).2 = replay E (bucket w0)
      /\ ordered (data_objects "chunks" "index" s0 b1 w0)
                 (manifest_object "meta.json" b1) E
      /\ (complete (data_objects "chunks" "index" s0 b1 w0)
                   (manifest_object "meta.json" b1) (bucket w0) ->
          forall E1 E2, E = E1 ++ E2 ->
            complete (data_objects "chunks" "index" s0 b1 w0)
                     (manifest_object "meta.json" b1) (replay E1 (bucket w0))).
Proof.
  split; [reflexivity|].
  apply (sync_manifest_uploaded_last "meta.json" "chunks" "index" s0 b1 w0);
    discriminate.
Defined.

(** ** The further properties on the concrete shipper *)

Lemma WriteMetaFile_then_ReadMetaFile_witness :
  exists w',
    WriteMetaFile ["data"] (mkMeta 1 [B1]) w0 = (Ok tt, w')
    /\ ReadMetaFile ["data"] w' = (Ok (mkMeta 1 [B1]), w').
Proof.
  destruct (WriteMetaFile_then_ReadMetaFile ["data"] (mkMeta 1 [B1]) w0
              (data_entries w0) eq_refl eq_refl I) as (w' & H1 & H2 & _).
  exists w'. split; [exact H1 | exact H2].
Defined.

(** A callback that refuses the first block it is handed. *)
Definition refuse (m : BlockMeta) (st : list ULID) : M (list ULID) :=
  throw (EVersion (Compaction_Level m)).

Lemma iterBlockMetas_error_source_witness :
  iterBlockMetas IsBlockDir "meta.json" s0 refuse [] w0 = (Err (EVersion 1), w0)
  /\ exists names w1 pre n post st1 w2 m w3,
       fileutil.ReadDir (dir s0) w0 = (Ok names, w1)
       /\ names = pre ++ n :: post
       /\ iterNames IsBlockDir "meta.json" (dir s0) refuse pre [] w1 = (Ok st1, w2)
       /\ loadBlock IsBlockDir "meta.json" (dir s0) n w2 = (Ok (Some m), w3)
       /\ refuse m st1 w3 = (Err (EVersion 1), w0).
Proof.
  assert (H : iterBlockMetas IsBlockDir "meta.json" s0 refuse [] w0
              = (Err (EVersion 1), w0)) by (vm_compute; reflexivity).
  split; [exact H|].
  destruct (iterBlockMetas_error_source IsBlockDir "meta.json" s0 refuse [] w0 w0
              (EVersion 1) H) as [(e0 & Hr & _)|Hc].
  - exfalso. vm_compute in Hr. discriminate Hr.
  - exact Hc.
Defined.

(** A callback that collects the IDs it is handed. *)
Definition collect (m : BlockMeta) (st : list ULID) : M (list ULID) :=
  mret (st ++ [BlockULID m]).

Lemma iterBlockMetas_visits_local_blocks_witness :
  fileutil.ReadDir (dir s0) w0 = (Ok [B1; B2], w0)
  /\ omap (localBlock IsBlockDir "meta.json" (dir s0) (root w0)) [B1; B2] = [b1; b2]
  /\ exists w', iterBlockMetas IsBlockDir "meta.json" s0 collect [] w0
                = (Ok [B1; B2], w').
Proof.
  assert (H : fileutil.ReadDir (dir s0) w0 = (Ok [B1; B2], w0))
    by (vm_compute; reflexivity).
  assert (Hl : omap (localBlock IsBlockDir "meta.json" (dir s0) (root w0)) [B1; B2]
               = [b1; b2])
    by (vm_compute; reflexivity).
  split; [exact H|]. split; [exact Hl|].
  destruct (iterBlockMetas_visits_local_blocks IsBlockDir "meta.json" s0
              (fun st m => st ++ [BlockULID m]) collect [] w0 w0 _
              (fun _ _ _ => eq_refl) H) as (bs & w' & Hit & _ & Hq & _).
  exists w'. rewrite Hit, (Hq eq_refl), Hl. reflexivity.
Defined.

(** A shipper whose data directory does not exist. *)
Definition s_nodir : Shipper := mkShipper ["nodata"] (fun _ => None) "sidecar".

Lemma Sync_unlistable_directory_witness :
  let w' := (Sync s_nodir w0).2 in
  lookup_path (dir s_nodir) (root w0) = None
  /\ root w' = root w0 /\ bucket w' = bucket w0
  /\ exists E e,
       events w' = events w0 ++ E
         ++ [EvLog LvError "iter block metas failed" None (Some (Wrap "read dir" e))]
       /\ Forall is_log E.
Proof.
  split; [reflexivity|].
  apply (Sync_unlistable_directory IsBlockDir "meta.json" "chunks" "index" s_nodir w0).
  intros es. discriminate.
Defined.

Lemma Sync_writes_confined_witness :
  lookup_path (dir s0) (root w0) = Some (Dir (data_entries w0))
  /\ exists es',
       lookup_path (dir s0) (root (Sync s0 w0).2) = Some (Dir es')
       /\ (forall c, reserved c = false -> assoc c es' = assoc c (data_entries w0))
       /\ filter (fun c => reserved c = false) (map fst es')
          = filter (fun c => reserved c = false) (map fst (data_entries w0)).
Proof.
  split; [reflexivity|].
  exact (Sync_writes_confined IsBlockDir "meta.json" "chunks" "index" s0 w0
           (data_entries w0) eq_refl).
Defined.

(** The bookkeeping file holds bytes that do not decode. *)
Definition w_corrupt : World :=
  mkWorld (Dir [("data", Dir [(B1, blockdir b1);
                              ("thanos.shipper.json", File "{")])]) ∅ [] [].

Lemma Sync_leaves_readable_record_witness :
  persisted (dir s0) w_corrupt = None
  /\ exists ups,
       persisted (dir s0) (Sync s0 w_corrupt).2 = Some (mkMeta 1 ups)
       /\ ReadMetaFile (dir s0) (Sync s0 w_corrupt).2
          = (Ok (mkMeta 1 ups), (Sync s0 w_corrupt).2).
Proof.
  split; [vm_compute; reflexivity|].
  exact (Sync_leaves_readable_record IsBlockDir "meta.json" "chunks" "index" s0
           w_corrupt (data_entries w_corrupt) eq_refl eq_refl I).
Defined.

Lemma hardlinkBlock_stages_the_files_witness :
  let src := ["data"; B1] in
  let dst := ["data"; "thanos"; "upload"; B1] in
  let w' := (hardlinkBlock "meta.json" "chunks" "index" src dst w0).2 in
  hardlinkBlock "meta.json" "chunks" "index" src dst w0 = (Ok tt, w')
  /\ lookup_path (dst ++ ["chunks"; "000001"]) (root w') = Some (File "c1")
  /\ lookup_path (dst ++ ["index"]) (root w') = Some (File "idx")
  /\ lookup_path src (root w') = lookup_path src (root w0).
Proof.
  intros src dst w'.
  assert (H : hardlinkBlock "meta.json" "chunks" "index" src dst w0 = (Ok tt, w'))
    by (vm_compute; reflexivity).
  split; [exact H|].
  destruct (hardlinkBlock_stages_the_files "meta.json" "chunks" "index"
              ["data"] [] ["upload"; B1] B1 "thanos" w0 w' (data_entries w0)
              ltac:(discriminate) eq_refl H) as (ces & Hces & Hall & Hsrc).
  assert (Hc : ces = [("000001", File "c1")]).
  { vm_compute in Hces. by inversion Hces. }
  subst ces. split; [|split; [|exact Hsrc]].
  - destruct (Hall ["chunks"; "000001"]) as (data & H1 & H2).
    { apply elem_of_app. left. apply list_elem_of_here. }
    vm_compute in H1. inversion H1; subst data. exact H2.
  - destruct (Hall ["index"]) as (data & H1 & H2).
    { apply elem_of_app. right. apply list_elem_of_further, list_elem_of_here. }
    vm_compute in H1. inversion H1; subst data. exact H2.
Defined.
(** The world in which [sync] stages B1: the staging directory is there and
    empty. *)
Definition w_staging : World :=
  (os.MkdirAll ["data"; "thanos"; "upload"; B1] w0).2.

Lemma b1_well_formed :
  well_formed "meta.json" "chunks" "index"
    [("chunks", Dir [("000001", File "c1")]); ("index", File "idx");
     ("meta.json", File (marshal b1))]
    [("000001", File "c1")] (marshal b1) "idx".
Proof.
  split; try done.
  - intros fn x Hin. apply list_elem_of_singleton in Hin. inversion Hin. eauto.
  - apply NoDup_singleton.
Qed.

Lemma hardlinkBlock_succeeds_witness :
  exists w' ds,
    hardlinkBlock "meta.json" "chunks" "index"
      ["data"; B1] ["data"; "thanos"; "upload"; B1] w_staging = (Ok tt, w')
    /\ lookup_path ["data"; "thanos"; "upload"; B1] (root w') = Some (Dir ds)
    /\ assoc "index" ds = Some (File "idx").
Proof.
  destruct (hardlinkBlock_succeeds "meta.json" "chunks" "index"
              ["data"] [] ["upload"; B1] B1 "thanos" w_staging
              (data_entries w_staging) _ _ (marshal b1) "idx"
              ltac:(discriminate) eq_refl eq_refl eq_refl b1_well_formed eq_refl)
    as (w' & ds & H1 & _ & H2 & _ & _ & H3 & _).
  exists w', ds. split; [exact H1|]. split; [exact H2 | exact H3].
Defined.

Lemma sync_nil_means_shipped_witness :
  Compaction_Level b1 <= 1
  /\ sync s0 b1 w0 = (Ok tt, (sync s0 b1 w0).2)
  /\ ((is_Some (bucket w0 !! manifest_object "meta.json" b1)
       /\ bucket (sync s0 b1 w0).2 = bucket w0)
      \/ (bucket w0 !! manifest_object "meta.json" b1 = None
          /\ bucket (sync s0 b1 w0).2 !! manifest_object "meta.json" b1
             = Some (marshal (stamped s0 b1)))).
Proof.
  assert (Hl : Compaction_Level b1 <= 1) by discriminate.
  assert (H : sync s0 b1 w0 = (Ok tt, (sync s0 b1 w0).2)) by (vm_compute; reflexivity).
  split; [exact Hl|]. split; [exact H|].
  exact (sync_nil_means_shipped "meta.json" "chunks" "index" s0 b1 w0 _ Hl H).
Defined.

Lemma Sync_record_backed_witness :
  Sync_loaded s0 w0 = (mkMeta 1 [], w0)
  /\ fileutil.ReadDir (dir s0) w0 = (Ok [B1; B2], w0)
  /\ let prev : gset ULID := list_to_set [] in
     let vs := visits IsBlockDir "meta.json" "chunks" "index" s0 prev (dir s0)
                 [B1; B2] w0 in
     forall id, id ∈ recorded_ids "meta.json" "chunks" "index" s0 prev vs ->
       id ∈ ([] : list ULID)
       \/ exists m wb, (m, wb) ∈ vs /\ BlockULID m = id
            /\ (1 < Compaction_Level m
                \/ is_Some (bucket (Sync s0 w0).2 !! manifest_object "meta.json" m)).
Proof.
  assert (H1 : Sync_loaded s0 w0 = (mkMeta 1 [], w0)) by (vm_compute; reflexivity).
  assert (H2 : fileutil.ReadDir (dir s0) w0 = (Ok [B1; B2], w0))
    by (vm_compute; reflexivity).
  split; [exact H1|]. split; [exact H2|].
  exact (Sync_record_backed IsBlockDir "meta.json" "chunks" "index"
           s0 w0 w0 w0 (mkMeta 1 []) [B1; B2] H1 H2).
Defined.
Lemma sync_ships_block_witness :
  bucket w0 !! manifest_object "meta.json" b1 = None
  /\ exists w',
       sync s0 b1 w0 = (Ok tt, w')
       /\ faults w' = []
       /\ lookup_path (updir_of s0 b1) (root w') = None
       /\ bucket w' !! manifest_object "meta.json" b1 = Some (marshal (stamped s0 b1))
       /\ bucket w' !! [B1; "index"] = Some "idx"
       /\ (forall fn data, assoc fn [("000001", File "c1")] = Some (File data) ->
             bucket w' !! [B1; "chunks"; fn] = Some data)
       /\ (forall o, head o <> Some B1 -> bucket w' !! o = bucket w0 !! o).
Proof.
  assert (Hn : bucket w0 !! manifest_object "meta.json" b1 = None)
    by (vm_compute; reflexivity).
  split; [exact Hn|].
  exact (sync_ships_block "meta.json" "chunks" "index" s0 b1 w0 (data_entries w0)
           _ _ (marshal b1) "idx" eq_refl ltac:(discriminate) eq_refl I
           ltac:(discriminate) eq_refl b1_well_formed
           ltac:(discriminate) ltac:(discriminate) Hn).
Defined.
Lemma Timestamps_after_clean_Sync_witness :
  Forall (fun e => failure_line e = false) (new_events w0 w_synced)
  /\ local_blocks IsBlockDir "meta.json" s0 (root w0) (data_entries w0) = [b1; b2]
  /\ (Timestamps s0 w_synced).1 = (50, 200, None).
Proof.
  assert (H : Forall (fun e => failure_line e = false) (new_events w0 w_synced)).
  { vm_compute. repeat constructor. }
  assert (Hb : local_blocks IsBlockDir "meta.json" s0 (root w0) (data_entries w0)
               = [b1; b2]) by (vm_compute; reflexivity).
  split; [exact H|]. split; [exact Hb|].
  etransitivity.
  - exact (Timestamps_after_clean_Sync IsBlockDir "meta.json" "chunks" "index"
             s0 w0 (data_entries w0) eq_refl eq_refl eq_refl eq_refl eq_refl H).
  - cbv zeta. rewrite Hb. reflexivity.
Defined.

(** The sixth call to come, opening the directory after the rename, will
    fail. *)
Definition w_opendir : World :=
  set_faults (replicate 5 None ++ [Some 0%nat]) w0.

Lemma WriteMetaFile_failure_points_witness :
  let r := WriteMetaFile ["data"] (mkMeta 1 [B1]) w_opendir in
  is_Ok r.1 = false
  /\ lookup_path ["data"; MetaFilename] (root r.2)
     = Some (File (marshal (mkMeta 1 [B1]))).
Proof.
  destruct (WriteMetaFile_failure_points ["data"] (mkMeta 1 [B1]) w_opendir
              (data_entries w0) 5 0 [] eq_refl I eq_refl) as (H1 & _ & _ & H4).
  split; [apply H1; lia | apply H4; lia].
Defined.

Lemma b2_well_formed :
  well_formed "meta.json" "chunks" "index"
    [("chunks", Dir [("000001", File "c1")]); ("index", File "idx");
     ("meta.json", File (marshal b2))]
    [("000001", File "c1")] (marshal b2) "idx".
Proof.
  split; try done.
  - intros fn x Hin. apply list_elem_of_singleton in Hin. inversion Hin. eauto.
  - apply NoDup_singleton.
Qed.

Lemma assoc_two (n k1 k2 : string) (v1 v2 : node) :
  n <> k1 -> n <> k2 -> assoc n [(k1, v1); (k2, v2)] = None.
Proof.
  intros H1 H2. apply String.eqb_neq in H1, H2. simpl. by rewrite H1, H2.
Qed.

(** Both block directories of the data directory are all there. *)
Lemma data_all_there (n : string) (m : BlockMeta) :
  localBlock IsBlockDir "meta.json" (dir s0) (root w0) n = Some m ->
  complete_block "meta.json" "chunks" "index" (data_entries w0) n m.
Proof.
  intros H.
  assert (H1 : localBlock IsBlockDir "meta.json" (dir s0) (root w0) B1 = Some b1)
    by (vm_compute; reflexivity).
  assert (H2 : localBlock IsBlockDir "meta.json" (dir s0) (root w0) B2 = Some b2)
    by (vm_compute; reflexivity).
  destruct (String.eqb_spec n B1) as [->|Hn1].
  { rewrite H1 in H. inversion H; subst m. split; [reflexivity|].
    exists [("chunks", Dir [("000001", File "c1")]); ("index", File "idx");
            ("meta.json", File (marshal b1))],
           [("000001", File "c1")], (marshal b1), "idx".
    split; [reflexivity | exact b1_well_formed]. }
  destruct (String.eqb_spec n B2) as [->|Hn2].
  { rewrite H2 in H. inversion H; subst m. split; [reflexivity|].
    exists [("chunks", Dir [("000001", File "c1")]); ("index", File "idx");
            ("meta.json", File (marshal b2))],
           [("000001", File "c1")], (marshal b2), "idx".
    split; [reflexivity | exact b2_well_formed]. }
  exfalso. unfold localBlock in H. rewrite lookup_path_snoc in H.
  change (lookup_path (dir s0) (root w0))
    with (Some (Dir [(B1, blockdir b1); (B2, blockdir b2)])) in H.
  cbv beta iota in H. rewrite (assoc_two n B1 B2 _ _ Hn1 Hn2) in H.
  destruct (IsBlockDir n); discriminate H.
Qed.

Lemma data_names_distinct : NoDup (map fst (data_entries w0)).
Proof.
  change (NoDup [B1; B2]). apply NoDup_cons. split; [|apply NoDup_singleton].
  intros H. apply list_elem_of_singleton in H. discriminate.
Qed.

Lemma Sync_ships_complete_directory_witness :
  Forall (fun e => failure_line e = false) (new_events w0 w_synced)
  /\ persisted (dir s0) w_synced = Some (mkMeta 1 [B1; B2])
  /\ bucket w_synced !! [B1; "index"] = Some "idx"
  /\ bucket w_synced !! [B1; "chunks"; "000001"] = Some "c1".
Proof.
  assert (Hb : local_blocks IsBlockDir "meta.json" s0 (root w0) (data_entries w0)
               = [b1; b2]) by (vm_compute; reflexivity).
  assert (HL : Sync_loaded s0 w0 = (mkMeta 1 [], w0)) by (vm_compute; reflexivity).
  assert (H1 : localBlock IsBlockDir "meta.json" (dir s0) (root w0) B1 = Some b1)
    by (vm_compute; reflexivity).
  destruct (Sync_ships_complete_directory IsBlockDir "meta.json" "chunks" "index"
              s0 w0 (data_entries w0) eq_refl ltac:(discriminate) ltac:(discriminate)
              eq_refl eq_refl data_names_distinct I I data_all_there)
    as (Hc & Hp & Hs & _).
  unfold w_synced, Sync.
  split; [exact Hc|]. split.
  { etransitivity; [exact Hp|]. by rewrite Hb. }
  destruct (Hs B1 b1 _ H1 eq_refl ltac:(discriminate)) as (_ & Hi & Hch).
  - rewrite HL. apply not_elem_of_nil.
  - reflexivity.
  - split; [exact (Hi "idx" eq_refl)|].
    exact (Hch [("000001", File "c1")] "000001" "c1" eq_refl eq_refl).
Defined.

End Concrete.
